(** * GroceryBot (src/index.js): the shopping list store, the add-item
    dialogue and the remove / toggle actions, embedded in Rocq.

    JavaScript strings are sequences of UTF-16 code units, JSON values a
    nested inductive type, and the handlers run in a state-and-exception
    monad over a [World] that holds the list file, the [addItemStates] map,
    the Telegram transport and the log. *)

From Stdlib Require Import ZArith NArith List String Ascii Lia Bool.
From stdpp Require Import base option list gmap.

Local Open Scope N_scope.

(** ** JavaScript strings and numbers *)

Module JS.

(** A string is the list of its UTF-16 code units. *)
Abbreviation jsstring := (list N).

Definition js (s : string) : jsstring :=
  map N_of_ascii (list_ascii_of_string s).

Definition ch (a : ascii) : N := N_of_ascii a.

(** The double quote *)
Definition dquote : N := 0x22.

(** [a === b] on strings *)
Definition str_eqb (a b : jsstring) : bool := bool_decide (a = b).

(** [String.prototype.startsWith] *)
Fixpoint startsWith (s pat : jsstring) {struct pat} : bool :=
  match pat, s with
  | [], _ => true
  | p :: pat', c :: s' => (c =? p) && startsWith s' pat'
  | _ :: _, [] => false
  end.

(** [String.prototype.includes]; also the test of an unanchored regular
    expression made of literal characters, such as [/\/add/]. *)
Fixpoint includes (s pat : jsstring) : bool :=
  startsWith s pat ||
  match s with
  | [] => false
  | _ :: s' => includes s' pat
  end.

(** [s.replace(pat, repl)] with a string pattern: the first occurrence only. *)
Fixpoint replace (s pat repl : jsstring) : jsstring :=
  if startsWith s pat then repl ++ drop (length pat) s
  else match s with
       | [] => []
       | c :: s' => c :: replace s' pat repl
       end.

(** [message.replace(/[*_`\[]/g, '')] *)
Definition is_markdown_char (c : N) : bool :=
  (c =? ch "*") || (c =? ch "_") || (c =? ch "`") || (c =? ch "[").

Definition strip_markdown (s : jsstring) : jsstring :=
  filter (fun c => is_markdown_char c = false) s.

(** A Number that holds an integer, or NaN.  Integers are kept exact: the
    handlers only compare an index with 0 and with an array length and use
    it as an array position, and rounding to a double changes none of
    these. *)
Inductive number :=
| NaN
| Int (z : Z).

(** [a < b] and [a >= b]: false as soon as one side is NaN *)
Definition num_lt (a b : number) : bool :=
  match a, b with
  | Int x, Int y => (x <? y)%Z
  | _, _ => false
  end.

Definition num_ge (a b : number) : bool :=
  match a, b with
  | Int x, Int y => (y <=? x)%Z
  | _, _ => false
  end.

(** StrWhiteSpaceChar: WhiteSpace and LineTerminator code units *)
Definition is_str_whitespace (c : N) : bool :=
  (c =? 0x09) || (c =? 0x0A) || (c =? 0x0B) || (c =? 0x0C) || (c =? 0x0D)
  || (c =? 0x20) || (c =? 0xA0) || (c =? 0x1680)
  || ((0x2000 <=? c) && (c <=? 0x200A))
  || (c =? 0x2028) || (c =? 0x2029) || (c =? 0x202F) || (c =? 0x205F)
  || (c =? 0x3000) || (c =? 0xFEFF).

Fixpoint trim_start (s : jsstring) : jsstring :=
  match s with
  | c :: s' => if is_str_whitespace c then trim_start s' else s
  | [] => []
  end.

(** The value of a digit in radix 10 or 16 *)
Definition digit_val (radix : N) (c : N) : option N :=
  if (ch "0" <=? c) && (c <=? ch "9") then Some (c - ch "0")
  else if (radix =? 16) && (ch "a" <=? c) && (c <=? ch "f") then Some (c - ch "a" + 10)
  else if (radix =? 16) && (ch "A" <=? c) && (c <=? ch "F") then Some (c - ch "A" + 10)
  else None.

(** The longest prefix of radix digits, read left to right; [None] when the
    prefix is empty. *)
Fixpoint read_digits (radix : N) (acc : option N) (s : jsstring) : option N :=
  match s with
  | c :: s' =>
      match digit_val radix c with
      | Some d => read_digits radix (Some (default 0 acc * radix + d)) s'
      | None => acc
      end
  | [] => acc
  end.

(** [parseInt(s)] with no radix argument *)
Definition parseInt (s : jsstring) : number :=
  let inputS := trim_start s in
  let '(negative, inputS) :=
    match inputS with
    | c :: rest => if c =? ch "-" then (true, rest)
                   else if c =? ch "+" then (false, rest) else (false, inputS)
    | [] => (false, inputS)
    end in
  let '(radix, inputS) :=
    match inputS with
    | z :: x :: rest =>
        if (z =? ch "0") && ((x =? ch "x") || (x =? ch "X")) then (16, rest)
        else (10, inputS)
    | _ => (10, inputS)
    end in
  match read_digits radix None inputS with
  | None => NaN
  | Some n => Int (if negative then - Z.of_N n else Z.of_N n)
  end.

(** Decimal digits of a non-negative integer, as [`${n}`] prints them *)
Fixpoint decimal_digits (fuel : nat) (n : N) (acc : jsstring) : jsstring :=
  match fuel with
  | O => acc
  | S fuel =>
      let acc := (ch "0" + n mod 10) :: acc in
      if n / 10 =? 0 then acc else decimal_digits fuel (n / 10) acc
  end.

Definition nat_to_string (n : nat) : jsstring :=
  decimal_digits (S (N.to_nat (N.log2 (N.of_nat n)))) (N.of_nat n) [].

End JS.

Export JS.

(** ** JSON values, [JSON.parse] and [JSON.stringify] *)

Module JSON.

(** A JavaScript value as [JSON.parse] can build it, and [undefined].  An
    array is the list of its elements; an object is the list of its own
    properties in property order.  A number is kept as the literal it was
    read from: no handler computes with a stored number. *)
#[warnings="-register-all"]
Inductive value :=
| VUndefined
| VNull
| VBool (b : bool)
| VNum (literal : jsstring)
| VStr (s : jsstring)
| VArr (elements : list value)
| VObj (props : list (jsstring * value)).

Abbreviation object := (list (jsstring * value)).

(** *** Objects: own properties in property order *)

Fixpoint obj_get (k : jsstring) (o : object) : value :=
  match o with
  | [] => VUndefined
  | (k', v) :: o' => if str_eqb k' k then v else obj_get k o'
  end.

Definition obj_has (k : jsstring) (o : object) : bool :=
  existsb (fun kv => str_eqb kv.1 k) o.

(** An array index is the canonical decimal form of an integer below
    2^32 - 1; such keys come first in property order, in ascending order. *)
Definition array_index (k : jsstring) : option N :=
  match k with
  | [] => None
  | c :: k' =>
      if forallb (fun d => (ch "0" <=? d) && (d <=? ch "9")) k
         && negb ((c =? ch "0") && negb (length k' =? 0)%nat) then
        match read_digits 10 None k with
        | Some n => if n <? 2 ^ 32 - 1 then Some n else None
        | None => None
        end
      else None
  end.

Fixpoint obj_replace (k : jsstring) (v : value) (o : object) : object :=
  match o with
  | [] => []
  | (k', v') :: o' =>
      if str_eqb k' k then (k', v) :: o' else (k', v') :: obj_replace k v o'
  end.

Fixpoint obj_add_index (i : N) (k : jsstring) (v : value) (o : object) : object :=
  match o with
  | [] => [(k, v)]
  | (k', v') :: o' =>
      match array_index k' with
      | Some j => if j <? i then (k', v') :: obj_add_index i k v o' else (k, v) :: o
      | None => (k, v) :: o
      end
  end.

(** [o[k] = v]: an existing property keeps its place, a new one is added
    where property order puts it. *)
Definition obj_set (k : jsstring) (v : value) (o : object) : object :=
  if obj_has k o then obj_replace k v o
  else match array_index k with
       | Some i => obj_add_index i k v o
       | None => o ++ [(k, v)]
       end.

Definition obj_of_members (members : list (jsstring * value)) : object :=
  fold_left (fun o kv => obj_set kv.1 kv.2 o) members [].

(** *** [JSON.parse] *)

Definition is_ws (c : N) : bool :=
  (c =? 0x20) || (c =? 0x09) || (c =? 0x0A) || (c =? 0x0D).

Fixpoint skip_ws (t : jsstring) : jsstring :=
  match t with
  | c :: t' => if is_ws c then skip_ws t' else t
  | [] => []
  end.

Definition hex4 (h1 h2 h3 h4 : N) : option N :=
  match digit_val 16 h1, digit_val 16 h2, digit_val 16 h3, digit_val 16 h4 with
  | Some a, Some b, Some c, Some d => Some (((a * 16 + b) * 16 + c) * 16 + d)
  | _, _, _, _ => None
  end.

(** The character a one-letter escape stands for *)
Definition unescape (e : N) : option N :=
  if e =? dquote then Some (dquote)
  else if e =? ch "\" then Some (ch "\")
  else if e =? ch "/" then Some (ch "/")
  else if e =? ch "b" then Some 0x08
  else if e =? ch "f" then Some 0x0C
  else if e =? ch "n" then Some 0x0A
  else if e =? ch "r" then Some 0x0D
  else if e =? ch "t" then Some 0x09
  else None.

(** The characters of a string literal, after its opening quote and up to
    the closing one *)
Fixpoint parse_chars (t : jsstring) : option (jsstring * jsstring) :=
  match t with
  | [] => None
  | c :: t' =>
      if c =? dquote then Some ([], t')
      else if c =? ch "\" then
        match t' with
        | [] => None
        | e :: t'' =>
            if e =? ch "u" then
              match t'' with
              | h1 :: h2 :: h3 :: h4 :: t3 =>
                  match hex4 h1 h2 h3 h4 with
                  | Some u =>
                      match parse_chars t3 with
                      | Some (s, rest) => Some (u :: s, rest)
                      | None => None
                      end
                  | None => None
                  end
              | _ => None
              end
            else
              match unescape e with
              | Some u =>
                  match parse_chars t'' with
                  | Some (s, rest) => Some (u :: s, rest)
                  | None => None
                  end
              | None => None
              end
        end
      else if c <? 0x20 then None
      else
        match parse_chars t' with
        | Some (s, rest) => Some (c :: s, rest)
        | None => None
        end
  end.

Definition is_digit (c : N) : bool := (ch "0" <=? c) && (c <=? ch "9").

Fixpoint span_digits (t : jsstring) : jsstring * jsstring :=
  match t with
  | c :: t' =>
      if is_digit c then let '(ds, rest) := span_digits t' in (c :: ds, rest)
      else ([], t)
  | [] => ([], [])
  end.

(** A number literal: an optional minus sign, then 0 or a digit string
    without leading zero, then an optional fraction (a dot and digits) and
    an optional exponent (e or E, an optional sign, digits) *)
Definition parse_number (t : jsstring) : option (jsstring * jsstring) :=
  let '(sign, t) :=
    match t with
    | c :: t' => if c =? ch "-" then ([c], t') else ([], t)
    | [] => ([], t)
    end in
  let '(int, t) :=
    match t with
    | c :: t' => if c =? ch "0" then ([c], t') else span_digits t
    | [] => ([], t)
    end in
  match int with
  | [] => None
  | _ :: _ =>
      let frac :=
        match t with
        | c :: t' =>
            if c =? ch "." then
              match span_digits t' with
              | ([], _) => None
              | (ds, rest) => Some (c :: ds, rest)
              end
            else Some ([], t)
        | [] => Some ([], t)
        end in
      match frac with
      | None => None
      | Some (frac, t) =>
          let exp :=
            match t with
            | c :: t' =>
                if (c =? ch "e") || (c =? ch "E") then
                  let '(esign, t'') :=
                    match t' with
                    | s :: t'' =>
                        if (s =? ch "+") || (s =? ch "-") then ([s], t'') else ([], t')
                    | [] => ([], t')
                    end in
                  match span_digits t'' with
                  | ([], _) => None
                  | (ds, rest) => Some (c :: esign ++ ds, rest)
                  end
                else Some ([], t)
            | [] => Some ([], t)
            end in
          match exp with
          | None => None
          | Some (exp, rest) => Some (sign ++ int ++ frac ++ exp, rest)
          end
      end
  end.

(** [parse_value] reads one value and returns the text after it;
    [parse_elements] reads the elements of an array after its opening
    bracket, [parse_members] the members of an object after its opening
    brace.  The fuel bounds the number of nested calls. *)
Fixpoint parse_value (fuel : nat) (t : jsstring) : option (value * jsstring) :=
  match fuel with
  | O => None
  | S fuel =>
      match skip_ws t with
      | [] => None
      | c :: t' =>
          if c =? ch "{" then
            match skip_ws t' with
            | [] => None
            | c' :: t'' =>
                if c' =? ch "}" then Some (VObj [], t'')
                else
                  match parse_members fuel t' with
                  | Some (ms, rest) => Some (VObj (obj_of_members ms), rest)
                  | None => None
                  end
            end
          else if c =? ch "[" then
            match skip_ws t' with
            | [] => None
            | c' :: t'' =>
                if c' =? ch "]" then Some (VArr [], t'')
                else
                  match parse_elements fuel t' with
                  | Some (vs, rest) => Some (VArr vs, rest)
                  | None => None
                  end
            end
          else if c =? dquote then
            match parse_chars t' with
            | Some (s, rest) => Some (VStr s, rest)
            | None => None
            end
          else if startsWith (c :: t') (js "true") then Some (VBool true, drop 4 (c :: t'))
          else if startsWith (c :: t') (js "false") then Some (VBool false, drop 5 (c :: t'))
          else if startsWith (c :: t') (js "null") then Some (VNull, drop 4 (c :: t'))
          else
            match parse_number (c :: t') with
            | Some (lit, rest) => Some (VNum lit, rest)
            | None => None
            end
      end
  end
with parse_elements (fuel : nat) (t : jsstring) : option (list value * jsstring) :=
  match fuel with
  | O => None
  | S fuel =>
      match parse_value fuel t with
      | None => None
      | Some (v, t1) =>
          match skip_ws t1 with
          | [] => None
          | c :: t2 =>
              if c =? ch "," then
                match parse_elements fuel t2 with
                | Some (vs, rest) => Some (v :: vs, rest)
                | None => None
                end
              else if c =? ch "]" then Some ([v], t2)
              else None
          end
      end
  end
with parse_members (fuel : nat) (t : jsstring) : option (list (jsstring * value) * jsstring) :=
  match fuel with
  | O => None
  | S fuel =>
      match skip_ws t with
      | [] => None
      | q :: t1 =>
          if q =? dquote then
            match parse_chars t1 with
            | None => None
            | Some (k, t2) =>
                match skip_ws t2 with
                | [] => None
                | c :: t3 =>
                    if c =? ch ":" then
                      match parse_value fuel t3 with
                      | None => None
                      | Some (v, t4) =>
                          match skip_ws t4 with
                          | [] => None
                          | d :: t5 =>
                              if d =? ch "," then
                                match parse_members fuel t5 with
                                | Some (ms, rest) => Some ((k, v) :: ms, rest)
                                | None => None
                                end
                              else if d =? ch "}" then Some ([(k, v)], t5)
                              else None
                          end
                      end
                    else None
                end
            end
          else None
      end
  end.

(** [JSON.parse(text)]; [None] stands for the SyntaxError it throws.  The
    fuel is enough for every text: what some fuel reads, this fuel reads
    ([parse_fuel]). *)
Definition parse (t : jsstring) : option value :=
  match parse_value (2 * length t + 1) t with
  | Some (v, rest) =>
      match skip_ws rest with
      | [] => Some v
      | _ :: _ => None
      end
  | None => None
  end.

(** *** [JSON.stringify] *)

Definition is_high_surrogate (c : N) : bool := (0xD800 <=? c) && (c <=? 0xDBFF).
Definition is_low_surrogate (c : N) : bool := (0xDC00 <=? c) && (c <=? 0xDFFF).

Definition hex_digit (d : N) : N :=
  if d <? 10 then ch "0" + d else ch "a" + (d - 10).

(** UnicodeEscape: a backslash, u and four lower-case hexadecimal digits *)
Definition unicode_escape (c : N) : jsstring :=
  [ch "\"; ch "u"; hex_digit (c / 4096 mod 16); hex_digit (c / 256 mod 16);
   hex_digit (c / 16 mod 16); hex_digit (c mod 16)].

(** One code unit inside QuoteJSONString, surrogate pairs apart *)
Definition quote_char (c : N) : jsstring :=
  if c =? 0x08 then js "\b"
  else if c =? 0x09 then js "\t"
  else if c =? 0x0A then js "\n"
  else if c =? 0x0C then js "\f"
  else if c =? 0x0D then js "\r"
  else if c =? dquote then [ch "\"; dquote]
  else if c =? ch "\" then js "\\"
  else if (c <? 0x20) || is_high_surrogate c || is_low_surrogate c then unicode_escape c
  else [c].

(** A high surrogate followed by a low one is a code point and is written
    as it is; a surrogate on its own is escaped. *)
Fixpoint quote_chars (s : jsstring) : jsstring :=
  match s with
  | [] => []
  | c :: s' =>
      if is_high_surrogate c then
        match s' with
        | d :: s'' =>
            if is_low_surrogate d then c :: d :: quote_chars s''
            else unicode_escape c ++ quote_chars s'
        | [] => unicode_escape c
        end
      else quote_char c ++ quote_chars s'
  end.

Definition quote (s : jsstring) : jsstring :=
  dquote :: quote_chars s ++ [dquote].

Fixpoint join (sep : jsstring) (parts : list jsstring) : jsstring :=
  match parts with
  | [] => []
  | [p] => p
  | p :: parts' => p ++ sep ++ join sep parts'
  end.

Definition newline : jsstring := [0x0A].

(** The gap of [JSON.stringify(_, null, 2)] *)
Definition gap : jsstring := [0x20; 0x20].

Definition wrap (opening closing : N) (stepback indent : jsstring)
    (partial : list jsstring) : jsstring :=
  match partial with
  | [] => [opening; closing]
  | _ :: _ =>
      opening :: newline ++ indent
        ++ join (ch "," :: newline ++ indent) partial
        ++ newline ++ stepback ++ [closing]
  end.

(** The members of an object as SerializeJSONObject writes them, given the
    text [str] of each value: a property whose value has none is left out. *)
Definition member_texts (str : value -> option jsstring)
    : list (jsstring * value) -> list jsstring :=
  fix members ps :=
    match ps with
    | [] => []
    | (k, e) :: ps' =>
        match str e with
        | Some strP => (quote k ++ ch ":" :: 0x20 :: strP) :: members ps'
        | None => members ps'
        end
    end.

(** SerializeJSONProperty with the gap above; [None] is the undefined it
    returns for undefined.  Inside an array undefined is written as null. *)
Fixpoint stringify_value (indent : jsstring) (v : value) : option jsstring :=
  match v with
  | VUndefined => None
  | VNull => Some (js "null")
  | VBool true => Some (js "true")
  | VBool false => Some (js "false")
  | VNum literal => Some literal
  | VStr s => Some (quote s)
  | VArr elements =>
      let stepback := indent in
      let indent := indent ++ gap in
      let partial :=
        map (fun e => default (js "null") (stringify_value indent e)) elements in
      Some (wrap (ch "[") (ch "]") stepback indent partial)
  | VObj props =>
      let stepback := indent in
      let indent := indent ++ gap in
      let partial := member_texts (stringify_value indent) props in
      Some (wrap (ch "{") (ch "}") stepback indent partial)
  end.

(** [JSON.stringify(v, null, 2)] *)
Definition stringify (v : value) : option jsstring := stringify_value [] v.

(** *** The values that survive a round trip

    Null, booleans, strings, and arrays and objects of such values, where
    the keys of an object are distinct and none is an array index (these
    would be moved to the front).  Undefined is lost by [stringify], and a
    number may come back as another literal of the same number. *)
Definition own_order (keys : list jsstring) : bool :=
  bool_decide (NoDup keys) && forallb (fun k => bool_decide (array_index k = None)) keys.

Fixpoint plain (v : value) : bool :=
  match v with
  | VUndefined | VNum _ => false
  | VNull | VBool _ | VStr _ => true
  | VArr elements => forallb plain elements
  | VObj props => forallb (fun kv => plain kv.2) props && own_order (map fst props)
  end.

Definition all_ws (t : jsstring) : Prop := Forall (fun c => is_ws c = true) t.

(** The text of [v] at any indentation, after any white space and before
    any text, is read back as [v], given enough fuel. *)
Definition reads_back (v : value) : Prop :=
  forall indent txt,
    all_ws indent -> stringify_value indent v = Some txt ->
    forall fuel ws rest,
      all_ws ws -> (2 * length txt <= fuel)%nat ->
      parse_value fuel (ws ++ txt ++ rest) = Some (v, rest).

(** Well-formed UTF-16: every surrogate is half of a pair. *)
Fixpoint well_formed (t : jsstring) : bool :=
  match t with
  | [] => true
  | c :: t' =>
      if is_high_surrogate c then
        match t' with
        | d :: t'' => is_low_surrogate d && well_formed t''
        | [] => false
        end
      else negb (is_low_surrogate c) && well_formed t'
  end.

(** With fuel [n] the three readers give what they give with any fuel
    that is at least twice the length of the text (and one more for the
    readers of elements and members), and they consume some text. *)
Definition fuel_enough (n : nat) : Prop :=
  (forall t v rest,
      parse_value n t = Some (v, rest) ->
      (length rest < length t)%nat
      /\ forall fuel, (2 * length t <= fuel)%nat -> parse_value fuel t = Some (v, rest))
  /\ (forall t vs rest,
        parse_elements n t = Some (vs, rest) ->
        (length rest < length t)%nat
        /\ forall fuel, (2 * length t + 1 <= fuel)%nat ->
                        parse_elements fuel t = Some (vs, rest))
  /\ (forall t ms rest,
        parse_members n t = Some (ms, rest) ->
        (length rest < length t)%nat
        /\ forall fuel, (2 * length t + 1 <= fuel)%nat ->
                        parse_members fuel t = Some (ms, rest)).

End JSON.

Export JSON.

(** ** The run-time: exceptions, the world, the monad of the handlers *)

Module Runtime.

(** What the Telegram API answers when it rejects a request:
    [error.message], [error.response?.body?.error_code] and
    [error.response?.body?.description]. *)
Record request_error := {
  err_message : jsstring;
  error_code : option Z;
  description : option jsstring
}.

(** What a handler can throw.  [Unsupported] marks a run that leaves the
    part of JavaScript this development follows (a list whose [items] is neither
    an array nor missing, a property of a primitive or of an array, or a
    coercion of a number, an array or an object to a string or a boolean). *)
Inductive error :=
| TypeError (message : jsstring)
| SyntaxError (message : jsstring)
| FsError (message : jsstring)
| RequestError (e : request_error)
| Unsupported (what : string).

(** [error.message]; the texts of the engine's own errors are representative. *)
Definition error_message (e : error) : jsstring :=
  match e with
  | TypeError m | SyntaxError m | FsError m => m
  | RequestError e => err_message e
  | Unsupported _ => []
  end.

Inductive outcome (A : Type) :=
| Return (a : A)
| Throw (e : error).
Arguments Return {A} a.
Arguments Throw {A} e.

(** *** Telegram messages and API requests *)

Record button := { text : jsstring; callback_data : jsstring }.

(** [inline_keyboard]: rows of buttons *)
Abbreviation keyboard := (list (list button)).

Record send_options := {
  parse_mode : option jsstring;
  reply_markup : option keyboard
}.

Definition no_options : send_options :=
  {| parse_mode := None; reply_markup := None |}.

Record answer_options := {
  answer_text : option jsstring;
  show_alert : bool
}.

Inductive api_call :=
| sendMessage (chatId : Z) (text : jsstring) (options : send_options)
| answerCallbackQuery (queryId : jsstring) (options : answer_options)
| editMessageText (text : jsstring) (chat_id message_id : Z)
    (reply_markup : keyboard) (parse_mode : jsstring).

(** An incoming message: [msg.chat.id] and [msg.text], which is undefined
    for a message without text. *)
Record Message := { msg_chat : Z; msg_text : option jsstring }.

(** A button press: [query.id], [query.message.chat.id],
    [query.message.message_id] and [query.data]. *)
Record CallbackQuery := {
  query_id : jsstring;
  query_chat : Z;
  query_message_id : Z;
  data : jsstring
}.

Inductive update :=
| message (msg : Message)
| callback_query (query : CallbackQuery).

(** *** The conversation state of a chat *)

Inductive phase := awaiting_name | awaiting_quantity.

(** An entry of [addItemStates]: [state.state], [state.category] and
    [state.name]; [None] is undefined. *)
Record add_state := {
  state : phase;
  st_category : option jsstring;
  st_name : option jsstring
}.

(** *** The world *)

Record World := {
  (** the text of shopping-list.json, as a read with the 'utf8' encoding
      yields it; [None] when [fs.readFile] rejects.  ([JSON.stringify]
      writes no surrogate on its own, see [stringify_well_formed], so the
      UTF-8 form of what is saved decodes to the text that was written.) *)
  file : option jsstring;
  (** whether [fs.writeFile] succeeds *)
  writable : bool;
  (** the [Map] from chat id to conversation state *)
  addItemStates : gmap Z add_state;
  (** what the Telegram API answers to the coming requests, in order;
      [None], and every request past the end of the list, is accepted *)
  transport : list (option request_error);
  (** the requests made to the Telegram API so far, oldest first *)
  requests : list api_call;
  (** the lines given to [logger.error], oldest first *)
  log : list jsstring;
  (** the errors of rejected handler promises, which nothing awaits *)
  unhandled : list error
}.

Definition set_file (f : option jsstring) (w : World) : World :=
  {| file := f; writable := writable w; addItemStates := addItemStates w;
     transport := transport w; requests := requests w; log := log w;
     unhandled := unhandled w |}.

Definition set_addItemStates (m : gmap Z add_state) (w : World) : World :=
  {| file := file w; writable := writable w; addItemStates := m;
     transport := transport w; requests := requests w; log := log w;
     unhandled := unhandled w |}.

Definition set_transport (t : list (option request_error)) (w : World) : World :=
  {| file := file w; writable := writable w; addItemStates := addItemStates w;
     transport := t; requests := requests w; log := log w;
     unhandled := unhandled w |}.

Definition set_requests (r : list api_call) (w : World) : World :=
  {| file := file w; writable := writable w; addItemStates := addItemStates w;
     transport := transport w; requests := r; log := log w;
     unhandled := unhandled w |}.

Definition set_log (l : list jsstring) (w : World) : World :=
  {| file := file w; writable := writable w; addItemStates := addItemStates w;
     transport := transport w; requests := requests w; log := l;
     unhandled := unhandled w |}.

Definition set_unhandled (u : list error) (w : World) : World :=
  {| file := file w; writable := writable w; addItemStates := addItemStates w;
     transport := transport w; requests := requests w; log := log w;
     unhandled := u |}.

(** *** The monad: state passing over the world, with exceptions *)

Definition M (A : Type) : Type := World -> outcome A * World.

Definition ret {A} (a : A) : M A := fun w => (Return a, w).

Definition throw {A} (e : error) : M A := fun w => (Throw e, w).

Definition bind {A B} (c : M A) (k : A -> M B) : M B :=
  fun w =>
    match c w with
    | (Return a, w') => k a w'
    | (Throw e, w') => (Throw e, w')
    end.

(** [try { c } catch (error) { handler }] *)
Definition try_catch {A} (c : M A) (handler : error -> M A) : M A :=
  fun w =>
    match c w with
    | (Return a, w') => (Return a, w')
    | (Throw e, w') => handler e w'
    end.

(** A pure computation that may throw *)
Definition lift {A} (o : outcome A) : M A := fun w => (o, w).

End Runtime.

Export Runtime.

Declare Scope M_scope.
Delimit Scope M_scope with M.
Bind Scope M_scope with M.

Notation "x <- c ;; k" := (bind c (fun x => k))
  (at level 100, c at next level, k at level 200, right associativity) : M_scope.
Notation "c ;; k" := (bind c (fun _ => k))
  (at level 100, k at level 200, right associativity) : M_scope.
Notation "'try' c 'catch' x => h" := (try_catch c (fun x => h))
  (at level 100, c at level 200, x name, h at level 200) : M_scope.

Local Open Scope M_scope.

Declare Scope outcome_scope.
Delimit Scope outcome_scope with O.

Definition obind {A B} (o : outcome A) (k : A -> outcome B) : outcome B :=
  match o with
  | Return a => k a
  | Throw e => Throw e
  end.

Notation "x <- c ;; k" := (obind c (fun x => k))
  (at level 100, c at next level, k at level 200, right associativity) : outcome_scope.

(** ** Values as the handlers use them *)

Module Coerce.

(** [v.k] *)
Definition get_prop (v : value) (k : jsstring) : outcome value :=
  match v with
  | VObj props => Return (obj_get k props)
  | VUndefined => Throw (TypeError (js "Cannot read properties of undefined"))
  | VNull => Throw (TypeError (js "Cannot read properties of null"))
  | _ => Throw (Unsupported "property of a primitive or an array")
  end.

(** [v.k = x], which changes the object that [v] is *)
Definition set_prop (v : value) (k : jsstring) (x : value) : outcome value :=
  match v with
  | VObj props => Return (VObj (obj_set k x props))
  | VUndefined => Throw (TypeError (js "Cannot set properties of undefined"))
  | VNull => Throw (TypeError (js "Cannot set properties of null"))
  | _ => Throw (Unsupported "property of a primitive or an array")
  end.

(** ToBoolean *)
Definition to_boolean (v : value) : outcome bool :=
  match v with
  | VUndefined | VNull => Return false
  | VBool b => Return b
  | VStr s => Return (negb (length s =? 0)%nat)
  | VArr _ | VObj _ => Return true
  | VNum _ => Throw (Unsupported "truth value of a number")
  end.

(** ToString, as a template literal applies it *)
Definition to_string (v : value) : outcome jsstring :=
  match v with
  | VUndefined => Return (js "undefined")
  | VNull => Return (js "null")
  | VBool true => Return (js "true")
  | VBool false => Return (js "false")
  | VStr s => Return s
  | VNum _ | VArr _ | VObj _ =>
      Throw (Unsupported "string of a number, an array or an object")
  end.

(** An optional string as a value: [None] is undefined *)
Definition of_option (o : option jsstring) : value :=
  match o with
  | Some s => VStr s
  | None => VUndefined
  end.

(** [items[index]] *)
Definition array_get (index : number) (items : list value) : value :=
  match index with
  | Int z => if (0 <=? z)%Z then default VUndefined (items !! Z.to_nat z) else VUndefined
  | NaN => VUndefined
  end.

(** [items.splice(start, 1)]: the array afterwards.  ToIntegerOrInfinity
    takes NaN to 0; a negative start counts from the end. *)
Definition splice1 (start : number) (items : list value) : list value :=
  let len := Z.of_nat (length items) in
  let relativeStart := match start with Int z => z | NaN => 0%Z end in
  let actualStart :=
    if (relativeStart <? 0)%Z then Z.max (len + relativeStart) 0
    else Z.min relativeStart len in
  delete (Z.to_nat actualStart) items.

(** [items.length] *)
Definition array_length (items : list value) : number :=
  Int (Z.of_nat (length items)).

End Coerce.

Export Coerce.

(** ** src/index.js *)

Definition nl : jsstring := [0x0A].

Definition lines (ls : list jsstring) : jsstring := join nl ls.

(** The glyphs of the source text, as UTF-16 *)
Definition glyph_checked : jsstring := [0x2705].
Definition glyph_unchecked : jsstring := [0x2B1C].
Definition glyph_cart : jsstring := [0xD83D; 0xDED2].
Definition glyph_memo : jsstring := [0xD83D; 0xDCDD].
Definition glyph_pencil : jsstring := [0x270F; 0xFE0F].
Definition glyph_bin : jsstring := [0xD83D; 0xDDD1; 0xFE0F].

(** [const categories] *)
Definition categories : list (jsstring * jsstring) :=
  [ (js "proteins", [0xD83E; 0xDD69]);
    (js "healthy_carbs", [0xD83C; 0xDF5A]);
    (js "vitamins", [0xD83D; 0xDC8A]);
    (js "healthy_fats", [0xD83E; 0xDD51]);
    (js "meal_prep", [0xD83C; 0xDF71]);
    (js "fruits", [0xD83C; 0xDF4E]);
    (js "vegetables", [0xD83E; 0xDD66]);
    (js "other", [0xD83D; 0xDCE6]);
    (js "ikea", [0xD83C; 0xDDF8; 0xD83C; 0xDDEA]) ].

(** [`${categories[key]}`]: the glyph, or the text of undefined.  (The
    members that [categories] inherits from Object.prototype are left out:
    a key such as toString is taken as absent.) *)
Definition glyph_of (key : jsstring) : jsstring :=
  match find (fun kv => str_eqb kv.1 key) categories with
  | Some kv => kv.2
  | None => js "undefined"
  end.

(** [`${categories[v]}`] for a value [v] used as the key *)
Definition category_glyph (v : value) : outcome jsstring :=
  (key <- to_string v ;; Return (glyph_of key))%O.

(** *** The run-time services the file calls *)

Definition logger_error (line : jsstring) : M unit :=
  fun w => (Return tt, set_log (log w ++ [line]) w).

(** [fs.readFile('shopping-list.json', 'utf8')] *)
Definition fs_readFile : M jsstring :=
  fun w =>
    match file w with
    | Some data => (Return data, w)
    | None => (Throw (FsError (js "ENOENT: no such file or directory")), w)
    end.

(** [fs.writeFile('shopping-list.json', data)]; a write that fails leaves
    the file as it was. *)
Definition fs_writeFile (data : jsstring) : M unit :=
  fun w =>
    if writable w then (Return tt, set_file (Some data) w)
    else (Throw (FsError (js "EACCES: permission denied")), w).

(** A request to the Telegram API: it is recorded, and the transport's next
    answer decides whether the promise resolves or rejects. *)
Definition request (c : api_call) : M unit :=
  fun w =>
    let w' := set_transport (tail (transport w)) (set_requests (requests w ++ [c]) w) in
    match transport w with
    | Some e :: _ => (Throw (RequestError e), w')
    | _ => (Return tt, w')
    end.

(** [bot.sendMessage]; it resolves to the message sent. *)
Definition bot_sendMessage (chatId : Z) (text : jsstring) (options : send_options)
    : M Message :=
  request (sendMessage chatId text options) ;;
  ret {| msg_chat := chatId; msg_text := Some text |}.

Definition bot_answerCallbackQuery (queryId : jsstring) (options : answer_options)
    : M unit :=
  request (answerCallbackQuery queryId options).

Definition bot_editMessageText (text : jsstring) (chat_id message_id : Z)
    (reply_markup : keyboard) (parse_mode : jsstring) : M unit :=
  request (editMessageText text chat_id message_id reply_markup parse_mode).

Definition no_answer : answer_options :=
  {| answer_text := None; show_alert := false |}.

(** [addItemStates.get], [.set] and [.delete] *)
Definition addItemStates_get (chatId : Z) : M (option add_state) :=
  fun w => (Return (addItemStates w !! chatId), w).

Definition addItemStates_set (chatId : Z) (st : add_state) : M unit :=
  fun w => (Return tt, set_addItemStates (<[chatId := st]> (addItemStates w)) w).

Definition addItemStates_delete (chatId : Z) : M unit :=
  fun w => (Return tt, set_addItemStates (delete chatId (addItemStates w)) w).

(** *** The item store *)

Definition empty_list : value := VObj [(js "items", VArr [])].

(** [JSON.parse(data)] inside an async function *)
Definition JSON_parse (data : jsstring) : M value :=
  match JSON.parse data with
  | Some v => ret v
  | None => throw (SyntaxError (js "Unexpected token in JSON"))
  end.

Definition loadShoppingList : M value :=
  try
    data <- fs_readFile ;;
    JSON_parse data
  catch error =>
    logger_error (js "Error loading shopping list: " ++ error_message error) ;;
    ret empty_list.

Definition saveShoppingList (items : value) : M unit :=
  try
    match JSON.stringify (VObj [(js "items", items)]) with
    | Some data => fs_writeFile data
    | None => throw (TypeError (js "The data argument must be of type string"))
    end
  catch error =>
    logger_error (js "Error saving shopping list: " ++ error_message error).

(** [shoppingList.items] where the handlers use it as an array.  Null has
    no properties; a primitive or an array has no [items], and neither has
    an object without the key, so that the use of [undefined] as an array
    fails.  An [items] of another kind is not followed. *)
Definition get_items (shoppingList : value) : M (list value) :=
  match shoppingList with
  | VObj props =>
      match obj_get (js "items") props with
      | VArr items => ret items
      | VUndefined => throw (TypeError (js "Cannot read properties of undefined"))
      | VNull => throw (TypeError (js "Cannot read properties of null"))
      | _ => throw (Unsupported "items is not an array")
      end
  | VNull => throw (TypeError (js "Cannot read properties of null"))
  | _ => throw (TypeError (js "Cannot read properties of undefined"))
  end.

(** *** safeSendMessage *)

(** [error.response?.body?.error_code === 400 &&
     error.response?.body?.description?.includes("can't parse entities")] *)
Definition is_parse_error (error : error) : bool :=
  match error with
  | RequestError e =>
      match error_code e, description e with
      | Some code, Some d => (code =? 400)%Z && includes d (js "can't parse entities")
      | _, _ => false
      end
  | _ => false
  end.

Definition safeSendMessage (chatId : Z) (message : jsstring) (options : send_options)
    : M (option Message) :=
  try
    sent <- bot_sendMessage chatId message options ;;
    ret (Some sent)
  catch error =>
    logger_error (js "Failed to send message: " ++ error_message error) ;;
    if is_parse_error error then
      try
        let strippedMessage := strip_markdown message in
        sent <- bot_sendMessage chatId strippedMessage no_options ;;
        ret (Some sent)
      catch retryError =>
        logger_error (js "Failed to send stripped message: " ++ error_message retryError) ;;
        sent <- bot_sendMessage chatId
                  (js "Sorry, there was an error displaying this message.") no_options ;;
        ret (Some sent)
    else
      try
        sent <- bot_sendMessage chatId
                  (js "Sorry, there was an error processing your request.") no_options ;;
        ret (Some sent)
      catch finalError =>
        logger_error (js "Failed to send error message: " ++ error_message finalError) ;;
        ret None.

(** *** The command handlers *)

Definition markdown : send_options :=
  {| parse_mode := Some (js "Markdown"); reply_markup := None |}.

Definition with_keyboard (k : keyboard) : send_options :=
  {| parse_mode := None; reply_markup := Some k |}.

Definition welcomeMessage : jsstring :=
  lines [ [];
          glyph_cart ++ js " *Welcome to GroceryBot!*";
          [];
          js "Available commands:";
          js "/list - View and check items in shopping list";
          js "/add - Add items to list";
          js "/remove - Remove items";
          js "/clear - Clear entire list";
          js "/categories - View categories";
          [];
          js "Use /help for more information.";
          [] ].

(** [bot.onText(/\/start/, ...)] *)
Definition on_start (msg : Message) : M unit :=
  let chatId := msg_chat msg in
  safeSendMessage chatId welcomeMessage markdown ;;
  ret tt.

Definition helpMessage : jsstring :=
  lines [ [];
          glyph_cart ++ js " *GroceryBot Help*";
          [];
          js "Commands:";
          js "/list - View and check items in your shopping list";
          js "/add - Add items to your list";
          js "/remove - Remove items from your list";
          js "/clear - Clear your entire list";
          js "/categories - View available categories";
          [];
          js "*Adding Items:*";
          js "Use /add and follow the prompts to add items.";
          js "Format: item name, quantity, category";
          [];
          js "*Categories:*";
          join nl (map (fun '(cat, emoji) => emoji ++ js " " ++ cat) categories);
          [] ].

(** [bot.onText(/\/help/, ...)] *)
Definition on_help (msg : Message) : M unit :=
  let chatId := msg_chat msg in
  safeSendMessage chatId helpMessage markdown ;;
  ret tt.

(** [bot.onText(/\/categories/, ...)] *)
Definition on_categories (msg : Message) : M unit :=
  let chatId := msg_chat msg in
  let categoriesList :=
    join nl (map (fun '(cat, emoji) => emoji ++ js " *" ++ cat ++ js "*") categories) in
  safeSendMessage chatId
    (js "*Available Categories:*" ++ nl ++ nl ++ categoriesList) markdown ;;
  ret tt.

(** [items.map(item => [button item])], where the button of an item may
    throw; [i] is the position of the first item, which
    [shoppingList.items.indexOf(item)] yields for an object. *)
Fixpoint keyboard_of (row : nat -> value -> outcome button) (i : nat)
    (items : list value) : outcome keyboard :=
  match items with
  | [] => Return []
  | item :: items' =>
      (b <- row i item ;;
       rest <- keyboard_of row (S i) items' ;;
       Return ([b] :: rest))%O
  end.

(** [`${item.checked ? '✅' : '⬜'} ${categories[item.category]} ${item.name} (${item.quantity})`]
    with [`toggle_${index}`] *)
Definition toggle_button (index : nat) (item : value) : outcome button :=
  (checked <- get_prop item (js "checked") ;;
   checked <- to_boolean checked ;;
   category <- get_prop item (js "category") ;;
   glyph <- category_glyph category ;;
   name <- get_prop item (js "name") ;;
   name <- to_string name ;;
   quantity <- get_prop item (js "quantity") ;;
   quantity <- to_string quantity ;;
   Return {| text := (if checked then glyph_checked else glyph_unchecked)
                       ++ js " " ++ glyph ++ js " " ++ name
                       ++ js " (" ++ quantity ++ js ")";
             callback_data := js "toggle_" ++ nat_to_string index |})%O.

(** [`${categories[item.category]} ${item.name} (${item.quantity})`]
    with [`remove_${index}`] *)
Definition remove_button (index : nat) (item : value) : outcome button :=
  (category <- get_prop item (js "category") ;;
   glyph <- category_glyph category ;;
   name <- get_prop item (js "name") ;;
   name <- to_string name ;;
   quantity <- get_prop item (js "quantity") ;;
   quantity <- to_string quantity ;;
   Return {| text := glyph ++ js " " ++ name ++ js " (" ++ quantity ++ js ")";
             callback_data := js "remove_" ++ nat_to_string index |})%O.

(** [bot.onText(/\/list/, ...)] *)
Definition on_list (msg : Message) : M unit :=
  let chatId := msg_chat msg in
  shoppingList <- loadShoppingList ;;
  items <- get_items shoppingList ;;
  if (length items =? 0)%nat then
    safeSendMessage chatId (glyph_memo ++ js " Your shopping list is empty.") no_options ;;
    ret tt
  else
    let message :=
      glyph_cart ++ js " Shopping List" ++ nl
        ++ js "Tap items to check/uncheck them:" ++ nl in
    keyboard <- lift (keyboard_of toggle_button 0 items) ;;
    try
      bot_sendMessage chatId message (with_keyboard keyboard) ;;
      ret tt
    catch error =>
      logger_error (js "Error displaying shopping list: " ++ error_message error) ;;
      safeSendMessage chatId
        (js "Sorry, there was an error displaying your shopping list. Please try again.")
        no_options ;;
      ret tt.

(** [bot.onText(/\/add/, ...)] *)
Definition on_add (msg : Message) : M unit :=
  let chatId := msg_chat msg in
  addItemStates_set chatId
    {| state := awaiting_name; st_category := None; st_name := None |} ;;
  let keyboard :=
    map (fun '(cat, emoji) =>
           [ {| text := emoji ++ js " " ++ cat;
                callback_data := js "category_" ++ cat |} ]) categories in
  bot_sendMessage chatId (js "Select a category for the new item:")
    (with_keyboard keyboard) ;;
  ret tt.

(** The first [bot.on('callback_query', ...)]: category selection *)
Definition on_category (query : CallbackQuery) : M unit :=
  let chatId := query_chat query in
  let data := data query in
  if startsWith data (js "category_") then
    let category := replace data (js "category_") [] in
    addItemStates_set chatId
      {| state := awaiting_name; st_category := Some category; st_name := None |} ;;
    bot_sendMessage chatId (js "Enter the item name:") no_options ;;
    bot_answerCallbackQuery (query_id query) no_answer
  else ret tt.

(** The text of an optional string in a template literal *)
Definition template (o : option jsstring) : jsstring :=
  match o with
  | Some s => s
  | None => js "undefined"
  end.

(** [state.category] as a condition: a string that is not empty *)
Definition truthy (o : option jsstring) : bool :=
  match o with
  | Some (_ :: _) => true
  | _ => false
  end.

Definition is_command_text (text : option jsstring) : bool :=
  match text with
  | Some t => startsWith t (js "/")
  | None => false
  end.

(** [bot.on('message', ...)]: item name and quantity.  The state object is
    only reachable through the map, so its update in place is the update
    of the entry. *)
Definition on_message (msg : Message) : M unit :=
  let chatId := msg_chat msg in
  entry <- addItemStates_get chatId ;;
  match entry with
  | None => ret tt
  | Some st =>
      if is_command_text (msg_text msg) then ret tt
      else
        match state st with
        | awaiting_name =>
            if truthy (st_category st) then
              addItemStates_set chatId
                {| state := awaiting_quantity;
                   st_category := st_category st;
                   st_name := msg_text msg |} ;;
              bot_sendMessage chatId (js "Enter the quantity:") no_options ;;
              ret tt
            else ret tt
        | awaiting_quantity =>
            shoppingList <- loadShoppingList ;;
            items <- get_items shoppingList ;;
            let items :=
              items ++ [ VObj [ (js "name", of_option (st_name st));
                                (js "quantity", of_option (msg_text msg));
                                (js "category", of_option (st_category st));
                                (js "checked", VBool false) ] ] in
            saveShoppingList (VArr items) ;;
            bot_sendMessage chatId
              (glyph_checked ++ js " Added to your list:" ++ nl
                 ++ glyph_of (template (st_category st)) ++ js " "
                 ++ template (st_name st)
                 ++ js " (" ++ template (msg_text msg) ++ js ")")
              no_options ;;
            addItemStates_delete chatId
        end
  end.

(** [bot.onText(/\/remove/, ...)] *)
Definition on_remove (msg : Message) : M unit :=
  let chatId := msg_chat msg in
  shoppingList <- loadShoppingList ;;
  items <- get_items shoppingList ;;
  if (length items =? 0)%nat then
    bot_sendMessage chatId (glyph_memo ++ js " Your shopping list is empty.") no_options ;;
    ret tt
  else
    keyboard <- lift (keyboard_of remove_button 0 items) ;;
    bot_sendMessage chatId (js "Select an item to remove:") (with_keyboard keyboard) ;;
    ret tt.

Definition stale_alert : answer_options :=
  {| answer_text := Some (js "This item no longer exists in the list");
     show_alert := true |}.

(** The [remove_] branch of the second [bot.on('callback_query', ...)].
    The condition [index < 0 || index >= shoppingList.items.length] reads
    [shoppingList.items] only when its first half is false. *)
Definition remove_action (query : CallbackQuery) : M unit :=
  let chatId := query_chat query in
  let index := parseInt (replace (data query) (js "remove_") []) in
  shoppingList <- loadShoppingList ;;
  if num_lt index (Int 0) then
    bot_answerCallbackQuery (query_id query) stale_alert
  else
    items <- get_items shoppingList ;;
    if num_ge index (array_length items) then
      bot_answerCallbackQuery (query_id query) stale_alert
    else
    let removedItem := array_get index items in
    let items := splice1 index items in
    saveShoppingList (VArr items) ;;
    category <- lift (get_prop removedItem (js "category")) ;;
    glyph <- lift (category_glyph category) ;;
    name <- lift (get_prop removedItem (js "name")) ;;
    name <- lift (to_string name) ;;
    bot_sendMessage chatId
      (glyph_checked ++ js " Removed from your list:" ++ nl ++ glyph ++ js " " ++ name)
      no_options ;;
    bot_answerCallbackQuery (query_id query) no_answer.

(** [items[index].checked = !items[index].checked]: the array afterwards *)
Definition toggle_checked (index : number) (items : list value) : outcome (list value) :=
  (let item := array_get index items in
   checked <- get_prop item (js "checked") ;;
   checked <- to_boolean checked ;;
   item <- set_prop item (js "checked") (VBool (negb checked)) ;;
   Return match index with
          | Int z => <[Z.to_nat z := item]> items
          | NaN => items
          end)%O.

(** The [toggle_] branch *)
Definition toggle_action (query : CallbackQuery) : M unit :=
  let chatId := query_chat query in
  let messageId := query_message_id query in
  let index := parseInt (replace (data query) (js "toggle_") []) in
  shoppingList <- loadShoppingList ;;
  if num_lt index (Int 0) then
    bot_answerCallbackQuery (query_id query) stale_alert
  else
    items <- get_items shoppingList ;;
    if num_ge index (array_length items) then
      bot_answerCallbackQuery (query_id query) stale_alert
    else
    items <- lift (toggle_checked index items) ;;
    saveShoppingList (VArr items) ;;
    keyboard <- lift (keyboard_of toggle_button 0 items) ;;
    bot_editMessageText
      (glyph_pencil ++ js " *Shopping List Checkoff*" ++ nl
         ++ js "Tap items to check/uncheck them:" ++ nl)
      chatId messageId keyboard (js "Markdown") ;;
    let item := array_get index items in
    name <- lift (get_prop item (js "name")) ;;
    name <- lift (to_string name) ;;
    checked <- lift (get_prop item (js "checked")) ;;
    checked <- lift (to_boolean checked) ;;
    bot_answerCallbackQuery (query_id query)
      {| answer_text :=
           Some (name ++ js " "
                   ++ (if checked then js "checked " ++ glyph_checked
                       else js "unchecked " ++ glyph_unchecked));
         show_alert := false |}.

(** The second [bot.on('callback_query', ...)]: item actions *)
Definition on_item_action (query : CallbackQuery) : M unit :=
  let data := data query in
  if startsWith data (js "remove_") then remove_action query
  else if startsWith data (js "toggle_") then toggle_action query
  else ret tt.

(** [bot.onText(/\/clear/, ...)] *)
Definition on_clear (msg : Message) : M unit :=
  let chatId := msg_chat msg in
  saveShoppingList (VArr []) ;;
  bot_sendMessage chatId (glyph_bin ++ js " Your shopping list has been cleared.")
    no_options ;;
  ret tt.

(** *** Dispatch, as node-telegram-bot-api does it

    A message goes to the ['message'] listener and then to every [onText]
    callback whose expression matches its text, in the order of
    registration; a button press goes to the two ['callback_query']
    listeners in turn.  Each handler is run to its end before the next one
    starts, and a handler that throws leaves a rejected promise behind. *)

Definition run_handler (h : M unit) (w : World) : World :=
  match h w with
  | (Return _, w') => w'
  | (Throw e, w') => set_unhandled (unhandled w' ++ [e]) w'
  end.

(** The [onText] registrations, in source order *)
Definition commands : list (jsstring * (Message -> M unit)) :=
  [ (js "/start", on_start);
    (js "/help", on_help);
    (js "/categories", on_categories);
    (js "/list", on_list);
    (js "/add", on_add);
    (js "/remove", on_remove);
    (js "/clear", on_clear) ].

Definition run_commands (msg : Message) (w : World) : World :=
  match msg_text msg with
  | Some text =>
      fold_left (fun w '(pattern, handler) =>
                   if includes text pattern then run_handler (handler msg) w else w)
        commands w
  | None => w
  end.

Definition processUpdate (u : update) (w : World) : World :=
  match u with
  | message msg => run_commands msg (run_handler (on_message msg) w)
  | callback_query query =>
      run_handler (on_item_action query) (run_handler (on_category query) w)
  end.

(** ** Items as the specification describes them *)

Record Item := {
  name : jsstring;
  quantity : jsstring;
  category : jsstring;
  checked : bool
}.

(** The object the bot stores for an item *)
Definition item_value (i : Item) : value :=
  VObj [ (js "name", VStr (name i));
         (js "quantity", VStr (quantity i));
         (js "category", VStr (category i));
         (js "checked", VBool (checked i)) ].

Definition list_value (l : list Item) : value :=
  VObj [(js "items", VArr (map item_value l))].

(** The world's list file holds the sequence [l]. *)
Definition stores (w : World) (l : list Item) : Prop :=
  exists data, file w = Some data /\ JSON.parse data = Some (list_value l).

(** A world in which the Telegram API accepts every request *)
Definition delivers (w : World) : Prop := Forall (fun a => a = None) (transport w).

Definition toggle (i : Item) : Item :=
  {| name := name i; quantity := quantity i; category := category i;
     checked := negb (checked i) |}.

(** The confirmation that names a removed item *)
Definition removed_text (it : Item) : jsstring :=
  glyph_checked ++ js " Removed from your list:" ++ nl
    ++ glyph_of (category it) ++ js " " ++ name it.

(** Whether some [onText] expression matches the text of a message *)
Definition matches_command (text : option jsstring) : bool :=
  match text with
  | Some t => existsb (fun ph => includes t ph.1) commands
  | None => false
  end.

(** The handler left the list file, the disk, the log and the rejected
    promises as they were. *)
Definition agree (w w' : World) : Prop :=
  file w' = file w /\ writable w' = writable w
  /\ log w' = log w /\ unhandled w' = unhandled w.

(** The world after the Telegram API has accepted the request [c] *)
Definition accept (c : api_call) (w : World) : World :=
  set_transport (tail (transport w)) (set_requests (requests w ++ [c]) w).

(** The events of the conversation flow scenario, and the item they add *)
Definition add_apples (chat : Z) (queryId : jsstring) (messageId : Z) : list update :=
  [ message {| msg_chat := chat; msg_text := Some (js "/add") |};
    callback_query {| query_id := queryId; query_chat := chat;
                      query_message_id := messageId; data := js "category_fruits" |};
    message {| msg_chat := chat; msg_text := Some (js "Apples") |};
    message {| msg_chat := chat; msg_text := Some (js "6") |} ].

Definition run (events : list update) (w : World) : World :=
  fold_left (fun w u => processUpdate u w) events w.

Definition apples : Item :=
  {| name := js "Apples"; quantity := js "6"; category := js "fruits"; checked := false |}.

Definition milk : Item :=
  {| name := js "Milk"; quantity := js "2"; category := js "proteins"; checked := true |}.

(** A rejection of a formatted message: 400, can't parse entities *)
Definition parse_rejection : request_error :=
  {| err_message := js "ETELEGRAM: 400 Bad Request: can't parse entities";
     error_code := Some 400%Z;
     description := Some (js "Bad Request: can't parse entities: Can't find end of the entity") |}.

(** A rejection for another reason: the API asks the bot to slow down *)
Definition flood_rejection : request_error :=
  {| err_message := js "ETELEGRAM: 429 Too Many Requests: retry after 5";
     error_code := Some 429%Z;
     description := Some (js "Too Many Requests: retry after 5") |}.

(** A world whose list file holds [l] and in which nothing was said yet;
    the Telegram API answers the coming requests with [answers]. *)
Definition stocked (l : list Item) (answers : list (option request_error)) : World :=
  {| file := JSON.stringify (list_value l); writable := true; addItemStates := ∅;
     transport := answers; requests := []; log := []; unhandled := [] |}.

(** A button press and a text message in chat 42 *)
Definition press (token : string) : CallbackQuery :=
  {| query_id := js "q1"; query_chat := 42; query_message_id := 7; data := js token |}.

Definition say (text : string) : Message :=
  {| msg_chat := 42; msg_text := Some (js text) |}.

(** Chat 42 sits in [awaiting_quantity], with fruits and Apples chosen. *)
Definition waiting : World :=
  set_addItemStates
    {[ 42%Z := {| state := awaiting_quantity; st_category := Some (js "fruits");
                  st_name := Some (js "Apples") |} ]}
    (stocked [milk] []).

(** Chat 42 has sent the add command and pressed no button yet. *)
Definition asked : World :=
  set_addItemStates
    {[ 42%Z := {| state := awaiting_name; st_category := None; st_name := None |} ]}
    (stocked [milk] []).

(** The list file is missing; the list file is not JSON. *)
Definition lost : World := set_file None (stocked [] []).

Definition garbled : World := set_file (Some (js "{oops")) (stocked [] []).

(** The state that the add command sets *)
Definition start_state : add_state :=
  {| state := awaiting_name; st_category := None; st_name := None |}.

(** One [onText] registration, tried on a text *)
Definition try_command (msg : Message) (text pattern : jsstring)
    (handler : Message -> M unit) (w : World) : World :=
  if includes text pattern then run_handler (handler msg) w else w.

(** The computation [c] leaves the part [proj] of the world as it was. *)
Definition preserves {T A} (proj : World -> T) (c : M A) : Prop :=
  forall w, proj (c w).2 = proj w.

(** ** The texts and menus that the handlers send *)

Definition cleared_text : jsstring :=
  glyph_bin ++ js " Your shopping list has been cleared.".

Definition empty_text : jsstring := glyph_memo ++ js " Your shopping list is empty.".

Definition list_header : jsstring :=
  glyph_cart ++ js " Shopping List" ++ nl ++ js "Tap items to check/uncheck them:" ++ nl.

Definition checkoff_header : jsstring :=
  glyph_pencil ++ js " *Shopping List Checkoff*" ++ nl
    ++ js "Tap items to check/uncheck them:" ++ nl.

(** The line of an item in the list menu and in the removal menu *)
Definition item_line (it : Item) : jsstring :=
  (if checked it then glyph_checked else glyph_unchecked)
    ++ js " " ++ glyph_of (category it) ++ js " " ++ name it
    ++ js " (" ++ quantity it ++ js ")".

Definition remove_line (it : Item) : jsstring :=
  glyph_of (category it) ++ js " " ++ name it ++ js " (" ++ quantity it ++ js ")".

(** Row [n] of the two menus over a sequence of items *)
Definition toggle_row (n : nat) (it : Item) : list button :=
  [ {| text := item_line it; callback_data := js "toggle_" ++ nat_to_string n |} ].

Definition remove_row (n : nat) (it : Item) : list button :=
  [ {| text := remove_line it; callback_data := js "remove_" ++ nat_to_string n |} ].

(** The names that every object inherits from Object.prototype.  Under
    such a key [categories[key]] is the inherited member and not
    undefined, which [glyph_of] does not follow: where the text of a
    glyph is stated for the category of an item, the category is another
    key. *)
Definition inherited_names : list jsstring :=
  [ js "constructor"; js "hasOwnProperty"; js "isPrototypeOf";
    js "propertyIsEnumerable"; js "toLocaleString"; js "toString"; js "valueOf";
    js "__proto__"; js "__defineGetter__"; js "__defineSetter__";
    js "__lookupGetter__"; js "__lookupSetter__" ].

Definition own_key (key : jsstring) : bool :=
  negb (existsb (str_eqb key) inherited_names).

Definition own_keys (l : list Item) : bool :=
  forallb (fun it => own_key (category it)) l.

(** The row of a category in the menu of the add command *)
Definition category_row (entry : jsstring * jsstring) : list button :=
  [ {| text := entry.2 ++ js " " ++ entry.1; callback_data := js "category_" ++ entry.1 |} ].

(** The confirmation of an added item and the feedback of a toggle *)
Definition added_text (it : Item) : jsstring :=
  glyph_checked ++ js " Added to your list:" ++ nl
    ++ glyph_of (category it) ++ js " " ++ name it ++ js " (" ++ quantity it ++ js ")".

Definition toggled_text (it : Item) : jsstring :=
  name it ++ js " "
    ++ (if checked it then js "checked " ++ glyph_checked
        else js "unchecked " ++ glyph_unchecked).

(** The chat an update belongs to *)
Definition chat_of (u : update) : Z :=
  match u with
  | message msg => msg_chat msg
  | callback_query query => query_chat query
  end.

(** The same world on a disk where [fs.writeFile] fails *)
Definition read_only (w : World) : World :=
  {| file := file w; writable := false; addItemStates := addItemStates w;
     transport := transport w; requests := requests w; log := log w;
     unhandled := unhandled w |}.

(** The list file is missing, or its text is not JSON. *)
Definition unreadable (w : World) : Prop :=
  file w = None \/ exists data, file w = Some data /\ JSON.parse data = None.

(** A value whose [items] is undefined or null: anything but an object,
    and an object without the key or with null under it *)
Definition lacks_items (v : value) : bool :=
  match v with
  | VObj props =>
      match obj_get (js "items") props with
      | VUndefined | VNull => true
      | _ => false
      end
  | _ => true
  end.

(** The list file is JSON, but of a value without [items]. *)
Definition misshapen (w : World) : Prop :=
  exists data v, file w = Some data /\ JSON.parse data = Some v /\ lacks_items v = true.

(** What is stored for an item whose name is undefined *)
Definition nameless_value (q c : jsstring) : value :=
  VObj [ (js "quantity", VStr q); (js "category", VStr c); (js "checked", VBool false) ].

(** The list that is saved when the name is undefined *)
Definition nameless_list (l : list Item) (q c : jsstring) : value :=
  VObj [(js "items", VArr (map item_value l ++ [nameless_value q c]))].

(** The conversation state of [chat] *)
Definition state_of (chat : Z) (w : World) : option add_state := addItemStates w !! chat.

(** A press of the button [b], shown in the message [messageId] of [chat] *)
Definition press_button (queryId : jsstring) (chat messageId : Z) (b : button)
    : CallbackQuery :=
  {| query_id := queryId; query_chat := chat; query_message_id := messageId;
     data := callback_data b |}.

(** The state that the press of the button of category [c] sets, and the
    state once the name is given *)
Definition chosen (c : jsstring) : add_state :=
  {| state := awaiting_name; st_category := Some c; st_name := None |}.

Definition named (c : jsstring) (n : option jsstring) : add_state :=
  {| state := awaiting_quantity; st_category := Some c; st_name := n |}.

(** Chat 42 has pressed the button of fruits and sent no name yet. *)
Definition picked : World :=
  set_addItemStates {[ 42%Z := chosen (js "fruits") ]} (stocked [milk] []).

(** A message without text, such as a photo *)
Definition textless (chat : Z) : Message := {| msg_chat := chat; msg_text := None |}.

(** The events of an add-item dialogue once the category is chosen by
    button: the press, the name and the quantity *)
Definition add_item (chat : Z) (queryId : jsstring) (messageId : Z) (it : Item)
    : list update :=
  [ callback_query {| query_id := queryId; query_chat := chat;
                      query_message_id := messageId;
                      data := js "category_" ++ category it |};
    message {| msg_chat := chat; msg_text := Some (name it) |};
    message {| msg_chat := chat; msg_text := Some (quantity it) |} ].

(** A text that the dialogue takes as input and no command matches *)
Definition free_text (t : jsstring) : Prop :=
  is_command_text (Some t) = false /\ matches_command (Some t) = false.

(** The request [c] was made with no formatting and no menu. *)
Definition unformatted (chat : Z) (c : api_call) : Prop :=
  exists t, c = sendMessage chat t no_options.

(** The handler [h], run while the file holds [l], makes a request at
    least, and leaves the file and the earlier requests as they were. *)
Definition answers (l : list Item) (h : M unit) : Prop :=
  forall x, stores x l ->
    file (h x).2 = file x
    /\ requests x `prefix_of` requests (h x).2
    /\ (length (requests x) < length (requests (h x).2))%nat.

(** ** The invariant of the list file *)

(** Every chat that is asked for a quantity has given a name and chosen a
    category. *)
Definition well_stated (w : World) : Prop :=
  forall chat st,
    addItemStates w !! chat = Some st -> state st = awaiting_quantity ->
    is_Some (st_name st) /\ is_Some (st_category st).

(** The disk can be written, the list file holds a sequence of items, and
    the conversation states are as above. *)
Definition sound (w : World) : Prop :=
  writable w = true /\ (exists l, stores w l) /\ well_stated w.

(** An update under which at most one handler writes the list file: a
    button press, or a message whose text is a command or contains none.
    (A text such as "6 /clear" is both a quantity and a command.) *)
Definition one_writer (u : update) : Prop :=
  match u with
  | message msg =>
      exists t, msg_text msg = Some t
                /\ (is_command_text (Some t) = true \/ matches_command (Some t) = false)
  | callback_query _ => True
  end.

(** ** Auxiliary notions of the proofs *)

(** What [parse_chars] yields once the character [c] is put in front *)
Definition cons_result (c : N) (r : option (jsstring * jsstring)) :=
  match r with
  | Some (s, rest) => Some (c :: s, rest)
  | None => None
  end.

(** A text that begins like a value: not with white space, nor with a
    closing bracket or brace *)
Definition starts_value (txt : jsstring) : Prop :=
  exists c t, txt = c :: t /\ is_ws c = false
              /\ (c =? ch "]") = false /\ (c =? ch "}") = false.

(** The text of an array element *)
Definition element_text (indent : jsstring) (e : value) : jsstring :=
  default (js "null") (stringify_value indent e).


(** * Properties *)

(** ** JSON: a written value is read back *)

Section Whitespace.

Lemma skip_ws_app ws t : all_ws ws -> skip_ws (ws ++ t) = skip_ws t.
Proof.
  induction 1 as [|c ws Hc _ IH]; simpl; [reflexivity|].
  now rewrite Hc.
Qed.

Lemma skip_ws_head c t : is_ws c = false -> skip_ws (c :: t) = c :: t.
Proof. intros H. simpl. now rewrite H. Qed.

End Whitespace.

Section Strings.

Lemma digit_val_hex_digit d : d < 16 -> digit_val 16 (hex_digit d) = Some d.
Proof.
  intros H.
  assert (Hd : In d (map N.of_nat (seq 0 16))).
  { apply in_map_iff. exists (N.to_nat d). split; [lia|]. apply in_seq. lia. }
  simpl in Hd.
  repeat (destruct Hd as [<-|Hd]; [reflexivity|]). destruct Hd.
Qed.

Lemma hex4_unicode_escape c :
  c < 65536 ->
  hex4 (hex_digit (c / 4096 mod 16)) (hex_digit (c / 256 mod 16))
       (hex_digit (c / 16 mod 16)) (hex_digit (c mod 16)) = Some c.
Proof.
  intros Hc. unfold hex4.
  rewrite !digit_val_hex_digit by (apply N.mod_lt; lia).
  f_equal.
  pose proof (N.div_mod c 16 ltac:(lia)).
  pose proof (N.div_mod (c / 16) 16 ltac:(lia)).
  pose proof (N.div_mod (c / 16 / 16) 16 ltac:(lia)).
  rewrite !N.Div0.div_div in *.
  change (16 * 16) with 256 in *. change (256 * 16) with 4096 in *.
  assert (c / 4096 < 16) by (apply N.Div0.div_lt_upper_bound; lia).
  rewrite (N.mod_small (c / 4096) 16) in * by lia.
  lia.
Qed.


Lemma parse_chars_unicode h1 h2 h3 h4 t :
  parse_chars (ch "\" :: ch "u" :: h1 :: h2 :: h3 :: h4 :: t) =
  match hex4 h1 h2 h3 h4 with
  | Some u => cons_result u (parse_chars t)
  | None => None
  end.
Proof. reflexivity. Qed.

Lemma parse_chars_plain c t :
  (c =? dquote) = false -> (c =? ch "\") = false -> (c <? 0x20) = false ->
  parse_chars (c :: t) = cons_result c (parse_chars t).
Proof. intros H1 H2 H3. cbn [parse_chars]. rewrite H1, H2, H3. reflexivity. Qed.

Lemma parse_chars_unicode_escape c t :
  c < 65536 -> parse_chars (unicode_escape c ++ t) = cons_result c (parse_chars t).
Proof.
  intros Hc. unfold unicode_escape.
  change (parse_chars
            (ch "\" :: ch "u" :: hex_digit (c / 4096 mod 16) :: hex_digit (c / 256 mod 16)
               :: hex_digit (c / 16 mod 16) :: hex_digit (c mod 16) :: t)
          = cons_result c (parse_chars t)).
  rewrite parse_chars_unicode, hex4_unicode_escape by assumption. reflexivity.
Qed.

Lemma parse_chars_quote_char c t :
  is_high_surrogate c = false ->
  parse_chars (quote_char c ++ t) = cons_result c (parse_chars t).
Proof.
  intros Hhi. unfold quote_char.
  destruct (c =? 8) eqn:E1; [apply N.eqb_eq in E1; subst; reflexivity|].
  destruct (c =? 9) eqn:E2; [apply N.eqb_eq in E2; subst; reflexivity|].
  destruct (c =? 10) eqn:E3; [apply N.eqb_eq in E3; subst; reflexivity|].
  destruct (c =? 12) eqn:E4; [apply N.eqb_eq in E4; subst; reflexivity|].
  destruct (c =? 13) eqn:E5; [apply N.eqb_eq in E5; subst; reflexivity|].
  destruct (c =? dquote) eqn:E6; [apply N.eqb_eq in E6; subst; reflexivity|].
  destruct (c =? ch "\") eqn:E7; [apply N.eqb_eq in E7; subst; reflexivity|].
  rewrite Hhi. simpl orb.
  destruct (c <? 32) eqn:E8; simpl orb.
  - apply parse_chars_unicode_escape. apply N.ltb_lt in E8. lia.
  - destruct (is_low_surrogate c) eqn:E9.
    + apply parse_chars_unicode_escape. unfold is_low_surrogate in E9.
      apply andb_true_iff in E9 as [_ E9]. apply N.leb_le in E9. lia.
    + apply parse_chars_plain; assumption.
Qed.

(** A quoted string reads back as itself. *)
Lemma parse_chars_quote_chars s rest :
  parse_chars (quote_chars s ++ dquote :: rest) = Some (s, rest).
Proof.
  enough (H : forall s, (forall rest, parse_chars (quote_chars s ++ dquote :: rest) = Some (s, rest))
                        /\ (forall c rest, parse_chars (quote_chars (c :: s) ++ dquote :: rest)
                                           = Some (c :: s, rest)))
    by apply H.
  clear. induction s as [|d s [IH0 IH1]].
  - split; [reflexivity|]. intros c rest. simpl quote_chars.
    destruct (is_high_surrogate c) eqn:Hhi.
    + rewrite parse_chars_unicode_escape; [reflexivity|].
      unfold is_high_surrogate in Hhi. apply andb_true_iff in Hhi as [_ H].
      apply N.leb_le in H. lia.
    + rewrite <- app_assoc, parse_chars_quote_char by assumption. reflexivity.
  - split; [apply IH1|]. intros c rest.
    change (quote_chars (c :: d :: s)) with
      (if is_high_surrogate c then
         if is_low_surrogate d then c :: d :: quote_chars s
         else unicode_escape c ++ quote_chars (d :: s)
       else quote_char c ++ quote_chars (d :: s)).
    destruct (is_high_surrogate c) eqn:Hhi.
    + unfold is_high_surrogate in Hhi. apply andb_true_iff in Hhi as [Hlo Hup].
      apply N.leb_le in Hlo, Hup.
      destruct (is_low_surrogate d) eqn:Hd.
      * unfold is_low_surrogate in Hd. apply andb_true_iff in Hd as [Hdl Hdu].
        apply N.leb_le in Hdl, Hdu.
        change (parse_chars (c :: d :: (quote_chars s ++ dquote :: rest)) = Some (c :: d :: s, rest)).
        rewrite parse_chars_plain;
          [| apply N.eqb_neq; cbv; lia | apply N.eqb_neq; cbv; lia | apply N.ltb_ge; lia].
        rewrite parse_chars_plain;
          [| apply N.eqb_neq; cbv; lia | apply N.eqb_neq; cbv; lia | apply N.ltb_ge; lia].
        rewrite IH0. reflexivity.
      * rewrite <- app_assoc, parse_chars_unicode_escape by lia.
        rewrite IH1. reflexivity.
    + rewrite <- app_assoc, parse_chars_quote_char by assumption.
      rewrite IH1. reflexivity.
Qed.

End Strings.

Section RoundTrip.

Lemma value_ind_nested (P : value -> Prop) :
  P VUndefined -> P VNull -> (forall b, P (VBool b)) ->
  (forall literal, P (VNum literal)) -> (forall s, P (VStr s)) ->
  (forall elements, Forall P elements -> P (VArr elements)) ->
  (forall props, Forall (fun kv => P kv.2) props -> P (VObj props)) ->
  forall v, P v.
Proof.
  intros Hu Hn Hb Hnum Hs Ha Ho.
  fix IH 1. intros [| |b|literal|s|elements|props].
  - exact Hu.
  - exact Hn.
  - apply Hb.
  - apply Hnum.
  - apply Hs.
  - apply Ha.
    exact ((fix all (l : list value) : Forall P l :=
              match l with
              | [] => List.Forall_nil P
              | e :: l' => @List.Forall_cons _ P e l' (IH e) (all l')
              end) elements).
  - apply Ho.
    exact ((fix all (l : list (jsstring * value)) : Forall (fun kv => P kv.2) l :=
              match l with
              | [] => List.Forall_nil _
              | kv :: l' => @List.Forall_cons _ (fun kv => P kv.2) kv l' (IH kv.2) (all l')
              end) props).
Qed.

Lemma all_ws_app a b : all_ws a -> all_ws b -> all_ws (a ++ b).
Proof. apply Forall_app_2. Qed.

Lemma all_ws_newline_indent indent : all_ws indent -> all_ws (newline ++ indent ++ gap).
Proof.
  intros H. apply all_ws_app; [repeat constructor|].
  apply all_ws_app; [assumption|repeat constructor].
Qed.

Lemma plain_stringify indent v :
  plain v = true -> exists txt, stringify_value indent v = Some txt /\ starts_value txt.
Proof.
  destruct v as [| |[|]|literal|s|elements|props]; simpl; intros H; try discriminate;
    eexists; (split; [reflexivity|]).
  1-4: eexists _, _; repeat split; reflexivity.
  all: unfold wrap; match goal with |- context [match ?p with _ => _ end] => destruct p end;
    eexists _, _; repeat split; reflexivity.
Qed.


Lemma parse_elements_S fuel t :
  parse_elements (S fuel) t =
  match parse_value fuel t with
  | None => None
  | Some (v, t1) =>
      match skip_ws t1 with
      | [] => None
      | c :: t2 =>
          if c =? ch "," then
            match parse_elements fuel t2 with
            | Some (vs, rest) => Some (v :: vs, rest)
            | None => None
            end
          else if c =? ch "]" then Some ([v], t2)
          else None
      end
  end.
Proof. reflexivity. Qed.

Lemma parse_members_S fuel t :
  parse_members (S fuel) t =
  match skip_ws t with
  | [] => None
  | q :: t1 =>
      if q =? dquote then
        match parse_chars t1 with
        | None => None
        | Some (k, t2) =>
            match skip_ws t2 with
            | [] => None
            | c :: t3 =>
                if c =? ch ":" then
                  match parse_value fuel t3 with
                  | None => None
                  | Some (v, t4) =>
                      match skip_ws t4 with
                      | [] => None
                      | d :: t5 =>
                          if d =? ch "," then
                            match parse_members fuel t5 with
                            | Some (ms, rest) => Some ((k, v) :: ms, rest)
                            | None => None
                            end
                          else if d =? ch "}" then Some ([(k, v)], t5)
                          else None
                      end
                  end
                else None
            end
        end
      else None
  end.
Proof. reflexivity. Qed.

Lemma parse_value_S fuel t :
  parse_value (S fuel) t =
  match skip_ws t with
  | [] => None
  | c :: t' =>
      if c =? ch "{" then
        match skip_ws t' with
        | [] => None
        | c' :: t'' =>
            if c' =? ch "}" then Some (VObj [], t'')
            else
              match parse_members fuel t' with
              | Some (ms, rest) => Some (VObj (obj_of_members ms), rest)
              | None => None
              end
        end
      else if c =? ch "[" then
        match skip_ws t' with
        | [] => None
        | c' :: t'' =>
            if c' =? ch "]" then Some (VArr [], t'')
            else
              match parse_elements fuel t' with
              | Some (vs, rest) => Some (VArr vs, rest)
              | None => None
              end
        end
      else if c =? dquote then
        match parse_chars t' with
        | Some (s, rest) => Some (VStr s, rest)
        | None => None
        end
      else if startsWith (c :: t') (js "true") then Some (VBool true, drop 4 (c :: t'))
      else if startsWith (c :: t') (js "false") then Some (VBool false, drop 5 (c :: t'))
      else if startsWith (c :: t') (js "null") then Some (VNull, drop 4 (c :: t'))
      else
        match parse_number (c :: t') with
        | Some (lit, rest) => Some (VNum lit, rest)
        | None => None
        end
  end.
Proof. reflexivity. Qed.

Lemma parse_elements_join indent elements :
  all_ws indent ->
  Forall (fun e => plain e = true /\ reads_back e) elements ->
  elements <> [] ->
  forall fuel ws ws' rest,
    all_ws ws -> all_ws ws' ->
    (2 * length (join (ch "," :: newline ++ indent) (map (element_text indent) elements)) + 1
       <= fuel)%nat ->
    parse_elements fuel
      (ws ++ join (ch "," :: newline ++ indent) (map (element_text indent) elements)
          ++ ws' ++ ch "]" :: rest)
    = Some (elements, rest).
Proof.
  intros Hind Hall.
  induction Hall as [|e l [Hp Hr] Hall IH]; [congruence|].
  intros _ fuel ws ws' rest Hws Hws' Hfuel.
  destruct (plain_stringify indent e Hp) as (txt & Htxt & Hst).
  destruct fuel as [|fuel]; [lia|]. rewrite parse_elements_S.
  destruct l as [|e2 l].
  - cbn [map join] in *. unfold element_text in *. rewrite Htxt in *. cbn [default from_option id] in *.
    rewrite (Hr indent txt Hind Htxt fuel ws _ Hws) by lia.
    rewrite skip_ws_app by assumption. reflexivity.
  - change (map (element_text indent) (e :: e2 :: l))
      with (element_text indent e :: map (element_text indent) (e2 :: l)) in *.
    set (J := map (element_text indent) (e2 :: l)) in *.
    assert (HJ : exists p ps, J = p :: ps) by (eexists _, _; reflexivity).
    destruct HJ as (p & ps & HJ).
    assert (Hjoin : forall sep x, join sep (x :: J) = x ++ sep ++ join sep J)
      by (intros; rewrite HJ; reflexivity).
    rewrite Hjoin in *. unfold element_text at 1. unfold element_text at 1 in Hfuel.
    rewrite Htxt in *. cbn [default from_option id] in *.
    rewrite !length_app in Hfuel.
    rewrite <- !app_assoc.
    rewrite (Hr indent txt Hind Htxt fuel ws _ Hws) by lia.
    cbn [app]. rewrite skip_ws_head by reflexivity.
    change (ch "," =? ch ",") with true. cbv iota.
    rewrite IH; [reflexivity|discriminate| |assumption|].
    + apply all_ws_app; [repeat constructor|assumption].
    + cbn [length] in Hfuel. lia.
Qed.


Lemma member_texts_cons str k e ps txt :
  str e = Some txt ->
  member_texts str ((k, e) :: ps) = (quote k ++ ch ":" :: 0x20 :: txt) :: member_texts str ps.
Proof. intros H. cbn [member_texts]. rewrite H. reflexivity. Qed.

Lemma member_shape k txt R :
  (quote k ++ ch ":" :: 0x20 :: txt) ++ R
  = dquote :: quote_chars k ++ dquote :: ch ":" :: ([0x20] ++ txt ++ R).
Proof. unfold quote. cbn [app]. rewrite <- !app_assoc. reflexivity. Qed.

Lemma parse_members_join indent props :
  all_ws indent ->
  Forall (fun kv => plain kv.2 = true /\ reads_back kv.2) props ->
  props <> [] ->
  forall fuel ws ws' rest,
    all_ws ws -> all_ws ws' ->
    (2 * length (join (ch "," :: newline ++ indent)
                   (member_texts (stringify_value indent) props)) + 1 <= fuel)%nat ->
    parse_members fuel
      (ws ++ join (ch "," :: newline ++ indent) (member_texts (stringify_value indent) props)
          ++ ws' ++ ch "}" :: rest)
    = Some (props, rest).
Proof.
  intros Hind Hall.
  induction Hall as [|[k e] l [Hp Hr] Hall IH]; [congruence|].
  intros _ fuel ws ws' rest Hws Hws' Hfuel. cbn [snd] in Hp, Hr.
  destruct (plain_stringify indent e Hp) as (txt & Htxt & Hst).
  destruct fuel as [|fuel]; [lia|]. rewrite parse_members_S.
  rewrite (member_texts_cons _ k e l txt Htxt) in *.
  destruct l as [|[k2 e2] l].
  - cbn [member_texts join] in *.
    rewrite member_shape, skip_ws_app, skip_ws_head by (assumption || reflexivity).
    change (dquote =? dquote) with true. cbv iota.
    rewrite parse_chars_quote_chars, skip_ws_head by reflexivity.
    change (ch ":" =? ch ":") with true. cbv iota.
    rewrite !length_app in Hfuel. cbn [length] in Hfuel.
    rewrite (Hr indent txt Hind Htxt fuel [0x20] _) by (repeat constructor || lia).
    rewrite skip_ws_app by assumption. reflexivity.
  - set (J := member_texts (stringify_value indent) ((k2, e2) :: l)) in *.
    assert (HJ : exists p ps, J = p :: ps).
    { subst J.
      inversion Hall as [|? ? [Hp2 _] _]; subst. cbn [snd] in Hp2.
      destruct (plain_stringify indent e2 Hp2) as (txt2 & Htxt2 & _).
      rewrite (member_texts_cons _ k2 e2 l txt2 Htxt2). eexists _, _; reflexivity. }
    destruct HJ as (p & ps & HJ).
    assert (Hjoin : forall sep x, join sep (x :: J) = x ++ sep ++ join sep J)
      by (intros; rewrite HJ; reflexivity).
    rewrite Hjoin in *.
    rewrite !length_app in Hfuel. cbn [length] in Hfuel.
    rewrite <- (app_assoc (quote k ++ ch ":" :: 0x20 :: txt)).
    rewrite member_shape, skip_ws_app, skip_ws_head by (assumption || reflexivity).
    change (dquote =? dquote) with true. cbv iota.
    rewrite parse_chars_quote_chars, skip_ws_head by reflexivity.
    change (ch ":" =? ch ":") with true. cbv iota.
    rewrite (Hr indent txt Hind Htxt fuel [0x20] _) by (repeat constructor || lia).
    rewrite <- app_assoc. cbn [app]. rewrite skip_ws_head by reflexivity.
    change (ch "," =? ch ",") with true. cbv iota.
    rewrite IH; [reflexivity|discriminate| |assumption|].
    + apply all_ws_app; [repeat constructor|assumption].
    + lia.
Qed.

End RoundTrip.

Section Objects.

Lemma obj_has_false k (o : object) : k ∉ map fst o -> obj_has k o = false.
Proof.
  induction o as [|[k' v] o IH]; [reflexivity|].
  intros Hk. cbn [obj_has existsb fst map] in *. apply not_elem_of_cons in Hk as [Hne Hk].
  unfold str_eqb at 1. rewrite bool_decide_eq_false_2 by congruence.
  apply IH, Hk.
Qed.

Lemma obj_set_new k v (o : object) :
  k ∉ map fst o -> array_index k = None -> obj_set k v o = o ++ [(k, v)].
Proof. intros Hk Hi. unfold obj_set. rewrite obj_has_false, Hi by assumption. reflexivity. Qed.

Lemma obj_of_members_from (acc props : object) :
  NoDup (map fst (acc ++ props)) ->
  forallb (fun k => bool_decide (array_index k = None)) (map fst props) = true ->
  fold_left (fun o kv => obj_set kv.1 kv.2 o) props acc = acc ++ props.
Proof.
  revert acc. induction props as [|[k v] props IH]; intros acc Hnd Hidx.
  - cbn. now rewrite app_nil_r.
  - cbn [fold_left fst snd map forallb] in *. apply andb_true_iff in Hidx as [Hk Hidx].
    apply bool_decide_eq_true_1 in Hk.
    assert (Hfresh : k ∉ map fst acc).
    { rewrite map_app in Hnd. cbn [map fst] in Hnd.
      apply NoDup_app in Hnd as (_ & Hdisj & _).
      intros Hin. apply (Hdisj k Hin). left. }
    rewrite obj_set_new by assumption.
    rewrite IH; [now rewrite <- app_assoc| |assumption].
    now rewrite <- app_assoc.
Qed.

Lemma obj_of_members_own_order (props : object) :
  own_order (map fst props) = true -> obj_of_members props = props.
Proof.
  unfold own_order, obj_of_members. intros H. apply andb_true_iff in H as [Hnd Hidx].
  apply bool_decide_eq_true_1 in Hnd.
  now apply (obj_of_members_from [] props).
Qed.

End Objects.

Section ReadBack.

Lemma plain_reads_back v : plain v = true -> reads_back v.
Proof.
  induction v as [| |b|literal|s|elements IH|props IH] using value_ind_nested;
    cbn [plain]; intros Hp; try discriminate;
    intros indent txt Hind Htxt fuel ws rest Hws Hfuel.
  - (* null *)
    injection Htxt as <-. destruct fuel as [|fuel]; [cbn in Hfuel; lia|].
    rewrite parse_value_S, skip_ws_app by assumption. reflexivity.
  - (* true, false *)
    destruct b; injection Htxt as <-; (destruct fuel as [|fuel]; [cbn in Hfuel; lia|]);
      rewrite parse_value_S, skip_ws_app by assumption; reflexivity.
  - (* a string *)
    injection Htxt as <-. destruct fuel as [|fuel]; [cbn in Hfuel; lia|].
    rewrite parse_value_S, skip_ws_app by assumption.
    unfold quote. cbn [app]. rewrite skip_ws_head by reflexivity.
    change (dquote =? ch "{") with false. change (dquote =? ch "[") with false.
    change (dquote =? dquote) with true. cbv iota.
    rewrite <- app_assoc. cbn [app]. rewrite parse_chars_quote_chars. reflexivity.
  - (* an array *)
    cbn [stringify_value] in Htxt. apply (inj Some) in Htxt. subst txt.
    destruct fuel as [|fuel]; [unfold wrap in Hfuel; destruct (map _ _); cbn in Hfuel; lia|].
    rewrite parse_value_S, skip_ws_app by assumption.
    assert (Hall : Forall (fun e => plain e = true /\ reads_back e) elements).
    { clear -Hp IH. induction IH as [|e l He _ IHl]; constructor.
      - cbn [forallb] in Hp. apply andb_true_iff in Hp as [H1 _]. split; [exact H1|apply He, H1].
      - apply IHl. cbn [forallb] in Hp. apply andb_true_iff in Hp as [_ H2]. exact H2. }
    destruct elements as [|e elements]; [reflexivity|].
    fold (element_text (indent ++ gap)) in *.
    set (texts := map (element_text (indent ++ gap)) (e :: elements)) in *.
    assert (Htexts : exists p ps, texts = p :: ps) by (eexists _, _; reflexivity).
    destruct Htexts as (p & ps & Htexts). unfold wrap in *. rewrite Htexts in *.
    rewrite <- Htexts in *. clear p ps Htexts.
    cbn [app]. rewrite skip_ws_head by reflexivity.
    change (ch "[" =? ch "{") with false. change (ch "[" =? ch "[") with true. cbv iota.
    inversion Hall as [|? ? [Hpe _] _]; subst.
    destruct (plain_stringify (indent ++ gap) e Hpe) as (txt & Htxt & c & t & -> & Hc & Hc1 & Hc2).
    assert (Hfirst : exists T, join (ch "," :: newline ++ indent ++ gap) texts = c :: T).
    { subst texts. cbn [map]. unfold element_text at 1. rewrite Htxt. cbn [default from_option id].
      destruct (map _ elements); cbn [join app]; eexists; reflexivity. }
    destruct Hfirst as [T HT].
    set (J := join (ch "," :: newline ++ indent ++ gap) texts) in *.
    assert (Hshape :
      (newline ++ (indent ++ gap) ++ J ++ newline ++ indent ++ [ch "]"]) ++ rest
      = (newline ++ indent ++ gap) ++ J ++ (newline ++ indent) ++ ch "]" :: rest)
      by (rewrite <- !app_assoc; reflexivity).
    rewrite Hshape. rewrite skip_ws_app by now apply all_ws_newline_indent.
    rewrite HT at 1. cbn [app]. rewrite skip_ws_head, Hc1 by assumption.
    subst J texts.
    rewrite (parse_elements_join (indent ++ gap) (e :: elements)); try done.
    + apply all_ws_app; [assumption|repeat constructor].
    + now apply all_ws_newline_indent.
    + apply all_ws_app; [repeat constructor|assumption].
    + cbn [length] in Hfuel. rewrite !length_app in Hfuel. cbn [length] in Hfuel. lia.
  - (* an object *)
    cbn [stringify_value] in Htxt. apply (inj Some) in Htxt. subst txt.
    apply andb_true_iff in Hp as [Hp Hord].
    destruct fuel as [|fuel];
      [unfold wrap in Hfuel; destruct (member_texts _ _); cbn in Hfuel; lia|].
    rewrite parse_value_S, skip_ws_app by assumption.
    assert (Hall : Forall (fun kv => plain kv.2 = true /\ reads_back kv.2) props).
    { clear -Hp IH. induction IH as [|kv l He _ IHl]; constructor.
      - cbn [forallb] in Hp. apply andb_true_iff in Hp as [H1 _]. split; [exact H1|apply He, H1].
      - apply IHl. cbn [forallb] in Hp. apply andb_true_iff in Hp as [_ H2]. exact H2. }
    destruct props as [|[k e] props]; [reflexivity|].
    inversion Hall as [|? ? [Hpe _] _]; subst. cbn [snd] in Hpe.
    destruct (plain_stringify (indent ++ gap) e Hpe) as (txt & Htxt & _).
    set (texts := member_texts (stringify_value (indent ++ gap)) ((k, e) :: props)) in *.
    assert (Htexts : exists T, texts = (dquote :: T) :: tail texts).
    { subst texts. rewrite (member_texts_cons _ k e props txt Htxt).
      unfold quote. cbn [app tail]. eexists; reflexivity. }
    destruct Htexts as (T0 & Htexts).
    set (J := join (ch "," :: newline ++ indent ++ gap) texts) in *.
    assert (HT : exists T, J = dquote :: T).
    { subst J. rewrite Htexts. destruct (tail texts); cbn [join app]; eexists; reflexivity. }
    destruct HT as [T HT].
    unfold wrap in *. rewrite Htexts in *. rewrite <- Htexts in *. fold J in Hfuel |- *.
    cbn [app]. rewrite skip_ws_head by reflexivity.
    change (ch "{" =? ch "{") with true. cbv iota.
    assert (Hshape :
      (newline ++ (indent ++ gap) ++ J ++ newline ++ indent ++ [ch "}"]) ++ rest
      = (newline ++ indent ++ gap) ++ J ++ (newline ++ indent) ++ ch "}" :: rest)
      by (rewrite <- !app_assoc; reflexivity).
    rewrite Hshape. rewrite skip_ws_app by now apply all_ws_newline_indent.
    rewrite HT at 1. cbn [app]. rewrite skip_ws_head by reflexivity.
    change (dquote =? ch "}") with false. cbv iota.
    subst J texts.
    rewrite (parse_members_join (indent ++ gap) ((k, e) :: props)); try done.
    + now rewrite obj_of_members_own_order.
    + apply all_ws_app; [assumption|repeat constructor].
    + now apply all_ws_newline_indent.
    + apply all_ws_app; [repeat constructor|assumption].
    + cbn [length] in Hfuel. rewrite !length_app in Hfuel. cbn [length] in Hfuel. lia.
Qed.

(** [JSON.parse(JSON.stringify(v, null, 2))] is [v] for a plain value. *)
Lemma parse_stringify v txt :
  plain v = true -> JSON.stringify v = Some txt -> JSON.parse txt = Some v.
Proof.
  intros Hp Htxt. unfold JSON.parse.
  pose proof (plain_reads_back v Hp [] txt (Forall_nil_2 _) Htxt
                (2 * length txt + 1)%nat [] [] (Forall_nil_2 _) ltac:(lia)) as H.
  cbn [app] in H. rewrite app_nil_r in H. rewrite H. reflexivity.
Qed.

End ReadBack.

(** ** JSON: the fuel of [parse] is enough *)

Section Fuel.

Lemma skip_ws_length t : (length (skip_ws t) <= length t)%nat.
Proof.
  induction t as [|c t IH]; [reflexivity|]. cbn [skip_ws].
  destruct (is_ws c); cbn [length]; lia.
Qed.

Lemma skip_ws_cons_length t c t' : skip_ws t = c :: t' -> (length t' < length t)%nat.
Proof. intros H. pose proof (skip_ws_length t) as Hl. rewrite H in Hl. cbn in Hl. lia. Qed.

Lemma parse_chars_length t s rest :
  parse_chars t = Some (s, rest) -> (length rest < length t)%nat.
Proof.
  enough (H : forall n t, (length t <= n)%nat -> forall s rest,
              parse_chars t = Some (s, rest) -> (length rest < length t)%nat)
    by (apply (H (length t) t); lia).
  clear. induction n as [|n IH]; intros t Hn s rest H.
  - destruct t; [discriminate|cbn in Hn; lia].
  - destruct t as [|c t]; [discriminate|]. cbn [parse_chars] in H. cbn [length] in *.
    destruct (c =? dquote); [injection H as _ <-; lia|].
    destruct (c =? ch "\").
    + destruct t as [|e t]; [discriminate|]. cbn [length] in *.
      destruct (e =? ch "u").
      * destruct t as [|h1 [|h2 [|h3 [|h4 t]]]]; try discriminate. cbn [length] in *.
        destruct (hex4 h1 h2 h3 h4); [|discriminate].
        destruct (parse_chars t) as [[s' r']|] eqn:E; [|discriminate].
        injection H as _ <-. apply IH in E; lia.
      * destruct (unescape e); [|discriminate].
        destruct (parse_chars t) as [[s' r']|] eqn:E; [|discriminate].
        injection H as _ <-. apply IH in E; lia.
    + destruct (c <? 32); [discriminate|].
      destruct (parse_chars t) as [[s' r']|] eqn:E; [|discriminate].
      injection H as _ <-. apply IH in E; lia.
Qed.

Lemma span_digits_length t ds rest :
  span_digits t = (ds, rest) -> length t = (length ds + length rest)%nat.
Proof.
  revert ds rest. induction t as [|c t IH]; intros ds rest H; cbn [span_digits] in H.
  - injection H as <- <-. reflexivity.
  - destruct (is_digit c).
    + destruct (span_digits t) as [ds' rest'] eqn:E. injection H as <- <-.
      cbn [length]. rewrite (IH _ _ eq_refl). lia.
    + injection H as <- <-. reflexivity.
Qed.


Ltac break_parse :=
  repeat first
    [ discriminate
    | match goal with
      | E : (_, _) = (_, _) |- _ => injection E as ? ?; subst
      | E : Some _ = Some _ |- _ => injection E as ?; subst
      | E : context [span_digits ?x] |- _ =>
          let E' := fresh "E" in
          destruct (span_digits x) as [? ?] eqn:E'; apply span_digits_length in E'
      | E : context [match ?x with _ => _ end] |- _ =>
          first [ is_var x; destruct x
                | lazymatch type of x with bool => destruct x eqn:? end ]
      end ].

Lemma parse_number_length t lit rest :
  parse_number t = Some (lit, rest) -> (length rest < length t)%nat.
Proof.
  unfold parse_number. intros H. break_parse.
  all: cbn [length] in *; rewrite ?length_app in *; cbn [length] in *; lia.
Qed.


Lemma fuel_enough_all n : fuel_enough n.
Proof.
  induction n as [|n (IHv & IHe & IHm)]; [repeat split; discriminate|].
  split; [|split].
  - (* parse_value *)
    intros t v rest H. rewrite parse_value_S in H.
    destruct (skip_ws t) as [|c t'] eqn:Hs; [discriminate|].
    pose proof (skip_ws_cons_length _ _ _ Hs) as Hlen.
    destruct (c =? ch "{") eqn:Hc1.
    { destruct (skip_ws t') as [|c' t''] eqn:Hs'; [discriminate|].
      pose proof (skip_ws_cons_length _ _ _ Hs') as Hlen'.
      destruct (c' =? ch "}") eqn:Hc'.
      - injection H as <- <-. split; [lia|]. intros [|fuel] Hf; [lia|].
        rewrite parse_value_S, Hs, Hc1, Hs', Hc'. reflexivity.
      - destruct (parse_members n t') as [[ms r]|] eqn:Hm; [|discriminate].
        injection H as <- <-. destruct (IHm _ _ _ Hm) as [Hr Hfuel].
        split; [lia|]. intros [|fuel] Hf; [lia|].
        rewrite parse_value_S, Hs, Hc1, Hs', Hc', Hfuel by lia. reflexivity. }
    destruct (c =? ch "[") eqn:Hc2.
    { destruct (skip_ws t') as [|c' t''] eqn:Hs'; [discriminate|].
      pose proof (skip_ws_cons_length _ _ _ Hs') as Hlen'.
      destruct (c' =? ch "]") eqn:Hc'.
      - injection H as <- <-. split; [lia|]. intros [|fuel] Hf; [lia|].
        rewrite parse_value_S, Hs, Hc1, Hc2, Hs', Hc'. reflexivity.
      - destruct (parse_elements n t') as [[vs r]|] eqn:He; [|discriminate].
        injection H as <- <-. destruct (IHe _ _ _ He) as [Hr Hfuel].
        split; [lia|]. intros [|fuel] Hf; [lia|].
        rewrite parse_value_S, Hs, Hc1, Hc2, Hs', Hc', Hfuel by lia. reflexivity. }
    assert (Hsame : forall fuel, (2 * length t <= fuel)%nat ->
              parse_value fuel t = parse_value (S n) t).
    { intros [|fuel] Hf; [lia|]. rewrite !parse_value_S, Hs, Hc1, Hc2. reflexivity. }
    assert (Hrest : (length rest < length t)%nat).
    { destruct (c =? dquote).
      - destruct (parse_chars t') as [[s r]|] eqn:Hp; [|discriminate].
        injection H as _ <-. apply parse_chars_length in Hp. lia.
      - destruct (startsWith (c :: t') (js "true"));
          [injection H as _ <-; rewrite length_drop; cbn [length]; lia|].
        destruct (startsWith (c :: t') (js "false"));
          [injection H as _ <-; rewrite length_drop; cbn [length]; lia|].
        destruct (startsWith (c :: t') (js "null"));
          [injection H as _ <-; rewrite length_drop; cbn [length]; lia|].
        destruct (parse_number (c :: t')) as [[lit r]|] eqn:Hp; [|discriminate].
        injection H as _ <-. apply parse_number_length in Hp. cbn [length] in Hp. lia. }
    split; [exact Hrest|]. intros fuel Hf. rewrite (Hsame fuel Hf), parse_value_S, Hs, Hc1, Hc2.
    exact H.
  - (* parse_elements *)
    intros t vs rest H. rewrite parse_elements_S in H.
    destruct (parse_value n t) as [[v t1]|] eqn:Hv; [|discriminate].
    destruct (IHv _ _ _ Hv) as [Hl1 Hfuel1].
    destruct (skip_ws t1) as [|c t2] eqn:Hs; [discriminate|].
    pose proof (skip_ws_cons_length _ _ _ Hs) as Hl2.
    destruct (c =? ch ",") eqn:Hc.
    + destruct (parse_elements n t2) as [[vs' r]|] eqn:He; [|discriminate].
      injection H as <- <-. destruct (IHe _ _ _ He) as [Hr Hfuel2].
      split; [lia|]. intros [|fuel] Hf; [lia|].
      rewrite parse_elements_S, Hfuel1, Hs, Hc, Hfuel2 by lia. reflexivity.
    + destruct (c =? ch "]") eqn:Hc'; [|discriminate].
      injection H as <- <-. split; [lia|]. intros [|fuel] Hf; [lia|].
      rewrite parse_elements_S, Hfuel1, Hs, Hc, Hc' by lia. reflexivity.
  - (* parse_members *)
    intros t ms rest H. rewrite parse_members_S in H.
    destruct (skip_ws t) as [|q t1] eqn:Hs; [discriminate|].
    pose proof (skip_ws_cons_length _ _ _ Hs) as Hl1.
    destruct (q =? dquote) eqn:Hq; [|discriminate].
    destruct (parse_chars t1) as [[k t2]|] eqn:Hk; [|discriminate].
    pose proof (parse_chars_length _ _ _ Hk) as Hl2.
    destruct (skip_ws t2) as [|c t3] eqn:Hs2; [discriminate|].
    pose proof (skip_ws_cons_length _ _ _ Hs2) as Hl3.
    destruct (c =? ch ":") eqn:Hc; [|discriminate].
    destruct (parse_value n t3) as [[v t4]|] eqn:Hv; [|discriminate].
    destruct (IHv _ _ _ Hv) as [Hl4 Hfuel1].
    destruct (skip_ws t4) as [|d t5] eqn:Hs4; [discriminate|].
    pose proof (skip_ws_cons_length _ _ _ Hs4) as Hl5.
    destruct (d =? ch ",") eqn:Hd.
    + destruct (parse_members n t5) as [[ms' r]|] eqn:Hm; [|discriminate].
      injection H as <- <-. destruct (IHm _ _ _ Hm) as [Hr Hfuel2].
      split; [lia|]. intros [|fuel] Hf; [lia|].
      rewrite parse_members_S, Hs, Hq, Hk, Hs2, Hc, Hfuel1, Hs4, Hd, Hfuel2 by lia.
      reflexivity.
    + destruct (d =? ch "}") eqn:Hd'; [|discriminate].
      injection H as <- <-. split; [lia|]. intros [|fuel] Hf; [lia|].
      rewrite parse_members_S, Hs, Hq, Hk, Hs2, Hc, Hfuel1, Hs4, Hd, Hd' by lia.
      reflexivity.
Qed.

(** [JSON.parse] does not depend on its fuel: whatever value some fuel
    reads from a text, the fuel of [parse] reads it too. *)
Lemma parse_fuel t n v rest :
  parse_value n t = Some (v, rest) -> skip_ws rest = [] -> JSON.parse t = Some v.
Proof.
  intros H Hrest. unfold JSON.parse.
  destruct (fuel_enough_all n) as (Hv & _ & _).
  destruct (Hv _ _ _ H) as [_ Hfuel]. rewrite Hfuel by lia. rewrite Hrest. reflexivity.
Qed.

End Fuel.

(** ** The item store *)

Section Store.

Lemma plain_item_value i : plain (item_value i) = true.
Proof. destruct i as [n q c []]; reflexivity. Qed.

Lemma plain_list_value l : plain (list_value l) = true.
Proof.
  unfold list_value. cbn [plain forallb snd map fst].
  replace (own_order [js "items"]) with true by reflexivity.
  rewrite !andb_true_r.
  induction l as [|i l IH]; [reflexivity|].
  cbn [map forallb]. rewrite plain_item_value. exact IH.
Qed.

Lemma stringify_list_value l : exists txt, JSON.stringify (list_value l) = Some txt.
Proof. eexists. reflexivity. Qed.




Lemma stores_saved w l : stores (set_file (JSON.stringify (list_value l)) w) l.
Proof.
  destruct (stringify_list_value l) as [txt Htxt]. exists txt. split.
  - cbn [file set_file]. exact Htxt.
  - apply parse_stringify; [apply plain_list_value|exact Htxt].
Qed.

Lemma load_stores w l : stores w l -> loadShoppingList w = (Return (list_value l), w).
Proof.
  intros (data & Hfile & Hparse).
  unfold loadShoppingList, try_catch, bind, fs_readFile, JSON_parse.
  rewrite Hfile, Hparse. reflexivity.
Qed.

Lemma get_items_list_value l w : get_items (list_value l) w = (Return (map item_value l), w).
Proof. reflexivity. Qed.

Lemma save_items w l :
  writable w = true ->
  saveShoppingList (VArr (map item_value l)) w
  = (Return tt, set_file (JSON.stringify (list_value l)) w).
Proof.
  intros Hw. unfold saveShoppingList, try_catch.
  change (VObj [(js "items", VArr (map item_value l))]) with (list_value l).
  destruct (stringify_list_value l) as [txt Htxt]. rewrite Htxt.
  unfold fs_writeFile. rewrite Hw. reflexivity.
Qed.

End Store.

(** C4.  Saving a sequence of items and loading it again yields the same
    sequence, the empty one included: the save succeeds, the file then
    holds the sequence, and [loadShoppingList] returns the list whose
    [items] are the values of the sequence, in order, without logging
    anything.  ([list_value] is injective, so the loaded list determines
    the sequence.)  The disk is one on which [fs.writeFile] succeeds. *)
Theorem save_then_load (l : list Item) (w : World) :
  writable w = true ->
  let saved := saveShoppingList (VArr (map item_value l)) w in
  saved.1 = Return tt
  /\ stores saved.2 l
  /\ loadShoppingList saved.2 = (Return (list_value l), saved.2)
  /\ get_items (list_value l) saved.2 = (Return (map item_value l), saved.2).
Proof.
  intros Hw saved. subst saved. rewrite (save_items w l Hw). cbn [fst snd].
  split; [reflexivity|]. split; [apply stores_saved|].
  split; [apply load_stores, stores_saved|reflexivity].
Qed.

(** C8.  When the list file cannot be read, or its contents are not JSON,
    [loadShoppingList] does not throw: it returns the empty list, and the
    only change to the world is one more line in the log, which begins
    with "Error loading shopping list: ". *)
Theorem load_recovers (w : World) :
  file w = None \/ (exists data, file w = Some data /\ JSON.parse data = None) ->
  exists line,
    loadShoppingList w = (Return (list_value []), set_log (log w ++ [line]) w)
    /\ startsWith line (js "Error loading shopping list: ") = true.
Proof.
  intros [Hfile|(data & Hfile & Hparse)];
    unfold loadShoppingList, try_catch, bind, fs_readFile, JSON_parse;
    rewrite Hfile; [|rewrite Hparse]; eexists; (split; [reflexivity|reflexivity]).
Qed.

Lemma load_never_throws w : exists v w', loadShoppingList w = (Return v, w').
Proof.
  unfold loadShoppingList, try_catch, bind, fs_readFile, JSON_parse.
  destruct (file w) as [data|]; [destruct (JSON.parse data)|]; eexists _, _; reflexivity.
Qed.

(** ** What is saved is well-formed UTF-16 *)

Section WellFormed.

Lemma well_formed_app a b :
  well_formed a = true -> well_formed b = true -> well_formed (a ++ b) = true.
Proof.
  enough (H : forall a, (well_formed a = true -> well_formed b = true -> well_formed (a ++ b) = true)
                        /\ forall c, well_formed (c :: a) = true -> well_formed b = true ->
                                     well_formed ((c :: a) ++ b) = true) by apply H.
  clear a. induction a as [|d a [IH0 IH1]].
  - split; [auto|]. intros c Hc Hb. cbn [well_formed app] in *.
    destruct (is_high_surrogate c); [discriminate|].
    apply andb_true_iff in Hc as [-> _]. exact Hb.
  - split; [apply IH1|]. intros c Hc Hb.
    change (well_formed (c :: d :: a ++ b) = true).
    cbn [well_formed] in Hc |- *. fold (well_formed (a ++ b)).
    destruct (is_high_surrogate c).
    + apply andb_true_iff in Hc as [-> Ha]. cbn [andb]. auto.
    + apply andb_true_iff in Hc as [-> Hda]. cbn [andb]. apply (IH1 d Hda Hb).
Qed.

Lemma well_formed_ascii t :
  Forall (fun c => c < 0x80) t -> well_formed t = true.
Proof.
  induction 1 as [|c t Hc _ IH]; [reflexivity|]. cbn [well_formed].
  unfold is_high_surrogate, is_low_surrogate.
  replace (0xD800 <=? c) with false by (symmetry; apply N.leb_gt; lia).
  replace (0xDC00 <=? c) with false by (symmetry; apply N.leb_gt; lia).
  exact IH.
Qed.


Lemma hex_digit_ascii d : d < 16 -> hex_digit d < 0x80.
Proof.
  intros H. unfold hex_digit. change (ch "0") with 48. change (ch "a") with 97.
  destruct (d <? 10); lia.
Qed.

Lemma unicode_escape_ascii c : Forall (fun c => c < 0x80) (unicode_escape c).
Proof.
  unfold unicode_escape.
  repeat (constructor; [first [reflexivity|apply hex_digit_ascii, N.mod_lt; lia]|]).
  constructor.
Qed.

Lemma well_formed_quote_char c :
  is_high_surrogate c = false -> well_formed (quote_char c) = true.
Proof.
  intros Hhi. unfold quote_char.
  repeat match goal with
         | |- context [if ?c =? ?k then _ else _] => destruct (c =? k); [reflexivity|]
         end.
  rewrite Hhi. cbn [orb].
  destruct (c <? 32); cbn [orb]; [apply well_formed_ascii, unicode_escape_ascii|].
  destruct (is_low_surrogate c) eqn:Hlo; [apply well_formed_ascii, unicode_escape_ascii|].
  cbn [well_formed]. rewrite Hhi, Hlo. reflexivity.
Qed.

Lemma well_formed_quote_chars s : well_formed (quote_chars s) = true.
Proof.
  enough (H : forall s, well_formed (quote_chars s) = true
                        /\ forall c, well_formed (quote_chars (c :: s)) = true) by apply H.
  clear s. induction s as [|d s [IH0 IH1]].
  - split; [reflexivity|]. intros c. cbn [quote_chars].
    destruct (is_high_surrogate c) eqn:Hhi.
    + apply well_formed_ascii, unicode_escape_ascii.
    + rewrite app_nil_r. now apply well_formed_quote_char.
  - split; [apply IH1|]. intros c.
    change (quote_chars (c :: d :: s)) with
      (if is_high_surrogate c then
         if is_low_surrogate d then c :: d :: quote_chars s
         else unicode_escape c ++ quote_chars (d :: s)
       else quote_char c ++ quote_chars (d :: s)).
    destruct (is_high_surrogate c) eqn:Hhi.
    + destruct (is_low_surrogate d) eqn:Hlo.
      * cbn [well_formed]. rewrite Hhi, Hlo. exact IH0.
      * apply well_formed_app; [apply well_formed_ascii, unicode_escape_ascii|apply IH1].
    + apply well_formed_app; [now apply well_formed_quote_char|apply IH1].
Qed.

Lemma well_formed_quote s : well_formed (quote s) = true.
Proof.
  unfold quote. apply (well_formed_app [dquote]); [reflexivity|].
  apply well_formed_app; [apply well_formed_quote_chars|reflexivity].
Qed.

Lemma well_formed_join sep parts :
  well_formed sep = true -> Forall (fun p => well_formed p = true) parts ->
  well_formed (join sep parts) = true.
Proof.
  intros Hsep. induction 1 as [|p parts Hp Hparts IH]; [reflexivity|].
  destruct parts as [|p' parts]; [exact Hp|].
  change (join sep (p :: p' :: parts)) with (p ++ sep ++ join sep (p' :: parts)).
  repeat apply well_formed_app; assumption.
Qed.

Lemma well_formed_ws t : all_ws t -> well_formed t = true.
Proof.
  intros H. apply well_formed_ascii. eapply Forall_impl; [exact H|].
  intros c Hc. unfold is_ws in Hc.
  repeat (apply orb_true_iff in Hc as [Hc|Hc]); apply N.eqb_eq in Hc; subst; reflexivity.
Qed.

Lemma well_formed_wrap opening closing stepback indent partial :
  opening < 0x80 -> closing < 0x80 -> all_ws stepback -> all_ws indent ->
  Forall (fun p => well_formed p = true) partial ->
  well_formed (wrap opening closing stepback indent partial) = true.
Proof.
  intros Ho Hc Hs Hi Hp. unfold wrap.
  assert (Hone : forall c, c < 0x80 -> well_formed [c] = true)
    by (intros c H; apply well_formed_ascii; repeat constructor; exact H).
  destruct partial as [|p partial].
  - apply (well_formed_app [opening] [closing]); auto.
  - apply (well_formed_app [opening]); [auto|].
    repeat apply well_formed_app; auto using well_formed_ws.
    apply well_formed_join; [|exact Hp].
    apply (well_formed_app [ch ","]); [reflexivity|].
    apply well_formed_app; [reflexivity|]. now apply well_formed_ws.
Qed.

(** The text of a plain value holds no surrogate on its own. *)
Lemma stringify_value_well_formed v :
  plain v = true ->
  forall indent txt,
    all_ws indent -> stringify_value indent v = Some txt -> well_formed txt = true.
Proof.
  induction v as [| |b|literal|s|elements IH|props IH] using value_ind_nested;
    cbn [plain]; intros Hp indent txt Hind Htxt; try discriminate.
  - apply (inj Some) in Htxt. subst txt. reflexivity.
  - destruct b; apply (inj Some) in Htxt; subst txt; reflexivity.
  - apply (inj Some) in Htxt. subst txt. apply well_formed_quote.
  - cbn [stringify_value] in Htxt. apply (inj Some) in Htxt. subst txt.
    assert (Hind' : all_ws (indent ++ gap))
      by (apply all_ws_app; [exact Hind|repeat constructor]).
    apply well_formed_wrap; try reflexivity; try assumption.
    clear -IH Hp Hind'. induction IH as [|e l He _ IHl]; [constructor|].
    cbn [forallb] in Hp. apply andb_true_iff in Hp as [Hpe Hpl].
    cbn [map]. constructor; [|apply IHl, Hpl].
    destruct (plain_stringify (indent ++ gap) e Hpe) as (t & Ht & _).
    rewrite Ht. apply (He Hpe _ _ Hind' Ht).
  - cbn [stringify_value] in Htxt. apply (inj Some) in Htxt. subst txt.
    apply andb_true_iff in Hp as [Hp _].
    assert (Hind' : all_ws (indent ++ gap))
      by (apply all_ws_app; [exact Hind|repeat constructor]).
    apply well_formed_wrap; try reflexivity; try assumption.
    clear -IH Hp Hind'. induction IH as [|[k e] l He _ IHl]; [constructor|].
    cbn [forallb snd] in Hp, He. apply andb_true_iff in Hp as [Hpe Hpl].
    destruct (plain_stringify (indent ++ gap) e Hpe) as (t & Ht & _).
    rewrite (member_texts_cons _ k e l t Ht). constructor; [|apply IHl, Hpl].
    apply well_formed_app; [apply well_formed_quote|].
    apply (well_formed_app [ch ":"; 0x20]); [reflexivity|].
    apply (He Hpe _ _ Hind' Ht).
Qed.

(** What [saveShoppingList] writes for a sequence of items is well-formed
    UTF-16. *)
Lemma stringify_well_formed (l : list Item) txt :
  JSON.stringify (list_value l) = Some txt -> well_formed txt = true.
Proof.
  apply (stringify_value_well_formed (list_value l) (plain_list_value l) []).
  constructor.
Qed.

End WellFormed.

(** ** Menu tokens *)

Section Tokens.

Lemma digit_val_decimal d : d < 10 -> digit_val 10 (ch "0" + d) = Some d.
Proof.
  intros H.
  assert (Hd : In d (map N.of_nat (seq 0 10))).
  { apply in_map_iff. exists (N.to_nat d). split; [lia|]. apply in_seq. lia. }
  cbn in Hd. repeat (destruct Hd as [<-|Hd]; [reflexivity|]). destruct Hd.
Qed.

Lemma read_digits_cons d acc s :
  d < 10 ->
  read_digits 10 acc ((ch "0" + d) :: s) = read_digits 10 (Some (default 0 acc * 10 + d)) s.
Proof. intros H. cbn [read_digits]. rewrite digit_val_decimal by assumption. reflexivity. Qed.

Lemma read_decimal_digits fuel n acc :
  n < 2 ^ N.of_nat (S fuel) ->
  read_digits 10 None (decimal_digits (S fuel) n acc) = read_digits 10 (Some n) acc.
Proof.
  revert n acc. induction fuel as [|fuel IH]; intros n acc Hn.
  - change (2 ^ N.of_nat 1) with 2 in Hn. cbn [decimal_digits].
    rewrite N.div_small, N.mod_small by lia. cbn [N.eqb].
    rewrite read_digits_cons by lia. reflexivity.
  - change (decimal_digits (S (S fuel)) n acc)
      with (if n / 10 =? 0 then (ch "0" + n mod 10) :: acc
            else decimal_digits (S fuel) (n / 10) ((ch "0" + n mod 10) :: acc)).
    pose proof (N.mod_lt n 10 ltac:(lia)) as Hmod.
    pose proof (N.div_mod n 10 ltac:(lia)) as Hdiv.
    destruct (n / 10 =? 0) eqn:E.
    + apply N.eqb_eq in E. rewrite read_digits_cons by assumption.
      cbn [default from_option id]. do 2 f_equal. rewrite E in Hdiv. clear -Hdiv. lia.
    + rewrite IH.
      * rewrite read_digits_cons by assumption. cbn [default from_option id].
        do 2 f_equal. clear -Hdiv. lia.
      * rewrite Nat2N.inj_succ, N.pow_succ_r' in Hn.
        set (p := 2 ^ N.of_nat (S fuel)) in *. clearbody p.
        set (q := n / 10) in *. set (r := n mod 10) in *. clearbody q r.
        clear -Hn Hdiv Hmod. lia.
Qed.

Lemma decimal_digits_are_digits fuel n acc :
  Forall (fun c => is_digit c = true) acc ->
  Forall (fun c => is_digit c = true) (decimal_digits fuel n acc).
Proof.
  revert n acc. induction fuel as [|fuel IH]; intros n acc Hacc; [exact Hacc|].
  assert (Hd : is_digit (ch "0" + n mod 10) = true).
  { pose proof (N.mod_lt n 10 ltac:(lia)) as Hr. unfold is_digit.
    change (ch "0") with 48. change (ch "9") with 57.
    set (r := n mod 10) in *. clearbody r.
    apply andb_true_iff. split; apply N.leb_le; lia. }
  cbn [decimal_digits]. destruct (n / 10 =? 0); [|apply IH]; constructor; assumption.
Qed.

Lemma digit_cases c :
  is_digit c = true -> In c (map N.of_nat (seq 48 10)).
Proof.
  unfold is_digit. intros H. apply andb_true_iff in H as [H1 H2].
  apply N.leb_le in H1, H2. change (ch "0") with 48 in H1. change (ch "9") with 57 in H2.
  apply in_map_iff. exists (N.to_nat c). split; [lia|]. apply in_seq. lia.
Qed.

(** [parseInt] of a string of decimal digits reads the digits in radix 10. *)
Lemma parseInt_digits s :
  Forall (fun c => is_digit c = true) s ->
  parseInt s = match read_digits 10 None s with
               | Some n => Int (Z.of_N n)
               | None => NaN
               end.
Proof.
  intros Hs. destruct s as [|c s]; [reflexivity|].
  apply Forall_cons in Hs as [Hc Hs]. apply digit_cases in Hc. cbn in Hc.
  assert (Hfirst : is_str_whitespace c = false /\ (c =? ch "-") = false
                   /\ (c =? ch "+") = false).
  { repeat (destruct Hc as [<-|Hc]; [repeat split; reflexivity|]). destruct Hc. }
  destruct Hfirst as (Hws & Hminus & Hplus).
  unfold parseInt. cbn [trim_start]. rewrite Hws, Hminus, Hplus.
  destruct s as [|x s]; [reflexivity|].
  apply Forall_cons in Hs as [Hx _]. apply digit_cases in Hx. cbn in Hx.
  assert (Hxx : (x =? ch "x") || (x =? ch "X") = false).
  { repeat (destruct Hx as [<-|Hx]; [reflexivity|]). destruct Hx. }
  rewrite Hxx, andb_false_r. reflexivity.
Qed.

Lemma parseInt_nat_to_string n : parseInt (nat_to_string n) = Int (Z.of_nat n).
Proof.
  unfold nat_to_string. rewrite parseInt_digits by (apply decimal_digits_are_digits; constructor).
  rewrite read_decimal_digits.
  - cbn [read_digits]. f_equal. lia.
  - rewrite Nat2N.inj_succ, N2Nat.id.
    destruct n as [|n]; [reflexivity|].
    apply N.log2_spec. lia.
Qed.

Lemma startsWith_app prefix s : startsWith (prefix ++ s) prefix = true.
Proof.
  induction prefix as [|p prefix IH]; [reflexivity|].
  cbn [app startsWith]. rewrite N.eqb_refl. exact IH.
Qed.

Lemma replace_unfold s pat repl :
  replace s pat repl
  = if startsWith s pat then repl ++ drop (length pat) s
    else match s with
         | [] => []
         | c :: s' => c :: replace s' pat repl
         end.
Proof. destruct s; reflexivity. Qed.

Lemma replace_prefix prefix s : replace (prefix ++ s) prefix [] = s.
Proof. rewrite replace_unfold, startsWith_app. cbn [app]. apply drop_app_length. Qed.

(** The token of a menu button names the position the button was made for. *)
Lemma token_index (prefix : jsstring) n :
  startsWith (prefix ++ nat_to_string n) prefix = true
  /\ parseInt (replace (prefix ++ nat_to_string n) prefix []) = Int (Z.of_nat n).
Proof.
  split; [apply startsWith_app|]. rewrite replace_prefix. apply parseInt_nat_to_string.
Qed.

End Tokens.

Section Menus.

Variable row : nat -> value -> outcome button.
Variable prefix : jsstring.
Hypothesis row_token :
  forall i item b, row i item = Return b -> callback_data b = prefix ++ nat_to_string i.

(** The button in row [n] of a menu carries the token of position [n]. *)
Lemma keyboard_of_tokens items :
  forall i kb,
    keyboard_of row i items = Return kb ->
    forall n, (n < length items)%nat ->
      exists b, kb !! n = Some [b]
                /\ callback_data b = prefix ++ nat_to_string (i + n).
Proof.
  induction items as [|item items IH]; intros i kb Hkb n Hn; [cbn in Hn; lia|].
  cbn [keyboard_of obind] in Hkb.
  destruct (row i item) as [b|e] eqn:Hb; [|discriminate]. cbn [obind] in Hkb.
  destruct (keyboard_of row (S i) items) as [rest|e] eqn:Hrest; [|discriminate].
  cbn [obind] in Hkb. injection Hkb as <-.
  destruct n as [|n].
  - exists b. split; [reflexivity|]. rewrite Nat.add_0_r. now apply (row_token i item).
  - destruct (IH (S i) rest Hrest n) as (b' & Hb' & Htok); [cbn in Hn; lia|].
    exists b'. split; [exact Hb'|]. rewrite Htok. do 2 f_equal. lia.
Qed.

End Menus.

Lemma toggle_button_token i item b :
  toggle_button i item = Return b -> callback_data b = js "toggle_" ++ nat_to_string i.
Proof.
  unfold toggle_button, obind.
  repeat match goal with
         | |- context [match ?o with Return _ => _ | Throw _ => _ end] =>
             destruct o; [|discriminate]
         end.
  intros [= <-]. reflexivity.
Qed.

Lemma remove_button_token i item b :
  remove_button i item = Return b -> callback_data b = js "remove_" ++ nat_to_string i.
Proof.
  unfold remove_button, obind.
  repeat match goal with
         | |- context [match ?o with Return _ => _ | Throw _ => _ end] =>
             destruct o; [|discriminate]
         end.
  intros [= <-]. reflexivity.
Qed.

(** The index that a press of the button in row [n] of the list menu is
    read as *)
Lemma toggle_menu_index items kb n :
  keyboard_of toggle_button 0 items = Return kb -> (n < length items)%nat ->
  exists b, kb !! n = Some [b]
            /\ startsWith (callback_data b) (js "toggle_") = true
            /\ parseInt (replace (callback_data b) (js "toggle_") []) = Int (Z.of_nat n).
Proof.
  intros Hkb Hn.
  destruct (keyboard_of_tokens toggle_button (js "toggle_") toggle_button_token
              items 0 kb Hkb n Hn) as (b & Hb & Htok).
  exists b. split; [exact Hb|]. rewrite Htok. apply token_index.
Qed.

Lemma remove_menu_index items kb n :
  keyboard_of remove_button 0 items = Return kb -> (n < length items)%nat ->
  exists b, kb !! n = Some [b]
            /\ startsWith (callback_data b) (js "remove_") = true
            /\ parseInt (replace (callback_data b) (js "remove_") []) = Int (Z.of_nat n).
Proof.
  intros Hkb Hn.
  destruct (keyboard_of_tokens remove_button (js "remove_") remove_button_token
              items 0 kb Hkb n Hn) as (b & Hb & Htok).
  exists b. split; [exact Hb|]. rewrite Htok. apply token_index.
Qed.

(** ** Remove and toggle *)

Section Actions.

Lemma map_delete {A B} (f : A -> B) n (l : list A) :
  delete n (map f l) = map f (delete n l).
Proof.
  revert n. induction l as [|x l IH]; intros [|n]; cbn; try reflexivity.
  f_equal. apply IH.
Qed.

Lemma map_insert_alter {A B} (f : A -> B) (g : A -> A) n (l : list A) x :
  l !! n = Some x -> <[n := f (g x)]> (map f l) = map f (alter g n l).
Proof.
  revert n. induction l as [|y l IH]; intros [|n] H; cbn in *; try discriminate.
  - injection H as ->. reflexivity.
  - f_equal. now apply IH.
Qed.

Lemma not_negative (i : Z) : (0 <= i)%Z -> num_lt (Int i) (Int 0) = false.
Proof. intros Hi. apply Z.ltb_ge. exact Hi. Qed.

Lemma below_length (i : Z) (l : list Item) :
  (i < Z.of_nat (length l))%Z -> num_ge (Int i) (array_length (map item_value l)) = false.
Proof.
  intros Hi. unfold num_ge, array_length. rewrite length_map. apply Z.leb_gt. exact Hi.
Qed.

Lemma beyond_length (i : Z) (l : list Item) :
  (Z.of_nat (length l) <= i)%Z -> num_ge (Int i) (array_length (map item_value l)) = true.
Proof.
  intros Hi. unfold num_ge, array_length. rewrite length_map. apply Z.leb_le. exact Hi.
Qed.

Lemma array_get_item (i : Z) (l : list Item) it :
  (0 <= i)%Z -> l !! Z.to_nat i = Some it ->
  array_get (Int i) (map item_value l) = item_value it.
Proof.
  intros Hi Hit. unfold array_get.
  replace (0 <=? i)%Z with true by (symmetry; apply Z.leb_le; lia).
  change (map item_value l) with (item_value <$> l).
  rewrite list_lookup_fmap, Hit. reflexivity.
Qed.

Lemma splice1_in_range (i : Z) (items : list value) :
  (0 <= i <= Z.of_nat (length items))%Z ->
  splice1 (Int i) items = delete (Z.to_nat i) items.
Proof.
  intros Hi. unfold splice1.
  replace (i <? 0)%Z with false by (symmetry; apply Z.ltb_ge; lia).
  rewrite Z.min_l by lia. reflexivity.
Qed.

Lemma startsWith_remove_toggle data :
  startsWith data (js "toggle_") = true -> startsWith data (js "remove_") = false.
Proof.
  destruct data as [|c data]; [discriminate|].
  cbn [startsWith js map list_ascii_of_string].
  intros H. apply andb_true_iff in H as [H _]. apply N.eqb_eq in H. subst c. reflexivity.
Qed.

Lemma get_prop_name it : get_prop (item_value it) (js "name") = Return (VStr (name it)).
Proof. reflexivity. Qed.
Lemma get_prop_quantity it : get_prop (item_value it) (js "quantity") = Return (VStr (quantity it)).
Proof. reflexivity. Qed.
Lemma get_prop_category it : get_prop (item_value it) (js "category") = Return (VStr (category it)).
Proof. reflexivity. Qed.
Lemma get_prop_checked it : get_prop (item_value it) (js "checked") = Return (VBool (checked it)).
Proof. reflexivity. Qed.
Lemma set_prop_checked it b :
  set_prop (item_value it) (js "checked") (VBool b)
  = Return (item_value {| name := name it; quantity := quantity it;
                          category := category it; checked := b |}).
Proof. reflexivity. Qed.


Lemma remove_action_in_range w l q i it :
  stores w l -> writable w = true ->
  parseInt (replace (data q) (js "remove_") []) = Int i ->
  (0 <= i)%Z -> l !! Z.to_nat i = Some it ->
  exists r w',
    remove_action q w = (r, w')
    /\ file w' = JSON.stringify (list_value (delete (Z.to_nat i) l))
    /\ writable w' = true
    /\ addItemStates w' = addItemStates w
    /\ exists more,
         requests w' = requests w ++ sendMessage (query_chat q) (removed_text it) no_options :: more.
Proof.
  intros Hst Hw Hidx Hi Hit.
  assert (Hlt : (i < Z.of_nat (length l))%Z) by (apply lookup_lt_Some in Hit; lia).
  unfold remove_action, bind.
  rewrite (load_stores w l Hst), Hidx, (not_negative i Hi), get_items_list_value,
    (below_length i l Hlt).
  rewrite splice1_in_range by (rewrite length_map; lia).
  rewrite map_delete, (save_items w _ Hw), (array_get_item i l it Hi Hit).
  unfold lift. rewrite get_prop_category. cbn [category_glyph to_string obind].
  rewrite get_prop_name. cbn [to_string].
  fold (removed_text it).
  unfold bot_sendMessage, bot_answerCallbackQuery, request, bind, ret.
  cbn [transport set_file set_requests set_transport requests].
  destruct (transport w) as [|[e|] [|[e'|] t]]; cbn [tail];
    eexists _, _; (split; [reflexivity|]); cbn [file writable addItemStates requests set_file];
    repeat split; try assumption; eexists; try reflexivity.
  all: cbn [requests set_transport set_requests set_file transport tail];
    rewrite <- app_assoc; reflexivity.
Qed.


Lemma remove_action_out_of_range w l q i :
  stores w l ->
  parseInt (replace (data q) (js "remove_") []) = Int i ->
  (i < 0 \/ Z.of_nat (length l) <= i)%Z ->
  exists r,
    remove_action q w
    = (r, set_transport (tail (transport w))
            (set_requests (requests w ++ [answerCallbackQuery (query_id q) stale_alert]) w)).
Proof.
  intros Hst Hidx Hi.
  unfold remove_action, bind. rewrite (load_stores w l Hst), Hidx.
  destruct (num_lt (Int i) (Int 0)) eqn:Hneg.
  - unfold bot_answerCallbackQuery, request.
    destruct (transport w) as [|[e|] t]; eexists; reflexivity.
  - apply Z.ltb_ge in Hneg.
    rewrite get_items_list_value, (beyond_length i l) by lia.
    unfold bot_answerCallbackQuery, request.
    destruct (transport w) as [|[e|] t]; eexists; reflexivity.
Qed.

Lemma remove_action_nan w l q :
  stores w l -> writable w = true ->
  parseInt (replace (data q) (js "remove_") []) = NaN ->
  remove_action q w
  = (Throw (TypeError (js "Cannot read properties of undefined")),
     set_file (JSON.stringify (list_value (tail l))) w).
Proof.
  intros Hst Hw Hidx.
  unfold remove_action, bind. rewrite (load_stores w l Hst), Hidx.
  cbn [num_lt]. rewrite get_items_list_value. cbn [num_ge array_get].
  replace (splice1 NaN (map item_value l)) with (map item_value (tail l))
    by (destruct l; reflexivity).
  rewrite (save_items w _ Hw). reflexivity.
Qed.

Lemma toggle_button_item n it : exists b, toggle_button n (item_value it) = Return b.
Proof. eexists. reflexivity. Qed.

Lemma keyboard_of_items n l : exists kb, keyboard_of toggle_button n (map item_value l) = Return kb.
Proof.
  revert n. induction l as [|it l IH]; intros n; [eexists; reflexivity|].
  destruct (IH (S n)) as [kb Hkb]. destruct (toggle_button_item n it) as [b Hb].
  cbn [map keyboard_of]. rewrite Hb, Hkb. eexists. reflexivity.
Qed.

Lemma toggle_checked_item i l it :
  (0 <= i)%Z -> l !! Z.to_nat i = Some it ->
  toggle_checked (Int i) (map item_value l)
  = Return (map item_value (alter toggle (Z.to_nat i) l)).
Proof.
  intros Hi Hit. unfold toggle_checked.
  rewrite (array_get_item i l it Hi Hit), get_prop_checked.
  cbn [obind to_boolean]. rewrite set_prop_checked. cbn [obind].
  f_equal. apply (map_insert_alter item_value toggle _ l it Hit).
Qed.

Lemma toggle_action_in_range w l q i it :
  stores w l -> writable w = true ->
  parseInt (replace (data q) (js "toggle_") []) = Int i ->
  (0 <= i)%Z -> l !! Z.to_nat i = Some it ->
  exists r w',
    toggle_action q w = (r, w')
    /\ file w' = JSON.stringify (list_value (alter toggle (Z.to_nat i) l))
    /\ writable w' = true
    /\ addItemStates w' = addItemStates w.
Proof.
  intros Hst Hw Hidx Hi Hit.
  assert (Hlt : (i < Z.of_nat (length l))%Z) by (apply lookup_lt_Some in Hit; lia).
  unfold toggle_action, bind.
  rewrite (load_stores w l Hst), Hidx, (not_negative i Hi), get_items_list_value,
    (below_length i l Hlt).
  unfold lift at 1. rewrite (toggle_checked_item i l it Hi Hit).
  rewrite (save_items w _ Hw).
  unfold lift at 1.
  destruct (keyboard_of_items 0 (alter toggle (Z.to_nat i) l)) as [kb ->].
  assert (Hit' : alter toggle (Z.to_nat i) l !! Z.to_nat i = Some (toggle it))
    by (rewrite list_lookup_alter_eq, Hit; reflexivity).
  rewrite (array_get_item i _ _ Hi Hit').
  unfold lift. rewrite get_prop_name, get_prop_checked. cbn [to_string to_boolean].
  unfold bot_editMessageText, bot_answerCallbackQuery, request.
  cbn [transport set_file set_requests set_transport requests].
  destruct (transport w) as [|[e|] [|[e'|] t]]; cbn [tail];
    eexists _, _; (split; [reflexivity|]); cbn [file writable addItemStates set_file];
    repeat split; assumption.
Qed.

Lemma toggle_action_nan w l q :
  stores w l ->
  parseInt (replace (data q) (js "toggle_") []) = NaN ->
  toggle_action q w = (Throw (TypeError (js "Cannot read properties of undefined")), w).
Proof.
  intros Hst Hidx.
  unfold toggle_action, bind. rewrite (load_stores w l Hst), Hidx.
  reflexivity.
Qed.

End Actions.

Lemma stores_of_file w l : file w = JSON.stringify (list_value l) -> stores w l.
Proof.
  intros H. destruct (stringify_list_value l) as [txt Htxt]. exists txt.
  split; [congruence|]. apply parse_stringify; [apply plain_list_value|exact Htxt].
Qed.

Lemma stores_same_file w w' l : file w' = file w -> stores w l -> stores w' l.
Proof. intros H (d & Hd & Hp). exists d. split; [congruence|exact Hp]. Qed.

Lemma on_item_action_remove q :
  startsWith (data q) (js "remove_") = true -> on_item_action q = remove_action q.
Proof. intros H. unfold on_item_action. rewrite H. reflexivity. Qed.

Lemma on_item_action_toggle q :
  startsWith (data q) (js "toggle_") = true -> on_item_action q = toggle_action q.
Proof.
  intros H. unfold on_item_action. rewrite (startsWith_remove_toggle _ H), H. reflexivity.
Qed.

(** C2.  RemoveAt.  A [remove_] button whose index reads as the integer [i]
    is pressed while the file holds [l].  If [i] is outside [0, length l),
    the file is left as it is, still holds [l], and the one request made
    is the alert "This item no longer exists in the list".  If [i] is a
    position of [l], then (on a disk that can be written) the file holds
    afterwards the items before [i] followed by the items after [i], one
    item fewer, and the first request made is a confirmation, sent as a
    plain text to the chat of the press.  The confirmation names the item
    that was at position [i] and shows the glyph of its category, for a
    category that is no name inherited from Object.prototype (see
    [inherited_names]; under such a name [categories[key]] is the
    inherited member, whose text this development does not follow). *)
Theorem remove_at_bounds (w : World) (l : list Item) (query : CallbackQuery) (i : Z) :
  stores w l ->
  startsWith (data query) (js "remove_") = true ->
  parseInt (replace (data query) (js "remove_") []) = Int i ->
  let after := (on_item_action query w).2 in
  ((i < 0 \/ Z.of_nat (length l) <= i)%Z ->
     stores after l /\ file after = file w
     /\ requests after = requests w ++ [answerCallbackQuery (query_id query) stale_alert])
  /\ ((0 <= i < Z.of_nat (length l))%Z -> writable w = true ->
        exists removedItem remaining,
          l !! Z.to_nat i = Some removedItem
          /\ remaining = take (Z.to_nat i) l ++ drop (S (Z.to_nat i)) l
          /\ stores after remaining
          /\ S (length remaining) = length l
          /\ exists confirmation more,
               requests after
               = requests w
                   ++ sendMessage (query_chat query) confirmation no_options :: more
               /\ (own_key (category removedItem) = true ->
                   confirmation = removed_text removedItem)).
Proof.
  intros Hst Hdata Hidx after. subst after.
  rewrite (on_item_action_remove query Hdata). split.
  - intros Hi. destruct (remove_action_out_of_range w l query i Hst Hidx Hi) as [r ->].
    cbn [snd]. split; [|split; reflexivity].
    eapply stores_same_file; [|exact Hst]. reflexivity.
  - intros [Hi Hlt] Hw.
    destruct (lookup_lt_is_Some_2 l (Z.to_nat i) ltac:(lia)) as [it Hit].
    destruct (remove_action_in_range w l query i it Hst Hw Hidx Hi Hit)
      as (r & w' & -> & Hfile & _ & _ & more & Hreq).
    cbn [snd]. exists it, (delete (Z.to_nat i) l).
    split; [exact Hit|]. split; [apply delete_take_drop|].
    split; [apply stores_of_file, Hfile|].
    split; [|exists (removed_text it), more; split; [exact Hreq|reflexivity]].
    rewrite length_delete by eauto. apply lookup_lt_Some in Hit. lia.
Qed.

(** C3.  An index that reads as NaN passes the bounds check: both
    comparisons are false for every array.  A [remove_] press with such an
    index then makes no request (no alert), removes the first item of the
    list on disk and ends in a TypeError; a [toggle_] press with such an
    index ends in the TypeError of reading a property of undefined and
    changes nothing. *)
Theorem nan_index_passes_validation (w : World) (l : list Item) (query : CallbackQuery) :
  stores w l ->
  (forall items, num_lt NaN (Int 0) || num_ge NaN (array_length items) = false)
  /\ (startsWith (data query) (js "remove_") = true ->
      parseInt (replace (data query) (js "remove_") []) = NaN ->
      writable w = true ->
      exists after,
        on_item_action query w
        = (Throw (TypeError (js "Cannot read properties of undefined")), after)
        /\ requests after = requests w
        /\ stores after (tail l))
  /\ (startsWith (data query) (js "toggle_") = true ->
      parseInt (replace (data query) (js "toggle_") []) = NaN ->
      on_item_action query w
      = (Throw (TypeError (js "Cannot read properties of undefined")), w)).
Proof.
  intros Hst. split; [reflexivity|]. split.
  - intros Hdata Hidx Hw. rewrite (on_item_action_remove query Hdata).
    rewrite (remove_action_nan w l query Hst Hw Hidx).
    eexists. split; [reflexivity|]. split; [reflexivity|].
    apply stores_of_file. reflexivity.
  - intros Hdata Hidx. rewrite (on_item_action_toggle query Hdata).
    apply (toggle_action_nan w l query Hst Hidx).
Qed.

(** C5.  ToggleCheckedAt twice.  A [toggle_] button for the position [i],
    which holds the item [it], is pressed twice.  After the first press
    the item stored at [i] has the opposite checked flag; after the second
    the file holds the original sequence again, so the item has its
    original flag. *)
Theorem toggle_twice (w : World) (l : list Item) (query : CallbackQuery) (i : Z) (it : Item) :
  stores w l -> writable w = true ->
  startsWith (data query) (js "toggle_") = true ->
  parseInt (replace (data query) (js "toggle_") []) = Int i ->
  (0 <= i)%Z -> l !! Z.to_nat i = Some it ->
  let once := (on_item_action query w).2 in
  let twice := (on_item_action query once).2 in
  (exists l1, stores once l1
              /\ checked <$> l1 !! Z.to_nat i = Some (negb (checked it)))
  /\ stores twice l.
Proof.
  intros Hst Hw Hdata Hidx Hi Hit once twice. subst once twice.
  rewrite (on_item_action_toggle query Hdata).
  destruct (toggle_action_in_range w l query i it Hst Hw Hidx Hi Hit)
    as (r & w1 & -> & Hfile & Hw1 & _).
  cbn [snd]. pose proof (stores_of_file _ _ Hfile) as Hst1.
  assert (Hit1 : alter toggle (Z.to_nat i) l !! Z.to_nat i = Some (toggle it))
    by (rewrite list_lookup_alter_eq, Hit; reflexivity).
  split; [eexists; split; [exact Hst1|rewrite Hit1; reflexivity]|].
  destruct (toggle_action_in_range w1 _ query i _ Hst1 Hw1 Hidx Hi Hit1)
    as (r2 & w2 & -> & Hfile2 & _ & _).
  cbn [snd]. apply stores_of_file. rewrite Hfile2. do 2 f_equal.
  rewrite list_alter_alter_eq. apply list_alter_id.
  intros [n q c []]; reflexivity.
Qed.

(** C10.  ToggleCheckedAt changes the checked flag and nothing else.  The
    sequence saved by a [toggle_] press on position [i] has the length of
    the one loaded; at [i] it holds the item with the same name, quantity
    and category and the opposite flag; at every other position it holds
    the item that was there. *)
Theorem toggle_frame (w : World) (l : list Item) (query : CallbackQuery) (i : Z) (it : Item) :
  stores w l -> writable w = true ->
  startsWith (data query) (js "toggle_") = true ->
  parseInt (replace (data query) (js "toggle_") []) = Int i ->
  (0 <= i)%Z -> l !! Z.to_nat i = Some it ->
  exists saved,
    stores (on_item_action query w).2 saved
    /\ length saved = length l
    /\ saved !! Z.to_nat i
       = Some {| name := name it; quantity := quantity it; category := category it;
                 checked := negb (checked it) |}
    /\ forall j, j <> Z.to_nat i -> saved !! j = l !! j.
Proof.
  intros Hst Hw Hdata Hidx Hi Hit.
  rewrite (on_item_action_toggle query Hdata).
  destruct (toggle_action_in_range w l query i it Hst Hw Hidx Hi Hit)
    as (r & w1 & -> & Hfile & _ & _).
  cbn [snd]. exists (alter toggle (Z.to_nat i) l).
  split; [apply stores_of_file, Hfile|].
  split; [apply length_alter|].
  split; [rewrite list_lookup_alter_eq, Hit; reflexivity|].
  intros j Hj. apply list_lookup_alter_ne. congruence.
Qed.

(** ** What a handler leaves alone *)

Section Frame.

Context {T : Type} (proj : World -> T).

Lemma preserves_ret {A} (a : A) : preserves proj (ret a).
Proof. intros w. reflexivity. Qed.

Lemma preserves_throw {A} e : preserves proj (@throw A e).
Proof. intros w. reflexivity. Qed.

Lemma preserves_lift {A} (o : outcome A) : preserves proj (lift o).
Proof. intros w. reflexivity. Qed.

Lemma preserves_bind {A B} (c : M A) (k : A -> M B) :
  preserves proj c -> (forall a, preserves proj (k a)) -> preserves proj (bind c k).
Proof.
  intros Hc Hk w. unfold bind. specialize (Hc w).
  destruct (c w) as [[a|e] w']; cbn [snd] in *; [|exact Hc].
  rewrite (Hk a w'). exact Hc.
Qed.

Lemma preserves_try_catch {A} (c : M A) (h : error -> M A) :
  preserves proj c -> (forall e, preserves proj (h e)) -> preserves proj (try_catch c h).
Proof.
  intros Hc Hh w. unfold try_catch. specialize (Hc w).
  destruct (c w) as [[a|e] w']; cbn [snd] in *; [exact Hc|].
  rewrite (Hh e w'). exact Hc.
Qed.

Lemma preserves_run_handler (h : M unit) :
  (forall u w, proj (set_unhandled u w) = proj w) ->
  preserves proj h -> forall w, proj (run_handler h w) = proj w.
Proof.
  intros Hu Hh w. unfold run_handler. specialize (Hh w).
  destruct (h w) as [[a|e] w']; cbn [snd] in *; [exact Hh|]. rewrite Hu. exact Hh.
Qed.

(** The parts of the world that the transport and the log do not hold *)
Hypothesis proj_requests : forall r w, proj (set_requests r w) = proj w.
Hypothesis proj_transport : forall t w, proj (set_transport t w) = proj w.
Hypothesis proj_log : forall l w, proj (set_log l w) = proj w.

Lemma preserves_request c : preserves proj (request c).
Proof.
  intros w. unfold request.
  destruct (transport w) as [|[e|] t]; cbn [snd]; now rewrite proj_transport, proj_requests.
Qed.

Lemma preserves_logger_error line : preserves proj (logger_error line).
Proof. intros w. unfold logger_error. cbn [snd]. apply proj_log. Qed.

Lemma preserves_fs_readFile : preserves proj fs_readFile.
Proof. intros w. unfold fs_readFile. destruct (file w); reflexivity. Qed.

Lemma preserves_JSON_parse data : preserves proj (JSON_parse data).
Proof. intros w. unfold JSON_parse. destruct (JSON.parse data); reflexivity. Qed.

Lemma preserves_get_items v : preserves proj (get_items v).
Proof.
  intros w. unfold get_items. destruct v as [| | | | | |props]; try reflexivity.
  destruct (obj_get (js "items") props); reflexivity.
Qed.

Lemma preserves_addItemStates_get chatId : preserves proj (addItemStates_get chatId).
Proof. intros w. reflexivity. Qed.

End Frame.

Create HintDb frame.

#[export] Hint Resolve preserves_ret preserves_throw preserves_lift preserves_request
  preserves_logger_error preserves_fs_readFile preserves_JSON_parse preserves_get_items
  preserves_addItemStates_get : frame.

(** Decompose a handler along its binds, catches and branches. *)
Ltac frame :=
  repeat first
    [ progress intros
    | apply preserves_bind
    | apply preserves_try_catch
    | match goal with
      | |- preserves _ (if ?b then _ else _) => destruct b
      | |- preserves _ (match ?x with _ => _ end) => destruct x
      end
    | solve [eauto with frame] ].

Section Handlers.

Context {T : Type} (proj : World -> T).
Hypothesis proj_requests : forall r w, proj (set_requests r w) = proj w.
Hypothesis proj_transport : forall t w, proj (set_transport t w) = proj w.
Hypothesis proj_log : forall l w, proj (set_log l w) = proj w.

Local Hint Resolve proj_requests proj_transport proj_log : frame.

Lemma preserves_loadShoppingList : preserves proj loadShoppingList.
Proof. unfold loadShoppingList. frame. Qed.

Lemma preserves_bot_sendMessage chatId text options :
  preserves proj (bot_sendMessage chatId text options).
Proof. unfold bot_sendMessage. frame. Qed.

Lemma preserves_safeSendMessage chatId text options :
  preserves proj (safeSendMessage chatId text options).
Proof. unfold safeSendMessage. pose proof preserves_bot_sendMessage. frame. Qed.

Lemma preserves_on_start msg : preserves proj (on_start msg).
Proof. unfold on_start. pose proof preserves_safeSendMessage. frame. Qed.

Lemma preserves_on_help msg : preserves proj (on_help msg).
Proof. unfold on_help. pose proof preserves_safeSendMessage. frame. Qed.

Lemma preserves_on_categories msg : preserves proj (on_categories msg).
Proof. unfold on_categories. pose proof preserves_safeSendMessage. frame. Qed.

Lemma preserves_on_list msg : preserves proj (on_list msg).
Proof.
  unfold on_list.
  pose proof preserves_safeSendMessage. pose proof preserves_bot_sendMessage.
  pose proof preserves_loadShoppingList. frame.
Qed.

Lemma preserves_on_remove msg : preserves proj (on_remove msg).
Proof.
  unfold on_remove.
  pose proof preserves_bot_sendMessage. pose proof preserves_loadShoppingList. frame.
Qed.

End Handlers.

Section Commands.

Lemma preserves_file_on_add msg : preserves file (on_add msg).
Proof.
  unfold on_add. pose proof (preserves_bot_sendMessage file). frame.
  intros w. reflexivity.
Qed.

Lemma preserves_states_on_clear msg : preserves addItemStates (on_clear msg).
Proof.
  unfold on_clear, saveShoppingList. pose proof (preserves_bot_sendMessage addItemStates).
  frame. intros w. unfold fs_writeFile. destruct (writable w); reflexivity.
Qed.

Lemma on_add_states msg w :
  addItemStates (on_add msg w).2 = <[msg_chat msg := start_state]> (addItemStates w).
Proof.
  unfold on_add, bind, addItemStates_set, bot_sendMessage, bind, request.
  cbn [transport set_addItemStates].
  destruct (transport w) as [|[e|] t]; reflexivity.
Qed.

Lemma on_clear_file msg w :
  file (on_clear msg w).2 = file w
  \/ file (on_clear msg w).2 = JSON.stringify (list_value []).
Proof.
  unfold on_clear, bind, saveShoppingList, try_catch, fs_writeFile.
  change (JSON.stringify (VObj [(js "items", VArr [])])) with (JSON.stringify (list_value [])).
  destruct (stringify_list_value []) as [txt Htxt]. rewrite Htxt.
  destruct (writable w).
  - right. rewrite <- Htxt.
    unfold bot_sendMessage, bind, request. cbn [transport set_file].
    destruct (transport w) as [|[e|] t]; reflexivity.
  - left. unfold logger_error, bot_sendMessage, bind, request. cbn [transport set_log].
    destruct (transport w) as [|[e|] t]; reflexivity.
Qed.

Lemma try_command_preserves {T} (proj : World -> T) msg text pattern handler w :
  (forall u w, proj (set_unhandled u w) = proj w) ->
  preserves proj (handler msg) ->
  proj (try_command msg text pattern handler w) = proj w.
Proof.
  intros Hu Hh. unfold try_command. destruct (includes text pattern); [|reflexivity].
  now apply preserves_run_handler.
Qed.

Lemma run_commands_unfold msg text w :
  msg_text msg = Some text ->
  run_commands msg w
  = try_command msg text (js "/clear") on_clear
      (try_command msg text (js "/remove") on_remove
         (try_command msg text (js "/add") on_add
            (try_command msg text (js "/list") on_list
               (try_command msg text (js "/categories") on_categories
                  (try_command msg text (js "/help") on_help
                     (try_command msg text (js "/start") on_start w)))))).
Proof. intros H. unfold run_commands. rewrite H. reflexivity. Qed.

End Commands.

Ltac frame_commands :=
  repeat (rewrite try_command_preserves;
          [|reflexivity
           |first [apply preserves_on_start|apply preserves_on_help
                  |apply preserves_on_categories|apply preserves_on_list
                  |apply preserves_on_remove|apply preserves_file_on_add
                  |apply preserves_states_on_clear]; reflexivity]).

Section CommandFrame.

Lemma try_clear_file msg text x :
  let w' := try_command msg text (js "/clear") on_clear x in
  (file w' = file x \/ file w' = JSON.stringify (list_value []))
  /\ (includes text (js "/clear") = false -> file w' = file x).
Proof.
  cbv zeta. unfold try_command. destruct (includes text (js "/clear")).
  - split; [|discriminate]. unfold run_handler.
    pose proof (on_clear_file msg x) as H.
    destruct (on_clear msg x) as [[[]|e] w1]; exact H.
  - split; [now left|reflexivity].
Qed.

Lemma try_add_states msg text x :
  let w' := try_command msg text (js "/add") on_add x in
  (addItemStates w' = addItemStates x
   \/ addItemStates w' = <[msg_chat msg := start_state]> (addItemStates x))
  /\ (includes text (js "/add") = false -> addItemStates w' = addItemStates x).
Proof.
  cbv zeta. unfold try_command. destruct (includes text (js "/add")).
  - split; [right|discriminate]. unfold run_handler.
    pose proof (on_add_states msg x) as H.
    destruct (on_add msg x) as [[[]|e] w1]; exact H.
  - split; [now left|reflexivity].
Qed.

(** What the commands in a text can do to the list file and to the
    conversation states: only /clear writes the file, and it writes the
    empty list; only /add changes a state, and it sets the start state. *)
Lemma run_commands_frame msg w :
  let w' := run_commands msg w in
  (file w' = file w \/ file w' = JSON.stringify (list_value []))
  /\ (addItemStates w' = addItemStates w
      \/ addItemStates w' = <[msg_chat msg := start_state]> (addItemStates w))
  /\ (forall text, msg_text msg = Some text ->
        (includes text (js "/clear") = false -> file w' = file w)
        /\ (includes text (js "/add") = false -> addItemStates w' = addItemStates w)).
Proof.
  intros w'. subst w'. destruct (msg_text msg) as [text|] eqn:Htext.
  2: { unfold run_commands. rewrite Htext. split; [now left|]. split; [now left|].
       intros text [=]. }
  rewrite (run_commands_unfold msg text w Htext).
  match goal with |- context [try_command msg text (js "/clear") on_clear ?x] =>
    set (beforeClear := x) end.
  assert (Hf0 : file beforeClear = file w) by (subst beforeClear; frame_commands; reflexivity).
  destruct (try_clear_file msg text beforeClear) as [Hf1 Hf2]. rewrite Hf0 in Hf1, Hf2.
  assert (Hs0 : addItemStates (try_command msg text (js "/clear") on_clear beforeClear)
               = addItemStates (try_command msg text (js "/add") on_add
                   (try_command msg text (js "/list") on_list
                      (try_command msg text (js "/categories") on_categories
                         (try_command msg text (js "/help") on_help
                            (try_command msg text (js "/start") on_start w))))))
    by (subst beforeClear; frame_commands; reflexivity).
  match type of Hs0 with _ = addItemStates (try_command _ _ _ on_add ?x) =>
    set (beforeAdd := x) in * end.
  assert (Hs1 : addItemStates beforeAdd = addItemStates w)
    by (subst beforeAdd; frame_commands; reflexivity).
  destruct (try_add_states msg text beforeAdd) as [Hs2 Hs3].
  rewrite Hs1 in Hs2, Hs3. rewrite <- Hs0 in Hs2, Hs3.
  split; [exact Hf1|]. split; [exact Hs2|].
  intros t [= <-]. split; assumption.
Qed.

End CommandFrame.

(** ** The add-item dialogue *)

Section Dialogue.

Lemma request_delivers c w :
  delivers w ->
  request c w
  = (Return tt, set_transport (tail (transport w)) (set_requests (requests w ++ [c]) w)).
Proof.
  unfold delivers, request. intros H.
  destruct (transport w) as [|[e|] t]; try reflexivity.
  apply Forall_cons in H as [H _]. discriminate.
Qed.

Lemma delivers_tail w w' : delivers w -> transport w' = tail (transport w) -> delivers w'.
Proof.
  unfold delivers. intros H ->. destruct (transport w); [constructor|].
  apply Forall_cons in H as [_ H]. exact H.
Qed.

Lemma on_message_command w msg :
  is_command_text (msg_text msg) = true -> on_message msg w = (Return tt, w).
Proof.
  intros H. unfold on_message, bind, addItemStates_get.
  destruct (addItemStates w !! msg_chat msg); [rewrite H|]; reflexivity.
Qed.

Lemma on_message_no_state w msg :
  addItemStates w !! msg_chat msg = None -> on_message msg w = (Return tt, w).
Proof. intros H. unfold on_message, bind, addItemStates_get. rewrite H. reflexivity. Qed.

Lemma on_message_no_category w msg st :
  addItemStates w !! msg_chat msg = Some st ->
  state st = awaiting_name -> truthy (st_category st) = false ->
  on_message msg w = (Return tt, w).
Proof.
  intros Hst Hph Hcat. unfold on_message, bind, addItemStates_get.
  rewrite Hst, Hph, Hcat. destruct (is_command_text (msg_text msg)); reflexivity.
Qed.

Lemma run_commands_none w msg :
  matches_command (msg_text msg) = false -> run_commands msg w = w.
Proof.
  unfold matches_command, run_commands. destruct (msg_text msg) as [t|]; [|reflexivity].
  unfold commands. cbn [existsb fold_left fst].
  intros H. repeat (apply orb_false_iff in H as [-> H]). reflexivity.
Qed.

End Dialogue.

(** C7.  The add command sets the state of the chat to [awaiting_name]
    with no category and no name, whatever the transport answers.  While a
    chat is in [awaiting_name] without a category, the ['message']
    listener returns with the world as it was; for a text that matches no
    command expression the whole update leaves the world as it was. *)
Theorem add_starts_without_category (w : World) (msg : Message) :
  addItemStates (on_add msg w).2
  = <[msg_chat msg := {| state := awaiting_name; st_category := None; st_name := None |}]>
      (addItemStates w)
  /\ forall st,
       addItemStates w !! msg_chat msg = Some st ->
       state st = awaiting_name -> st_category st = None ->
       on_message msg w = (Return tt, w)
       /\ (matches_command (msg_text msg) = false -> processUpdate (message msg) w = w).
Proof.
  split.
  - unfold on_add, bind, addItemStates_set, bot_sendMessage, bind, request.
    cbn [transport set_addItemStates].
    destruct (transport w) as [|[e|] t]; reflexivity.
  - intros st Hst Hph Hcat.
    assert (Hm : on_message msg w = (Return tt, w))
      by (apply (on_message_no_category w msg st Hst Hph); rewrite Hcat; reflexivity).
    split; [exact Hm|]. intros Hc.
    unfold processUpdate, run_handler. rewrite Hm. apply run_commands_none, Hc.
Qed.

Section Scenario.

Lemma request_accept c w : delivers w -> request c w = (Return tt, accept c w).
Proof. apply request_delivers. Qed.

Lemma delivers_accept c w : delivers w -> delivers (accept c w).
Proof. intros H. eapply delivers_tail; [exact H|reflexivity]. Qed.

Lemma on_add_delivers w msg :
  delivers w ->
  exists w',
    on_add msg w = (Return tt, w') /\ agree w w' /\ delivers w'
    /\ addItemStates w'
       = <[msg_chat msg := {| state := awaiting_name; st_category := None; st_name := None |}]>
           (addItemStates w).
Proof.
  intros Hd. unfold on_add, bind, addItemStates_set, bot_sendMessage, bind.
  rewrite request_accept by exact Hd.
  eexists. split; [reflexivity|]. split; [repeat split|].
  split; [apply delivers_accept; exact Hd|reflexivity].
Qed.

Lemma on_category_delivers w q :
  delivers w -> startsWith (data q) (js "category_") = true ->
  exists w',
    on_category q w = (Return tt, w') /\ agree w w' /\ delivers w'
    /\ addItemStates w'
       = <[query_chat q := {| state := awaiting_name;
                              st_category := Some (replace (data q) (js "category_") []);
                              st_name := None |}]>
           (addItemStates w).
Proof.
  intros Hd Hdata. unfold on_category. rewrite Hdata.
  unfold bind, addItemStates_set, bot_sendMessage, bot_answerCallbackQuery, bind.
  rewrite request_accept by exact Hd. unfold ret.
  rewrite request_accept by (apply delivers_accept; exact Hd).
  eexists. split; [reflexivity|]. split; [repeat split|].
  split; [do 2 apply delivers_accept; exact Hd|reflexivity].
Qed.

Lemma on_message_name w msg st :
  delivers w ->
  addItemStates w !! msg_chat msg = Some st ->
  state st = awaiting_name -> truthy (st_category st) = true ->
  is_command_text (msg_text msg) = false ->
  exists w',
    on_message msg w = (Return tt, w') /\ agree w w' /\ delivers w'
    /\ addItemStates w'
       = <[msg_chat msg := {| state := awaiting_quantity;
                              st_category := st_category st;
                              st_name := msg_text msg |}]>
           (addItemStates w).
Proof.
  intros Hd Hst Hph Hcat Htext.
  unfold on_message, bind, addItemStates_get. rewrite Hst, Htext, Hph, Hcat.
  unfold addItemStates_set, bot_sendMessage, bind.
  rewrite request_accept by exact Hd.
  eexists. split; [reflexivity|]. split; [repeat split|].
  split; [apply delivers_accept; exact Hd|reflexivity].
Qed.

Lemma on_message_quantity w msg st l n q c :
  delivers w -> stores w l -> writable w = true ->
  addItemStates w !! msg_chat msg = Some st ->
  state st = awaiting_quantity ->
  st_name st = Some n -> st_category st = Some c -> msg_text msg = Some q ->
  is_command_text (msg_text msg) = false ->
  exists w',
    on_message msg w = (Return tt, w')
    /\ file w' = JSON.stringify
                   (list_value (l ++ [{| name := n; quantity := q; category := c;
                                         checked := false |}]))
    /\ writable w' = true /\ log w' = log w /\ unhandled w' = unhandled w
    /\ delivers w'
    /\ addItemStates w' = delete (msg_chat msg) (addItemStates w).
Proof.
  intros Hd Hl Hw Hst Hph Hn Hc Hq Htext.
  unfold on_message, bind, addItemStates_get. rewrite Hst, Htext, Hph.
  rewrite (load_stores w l Hl), get_items_list_value, Hn, Hc, Hq.
  cbn [of_option].
  change (map item_value l ++ [VObj [(js "name", VStr n); (js "quantity", VStr q);
                                     (js "category", VStr c); (js "checked", VBool false)]])
    with (map item_value l
            ++ map item_value [{| name := n; quantity := q; category := c; checked := false |}]).
  rewrite <- map_app, (save_items w _ Hw).
  unfold bot_sendMessage, bind. rewrite request_accept by exact Hd.
  unfold ret, addItemStates_delete.
  eexists. split; [reflexivity|]. repeat (split; [first [reflexivity|assumption]|]).
  split; [|reflexivity].
  eapply delivers_tail; [exact Hd|reflexivity].
Qed.


Lemma run_commands_add w msg :
  msg_text msg = Some (js "/add") -> run_commands msg w = run_handler (on_add msg) w.
Proof. intros H. unfold run_commands. rewrite H. reflexivity. Qed.

Lemma agree_stores w w' l : agree w w' -> stores w l -> stores w' l.
Proof. intros (Hf & _). now apply stores_same_file. Qed.

End Scenario.

(** C1.  The conversation flow scenario.  In a chat without conversation
    state, with a list file that holds [l], a disk that can be written and
    a transport that accepts every request, the events /add, the press of
    the fruits button, the text "Apples" and the text "6" leave the file
    holding [l] followed by the one item Apples, 6, fruits, unchecked; the
    chat has no conversation state again (the map is the one before), and
    no handler has thrown. *)
Theorem add_flow_scenario (w : World) (l : list Item) (chat : Z)
    (queryId : jsstring) (messageId : Z) :
  stores w l -> writable w = true -> delivers w ->
  addItemStates w !! chat = None ->
  let after := run (add_apples chat queryId messageId) w in
  stores after (l ++ [apples])
  /\ addItemStates after !! chat = None
  /\ addItemStates after = addItemStates w
  /\ unhandled after = unhandled w.
Proof.
  intros Hl Hw Hd Hnone after. subst after.
  unfold run, add_apples. cbn [fold_left].
  (* /add *)
  set (m1 := {| msg_chat := chat; msg_text := Some (js "/add") |}).
  assert (H1 : exists w1, processUpdate (message m1) w = w1 /\ agree w w1 /\ delivers w1
             /\ addItemStates w1
                = <[chat := {| state := awaiting_name; st_category := None; st_name := None |}]>
                    (addItemStates w)).
  { unfold processUpdate, run_handler.
    rewrite (on_message_no_state w m1 Hnone), (run_commands_add w m1 eq_refl).
    destruct (on_add_delivers w m1 Hd) as (w1 & Hrun & Hag & Hd1 & Hs1).
    unfold run_handler. rewrite Hrun. eauto. }
  destruct H1 as (w1 & -> & Hag1 & Hd1 & Hs1).
  (* the fruits button *)
  set (q := {| query_id := queryId; query_chat := chat; query_message_id := messageId;
               data := js "category_fruits" |}).
  assert (H2 : exists w2, processUpdate (callback_query q) w1 = w2 /\ agree w1 w2 /\ delivers w2
             /\ addItemStates w2
                = <[chat := {| state := awaiting_name; st_category := Some (js "fruits");
                               st_name := None |}]> (addItemStates w1)).
  { destruct (on_category_delivers w1 q Hd1 eq_refl) as (w2 & Hrun & Hag & Hd2 & Hs2).
    unfold processUpdate, run_handler. rewrite Hrun.
    change (on_item_action q w2) with (Return tt, w2). eauto. }
  destruct H2 as (w2 & -> & Hag2 & Hd2 & Hs2).
  (* Apples *)
  set (m3 := {| msg_chat := chat; msg_text := Some (js "Apples") |}).
  assert (H3 : exists w3, processUpdate (message m3) w2 = w3 /\ agree w2 w3 /\ delivers w3
             /\ addItemStates w3
                = <[chat := {| state := awaiting_quantity; st_category := Some (js "fruits");
                               st_name := Some (js "Apples") |}]> (addItemStates w2)).
  { edestruct (on_message_name w2 m3) as (w3 & Hrun & Hag & Hd3 & Hs3);
      [exact Hd2|rewrite Hs2; apply lookup_insert_eq|reflexivity..|].
    unfold processUpdate, run_handler. rewrite Hrun.
    rewrite run_commands_none by reflexivity. eauto. }
  destruct H3 as (w3 & -> & Hag3 & Hd3 & Hs3).
  (* 6 *)
  set (m4 := {| msg_chat := chat; msg_text := Some (js "6") |}).
  assert (Hl3 : stores w3 l) by eauto using agree_stores.
  assert (Hw3 : writable w3 = true).
  { destruct Hag1 as (_ & E1 & _), Hag2 as (_ & E2 & _), Hag3 as (_ & E3 & _). congruence. }
  edestruct (on_message_quantity w3 m4) as (w4 & Hrun & Hf4 & _ & _ & Hu4 & _ & Hs4);
    [exact Hd3|exact Hl3|exact Hw3|rewrite Hs3; apply lookup_insert_eq|reflexivity..|].
  unfold processUpdate, run_handler. rewrite Hrun.
  rewrite run_commands_none by reflexivity.
  assert (Hs : addItemStates w4 = addItemStates w).
  { rewrite Hs4, Hs3, Hs2, Hs1, !insert_insert_eq. now apply delete_insert_id. }
  split; [apply stores_of_file, Hf4|].
  split; [rewrite Hs; exact Hnone|]. split; [exact Hs|].
  destruct Hag1 as (_ & _ & _ & E1), Hag2 as (_ & _ & _ & E2), Hag3 as (_ & _ & _ & E3).
  cbn [msg_chat m4] in *. congruence.
Qed.

(** ** safeSendMessage *)

Section SafeSend.

Lemma safeSendMessage_accepted chatId text options w :
  head (transport w) = None \/ head (transport w) = Some None ->
  exists w',
    safeSendMessage chatId text options w
    = (Return (Some {| msg_chat := chatId; msg_text := Some text |}), w')
    /\ requests w' = requests w ++ [sendMessage chatId text options]
    /\ log w' = log w.
Proof.
  intros H. unfold safeSendMessage, try_catch, bind, bot_sendMessage, bind, request.
  destruct (transport w) as [|[e|] t]; cbn [head] in H; destruct H as [H|H]; try discriminate;
    eexists; repeat split.
Qed.

(** On the path of the other errors the last failure is caught and logged. *)
Lemma safeSendMessage_other_error_returns chatId text options w e rest :
  transport w = Some e :: rest -> is_parse_error (RequestError e) = false ->
  exists r w', safeSendMessage chatId text options w = (Return r, w').
Proof.
  intros Ht He. unfold safeSendMessage, try_catch, bind, bot_sendMessage, bind, request.
  rewrite Ht. unfold logger_error. cbn [transport set_log set_transport set_requests tail].
  rewrite He. cbn [transport set_log set_transport set_requests tail].
  destruct rest as [|[e'|] rest']; eexists _, _; reflexivity.
Qed.

(** On the path of the parse errors the last request is not guarded. *)
Lemma safeSendMessage_parse_error_throws chatId text options w e1 e2 e3 rest :
  transport w = Some e1 :: Some e2 :: Some e3 :: rest ->
  is_parse_error (RequestError e1) = true ->
  exists w', safeSendMessage chatId text options w = (Throw (RequestError e3), w')
             /\ requests w'
                = requests w
                    ++ [ sendMessage chatId text options;
                         sendMessage chatId (strip_markdown text) no_options;
                         sendMessage chatId
                           (js "Sorry, there was an error displaying this message.")
                           no_options ].
Proof.
  intros Ht He. unfold safeSendMessage, try_catch, bind, bot_sendMessage, bind, request.
  rewrite Ht. unfold logger_error. cbn [transport set_log set_transport set_requests tail].
  rewrite He. cbn [transport set_log set_transport set_requests tail requests].
  eexists. split; [reflexivity|]. cbn [requests]. rewrite <- !app_assoc. reflexivity.
Qed.

End SafeSend.

(** C9.  The last resort of [safeSendMessage] is not guarded.  The
    transport rejects the formatted message with 400 "can't parse
    entities", then the stripped retry and the apology with 429: the error
    of the last request reaches the caller. *)
Theorem safeSendMessage_last_resort_throws :
  (safeSendMessage 1 (js "*Welcome") markdown
     (stocked [] [Some parse_rejection; Some flood_rejection; Some flood_rejection])).1
  = Throw (RequestError flood_rejection).
Proof. vm_compute. reflexivity. Qed.

(** ** The theorems at concrete worlds *)

Lemma stores_stocked_pair : stores (stocked [apples; milk] []) [apples; milk].
Proof. eexists. split; [reflexivity|vm_compute; reflexivity]. Defined.

Lemma stores_stocked_milk : stores (stocked [milk] []) [milk].
Proof. eexists. split; [reflexivity|vm_compute; reflexivity]. Defined.

Lemma add_flow_scenario_witness :
  let w := stocked [milk] [] in
  stores w [milk] /\ writable w = true /\ delivers w
  /\ addItemStates w !! 42%Z = None
  /\ (let after := run (add_apples 42 (js "q1") 7) w in
      stores after ([milk] ++ [apples])
      /\ addItemStates after !! 42%Z = None
      /\ addItemStates after = addItemStates w
      /\ unhandled after = unhandled w).
Proof.
  assert (Hd : delivers (stocked [milk] [])) by constructor.
  repeat (split; [first [exact stores_stocked_milk|reflexivity|exact Hd]|]).
  exact (add_flow_scenario (stocked [milk] []) [milk] 42 (js "q1") 7
           stores_stocked_milk eq_refl Hd eq_refl).
Defined.

Lemma remove_at_bounds_witness :
  let w := stocked [apples; milk] [] in
  (stores (on_item_action (press "remove_5") w).2 [apples; milk]
   /\ file (on_item_action (press "remove_5") w).2 = file w
   /\ requests (on_item_action (press "remove_5") w).2
      = requests w ++ [answerCallbackQuery (js "q1") stale_alert])
  /\ exists removedItem remaining,
       [apples; milk] !! 1%nat = Some removedItem
       /\ remaining = take 1 [apples; milk] ++ drop 2 [apples; milk]
       /\ stores (on_item_action (press "remove_1") w).2 remaining
       /\ S (length remaining) = 2%nat
       /\ exists more,
            requests (on_item_action (press "remove_1") w).2
            = requests w ++ sendMessage 42 (removed_text removedItem) no_options :: more.
Proof.
  split.
  - apply (remove_at_bounds (stocked [apples; milk] []) [apples; milk] (press "remove_5") 5
             stores_stocked_pair eq_refl eq_refl).
    right. vm_compute. discriminate.
  - pose proof (remove_at_bounds (stocked [apples; milk] []) [apples; milk]
                  (press "remove_1") 1 stores_stocked_pair eq_refl eq_refl) as H.
    cbv zeta in H. destruct H as [_ H].
    assert (Hi : (0 <= 1 < Z.of_nat (length [apples; milk]))%Z)
      by (split; [discriminate|reflexivity]).
    destruct (H Hi eq_refl)
      as (it & remaining & Hit & Hrem & Hst & Hlen & confirmation & more & Hreq & Hconf).
    exists it, remaining. repeat (split; [assumption|]).
    exists more. rewrite <- Hconf; [exact Hreq|].
    injection Hit as <-. reflexivity.
Defined.

Lemma nan_index_passes_validation_witness :
  let w := stocked [apples; milk] [] in
  (exists after,
     on_item_action (press "remove_x") w
     = (Throw (TypeError (js "Cannot read properties of undefined")), after)
     /\ requests after = requests w
     /\ stores after [milk])
  /\ on_item_action (press "toggle_x") w
     = (Throw (TypeError (js "Cannot read properties of undefined")), w).
Proof.
  split.
  - apply (nan_index_passes_validation (stocked [apples; milk] []) [apples; milk]
             (press "remove_x") stores_stocked_pair); reflexivity.
  - apply (nan_index_passes_validation (stocked [apples; milk] []) [apples; milk]
             (press "toggle_x") stores_stocked_pair); reflexivity.
Defined.

Lemma save_then_load_witness :
  let w := stocked [] [] in
  let saved := saveShoppingList (VArr (map item_value [apples; milk])) w in
  writable w = true
  /\ saved.1 = Return tt
  /\ stores saved.2 [apples; milk]
  /\ loadShoppingList saved.2 = (Return (list_value [apples; milk]), saved.2)
  /\ get_items (list_value [apples; milk]) saved.2
     = (Return (map item_value [apples; milk]), saved.2).
Proof.
  split; [reflexivity|].
  exact (save_then_load [apples; milk] (stocked [] []) eq_refl).
Defined.

Lemma toggle_twice_witness :
  let w := stocked [apples; milk] [] in
  let once := (on_item_action (press "toggle_1") w).2 in
  let twice := (on_item_action (press "toggle_1") once).2 in
  (exists l1, stores once l1 /\ checked <$> l1 !! 1%nat = Some false)
  /\ stores twice [apples; milk].
Proof.
  exact (toggle_twice (stocked [apples; milk] []) [apples; milk] (press "toggle_1") 1 milk
           stores_stocked_pair eq_refl eq_refl eq_refl ltac:(discriminate) eq_refl).
Defined.

Lemma add_starts_without_category_witness :
  addItemStates (on_add (say "/add") (stocked [milk] [])).2 = addItemStates asked
  /\ on_message (say "Bananas") asked = (Return tt, asked)
  /\ processUpdate (message (say "Bananas")) asked = asked.
Proof.
  split.
  - rewrite (proj1 (add_starts_without_category (stocked [milk] []) (say "/add"))).
    reflexivity.
  - destruct (proj2 (add_starts_without_category asked (say "Bananas"))
                {| state := awaiting_name; st_category := None; st_name := None |}
                eq_refl eq_refl eq_refl) as [H1 H2].
    exact (conj H1 (H2 eq_refl)).
Defined.

Lemma load_recovers_witness :
  (exists line,
     loadShoppingList lost = (Return (list_value []), set_log (log lost ++ [line]) lost)
     /\ startsWith line (js "Error loading shopping list: ") = true)
  /\ (exists line,
        loadShoppingList garbled
        = (Return (list_value []), set_log (log garbled ++ [line]) garbled)
        /\ startsWith line (js "Error loading shopping list: ") = true).
Proof.
  split.
  - apply (load_recovers lost). left. reflexivity.
  - apply (load_recovers garbled). right. eexists. split; [reflexivity|vm_compute; reflexivity].
Defined.

Lemma toggle_frame_witness :
  exists saved,
    stores (on_item_action (press "toggle_1") (stocked [apples; milk] [])).2 saved
    /\ length saved = 2%nat
    /\ saved !! 1%nat
       = Some {| name := js "Milk"; quantity := js "2"; category := js "proteins";
                 checked := false |}
    /\ forall j, j <> 1%nat -> saved !! j = [apples; milk] !! j.
Proof.
  exact (toggle_frame (stocked [apples; milk] []) [apples; milk] (press "toggle_1") 1 milk
           stores_stocked_pair eq_refl eq_refl eq_refl ltac:(discriminate) eq_refl).
Defined.

(** * Further properties of the handlers *)

(** ** Requests *)

Section Requests.

Lemma request_world c w : (request c w).2 = accept c w.
Proof. unfold request, accept. destruct (transport w) as [|[e|] t]; reflexivity. Qed.

Lemma request_rejected c w e t :
  transport w = Some e :: t -> request c w = (Throw (RequestError e), accept c w).
Proof. intros H. unfold request, accept. rewrite H. reflexivity. Qed.

Lemma request_accepted c w :
  head (transport w) = None \/ head (transport w) = Some None ->
  request c w = (Return tt, accept c w).
Proof.
  intros H. unfold request, accept.
  destruct (transport w) as [|[e|] t]; cbn [head] in H; destruct H; try discriminate;
    reflexivity.
Qed.

Lemma sendMessage_rejected chatId text options w e t :
  transport w = Some e :: t ->
  bot_sendMessage chatId text options w
  = (Throw (RequestError e), accept (sendMessage chatId text options) w).
Proof. intros H. unfold bot_sendMessage, bind. now rewrite (request_rejected _ w e t). Qed.

Lemma sendMessage_accepted chatId text options w :
  head (transport w) = None \/ head (transport w) = Some None ->
  bot_sendMessage chatId text options w
  = (Return {| msg_chat := chatId; msg_text := Some text |},
     accept (sendMessage chatId text options) w).
Proof. intros H. unfold bot_sendMessage, bind. now rewrite request_accepted. Qed.

(** The answer to the next request: a rejection, or not *)
Lemma next_answer w :
  (exists e t, transport w = Some e :: t)
  \/ (head (transport w) = None \/ head (transport w) = Some None).
Proof. destruct (transport w) as [|[e|] t]; eauto. Qed.

Lemma requests_accept c w : requests (accept c w) = requests w ++ [c].
Proof. reflexivity. Qed.

End Requests.

(** ** [safeSendMessage], path by path *)

Section Fallbacks.

(** The three ways through [safeSendMessage]: the message is accepted;
    it is rejected for a formatting error; it is rejected for another
    reason. *)
Lemma safeSendMessage_requests chatId text options w :
  exists more,
    requests (safeSendMessage chatId text options w).2
    = requests w ++ sendMessage chatId text options :: more
    /\ (length more <= 2)%nat
    /\ Forall (unformatted chatId) more.
Proof.
  unfold safeSendMessage, try_catch, bind, bot_sendMessage, bind, request, logger_error.
  destruct (transport w) as [|[e|] t]; cbn [snd requests set_transport set_requests].
  1, 3: exists []; split; [reflexivity|split; [cbn; lia|constructor]].
  cbn [transport set_log set_transport set_requests tail requests].
  destruct (is_parse_error (RequestError e)).
  - destruct t as [|[e'|] t]; cbn [snd transport set_log set_transport set_requests tail requests].
    1, 3: eexists [_]; rewrite <- app_assoc; split; [reflexivity|];
            split; [cbn; lia|repeat constructor; eexists; reflexivity].
    destruct t as [|[e''|] t];
      cbn [snd transport set_log set_transport set_requests tail requests];
      eexists [_; _]; rewrite <- !app_assoc; (split; [reflexivity|]);
      (split; [cbn; lia|repeat constructor; eexists; reflexivity]).
  - destruct t as [|[e'|] t];
      cbn [snd transport set_log set_transport set_requests tail requests];
      eexists [_]; rewrite <- app_assoc; (split; [reflexivity|]);
      (split; [cbn; lia|repeat constructor; eexists; reflexivity]).
Qed.

End Fallbacks.

(** X1.  [safeSendMessage] rejects in exactly one situation: the Telegram
    API rejects the message with a formatting error (400, can't parse
    entities), then rejects the stripped retry, then rejects the last
    apology.  Under every other sequence of answers it returns. *)
Theorem safeSendMessage_throws_iff (chatId : Z) (text : jsstring)
    (options : send_options) (w : World) :
  (exists e, (safeSendMessage chatId text options w).1 = Throw e)
  <-> (exists e1 e2 e3 rest,
         transport w = Some e1 :: Some e2 :: Some e3 :: rest
         /\ is_parse_error (RequestError e1) = true).
Proof.
  split.
  - intros [err Herr]. revert Herr.
    unfold safeSendMessage, try_catch, bind, bot_sendMessage, bind, request, logger_error.
    destruct (transport w) as [|[e1|] t]; cbn [fst]; try discriminate.
    cbn [transport set_log set_transport set_requests tail].
    destruct (is_parse_error (RequestError e1)) eqn:He1.
    + destruct t as [|[e2|] t]; cbn [fst]; try discriminate.
      cbn [transport set_log set_transport set_requests tail].
      destruct t as [|[e3|] t]; cbn [fst]; try discriminate.
      intros _. exists e1, e2, e3, t. split; [reflexivity|exact He1].
    + destruct t as [|[e2|] t]; cbn [fst]; discriminate.
  - intros (e1 & e2 & e3 & rest & Ht & He1).
    destruct (safeSendMessage_parse_error_throws chatId text options w e1 e2 e3 rest Ht He1)
      as (w' & Hrun & _).
    exists (RequestError e3). now rewrite Hrun.
Qed.

(** X2.  Whatever the Telegram API answers, [safeSendMessage] first asks
    for the given message with the given options, and then makes at most
    two more requests, each a text to the same chat with neither
    formatting nor menu.  It leaves the list file, the disk and the
    conversation states as they were. *)
Theorem safeSendMessage_effects (chatId : Z) (text : jsstring)
    (options : send_options) (w : World) :
  let after := (safeSendMessage chatId text options w).2 in
  (exists more,
     requests after = requests w ++ sendMessage chatId text options :: more
     /\ (length more <= 2)%nat
     /\ Forall (unformatted chatId) more)
  /\ file after = file w /\ writable after = writable w
  /\ addItemStates after = addItemStates w.
Proof.
  intros after. subst after. split; [apply safeSendMessage_requests|].
  split; [|split].
  - now apply (preserves_safeSendMessage file).
  - now apply (preserves_safeSendMessage writable).
  - now apply (preserves_safeSendMessage addItemStates).
Qed.

(** X3.  When the message is rejected with a formatting error and the
    next request is accepted, [safeSendMessage] returns the message it
    sent on the retry: the text without any of the characters * _ ` [,
    sent with no options.  Two requests are made and one line is logged,
    "Failed to send message: " followed by the message of the error. *)
Theorem safeSendMessage_strips_and_retries (chatId : Z) (text : jsstring)
    (options : send_options) (w : World) (e : request_error)
    (rest : list (option request_error)) :
  transport w = Some e :: None :: rest ->
  is_parse_error (RequestError e) = true ->
  let stripped := strip_markdown text in
  exists w',
    safeSendMessage chatId text options w
    = (Return (Some {| msg_chat := chatId; msg_text := Some stripped |}), w')
    /\ requests w'
       = requests w ++ [sendMessage chatId text options;
                        sendMessage chatId stripped no_options]
    /\ log w' = log w ++ [js "Failed to send message: " ++ err_message e]
    /\ transport w' = rest
    /\ Forall (fun c => c <> ch "*" /\ c <> ch "_" /\ c <> ch "`" /\ c <> ch "[") stripped.
Proof.
  intros Ht He stripped. subst stripped.
  unfold safeSendMessage, try_catch, bind, bot_sendMessage, bind, request, logger_error.
  rewrite Ht. cbn [transport set_log set_transport set_requests tail]. rewrite He.
  cbn [transport set_log set_transport set_requests tail].
  eexists. split; [reflexivity|].
  cbn [requests log transport set_requests set_transport set_log error_message].
  rewrite <- app_assoc. repeat split.
  unfold strip_markdown. apply list.Forall_forall. intros c Hc.
  apply list_elem_of_filter in Hc as [Hc _]. unfold is_markdown_char in Hc.
  rewrite !orb_false_iff, !N.eqb_neq in Hc. tauto.
Qed.

Lemma safeSendMessage_strips_and_retries_witness :
  exists w',
    safeSendMessage 42 (js "*Welcome_") markdown (stocked [] [Some parse_rejection; None])
    = (Return (Some {| msg_chat := 42; msg_text := Some (js "Welcome") |}), w').
Proof.
  destruct (safeSendMessage_strips_and_retries 42 (js "*Welcome_") markdown
              (stocked [] [Some parse_rejection; None]) parse_rejection []
              eq_refl eq_refl) as (w' & H & _).
  exists w'. exact H.
Defined.

(** ** The clear command *)

Section Clear.

Lemma save_read_only w items :
  writable w = false ->
  saveShoppingList items w
  = (Return tt,
     set_log (log w ++ [js "Error saving shopping list: EACCES: permission denied"]) w).
Proof.
  intros Hw. unfold saveShoppingList, try_catch, fs_writeFile.
  cbn [JSON.stringify stringify_value]. rewrite Hw. reflexivity.
Qed.

End Clear.

(** X4.  The clear command, on a disk that can be written: whatever the
    list file held before (a list, something else, nothing), it holds the
    empty sequence afterwards.  One request is made, the confirmation;
    the conversation states and the log are left as they were. *)
Theorem clear_empties_list (w : World) (msg : Message) :
  writable w = true ->
  let after := (on_clear msg w).2 in
  stores after []
  /\ requests after = requests w ++ [sendMessage (msg_chat msg) cleared_text no_options]
  /\ addItemStates after = addItemStates w
  /\ log after = log w.
Proof.
  intros Hw after. subst after. unfold on_clear, bind.
  change (VArr []) with (VArr (map item_value [])).
  rewrite (save_items w [] Hw). fold cleared_text.
  set (w1 := set_file _ w).
  assert (Hw1 : (bot_sendMessage (msg_chat msg) cleared_text no_options w1).2
                = accept (sendMessage (msg_chat msg) cleared_text no_options) w1)
    by (unfold bot_sendMessage, bind; pose proof (request_world
          (sendMessage (msg_chat msg) cleared_text no_options) w1) as H;
        destruct (request _ w1) as [[[]|e] w2]; exact H).
  destruct (bot_sendMessage (msg_chat msg) cleared_text no_options w1) as [[m|e] w2];
    cbn [snd] in *; subst w2; (split; [apply stores_of_file; reflexivity|repeat split]).
Qed.

Lemma clear_empties_list_witness :
  stores (on_clear (say "/clear") garbled).2 [].
Proof.
  exact (proj1 (clear_empties_list garbled (say "/clear") eq_refl)).
Defined.

(** X5.  The clear command, on a disk that cannot be written: the list
    file is left as it was, the failure is logged as "Error saving
    shopping list: ...", and the user is still told that the list has been
    cleared. *)
Theorem clear_on_unwritable_disk (w : World) (msg : Message) :
  writable w = false ->
  let after := (on_clear msg w).2 in
  file after = file w
  /\ requests after = requests w ++ [sendMessage (msg_chat msg) cleared_text no_options]
  /\ log after = log w ++ [js "Error saving shopping list: EACCES: permission denied"]
  /\ addItemStates after = addItemStates w.
Proof.
  intros Hw after. subst after. unfold on_clear, bind.
  rewrite (save_read_only w _ Hw). fold cleared_text.
  set (w1 := set_log _ w).
  assert (Hw1 : (bot_sendMessage (msg_chat msg) cleared_text no_options w1).2
                = accept (sendMessage (msg_chat msg) cleared_text no_options) w1)
    by (unfold bot_sendMessage, bind; pose proof (request_world
          (sendMessage (msg_chat msg) cleared_text no_options) w1) as H;
        destruct (request _ w1) as [[[]|e] w2]; exact H).
  destruct (bot_sendMessage (msg_chat msg) cleared_text no_options w1) as [[m|e] w2];
    cbn [snd] in *; subst w2; repeat split.
Qed.

Lemma clear_on_unwritable_disk_witness :
  file (on_clear (say "/clear") (read_only (stocked [milk] []))).2
  = file (stocked [milk] []).
Proof.
  exact (proj1 (clear_on_unwritable_disk (read_only (stocked [milk] [])) (say "/clear")
                  eq_refl)).
Defined.

(** ** The menus *)

Section Rows.

Lemma toggle_button_row n it :
  toggle_button n (item_value it)
  = Return {| text := item_line it; callback_data := js "toggle_" ++ nat_to_string n |}.
Proof. destruct it as [nm q c []]; reflexivity. Qed.

Lemma remove_button_row n it :
  remove_button n (item_value it)
  = Return {| text := remove_line it; callback_data := js "remove_" ++ nat_to_string n |}.
Proof. reflexivity. Qed.

Lemma keyboard_of_toggle_from l i :
  keyboard_of toggle_button i (map item_value l)
  = Return (imap (fun n it => toggle_row (i + n) it) l).
Proof.
  revert i. induction l as [|it l IH]; intros i; [reflexivity|].
  cbn [map keyboard_of]. rewrite toggle_button_row, (IH (S i)). cbn [obind imap].
  unfold toggle_row at 2. rewrite Nat.add_0_r. do 2 f_equal.
  apply imap_ext. intros n x _. cbn. do 3 f_equal. lia.
Qed.

Lemma keyboard_of_remove_from l i :
  keyboard_of remove_button i (map item_value l)
  = Return (imap (fun n it => remove_row (i + n) it) l).
Proof.
  revert i. induction l as [|it l IH]; intros i; [reflexivity|].
  cbn [map keyboard_of]. rewrite remove_button_row, (IH (S i)). cbn [obind imap].
  unfold remove_row at 2. rewrite Nat.add_0_r. do 2 f_equal.
  apply imap_ext. intros n x _. cbn. do 3 f_equal. lia.
Qed.

Lemma keyboard_of_toggle_rows l :
  keyboard_of toggle_button 0 (map item_value l) = Return (imap toggle_row l).
Proof. apply keyboard_of_toggle_from. Qed.

Lemma keyboard_of_remove_rows l :
  keyboard_of remove_button 0 (map item_value l) = Return (imap remove_row l).
Proof. apply keyboard_of_remove_from. Qed.

Lemma load_unreadable w :
  unreadable w ->
  exists line,
    loadShoppingList w = (Return (list_value []), set_log (log w ++ [line]) w)
    /\ startsWith line (js "Error loading shopping list: ") = true.
Proof.
  intros [Hfile|(data & Hfile & Hparse)];
    unfold loadShoppingList, try_catch, bind, fs_readFile, JSON_parse;
    rewrite Hfile; [|rewrite Hparse]; eexists; (split; reflexivity).
Qed.

Lemma safeSendMessage_log chatId text options w :
  exists lines, log (safeSendMessage chatId text options w).2 = log w ++ lines.
Proof.
  unfold safeSendMessage, try_catch, bind, bot_sendMessage, bind, request, logger_error.
  destruct (transport w) as [|[e|] t]; cbn [snd log set_transport set_requests].
  1, 3: exists []; now rewrite app_nil_r.
  cbn [transport set_log set_transport set_requests tail log].
  destruct (is_parse_error (RequestError e)); destruct t as [|[e'|] [|[e''|] t]];
    cbn [snd transport set_log set_transport set_requests tail log];
    rewrite <- ?app_assoc; eexists; reflexivity.
Qed.

Lemma world_bind_ret {A B} (c : M A) (b : B) w : ((c ;; ret b) w).2 = (c w).2.
Proof. unfold bind, ret. destruct (c w) as [[a|e] w']; reflexivity. Qed.

(** What [on_list] does once the items are there *)
Lemma show_list_requests chat l w :
  let show : M unit :=
    if (length (map item_value l) =? 0)%nat then
      safeSendMessage chat empty_text no_options ;; ret tt
    else
      keyboard <- lift (keyboard_of toggle_button 0 (map item_value l)) ;;
      try
        bot_sendMessage chat list_header (with_keyboard keyboard) ;;
        ret tt
      catch error =>
        logger_error (js "Error displaying shopping list: " ++ error_message error) ;;
        safeSendMessage chat
          (js "Sorry, there was an error displaying your shopping list. Please try again.")
          no_options ;;
        ret tt in
  exists more,
    requests (show w).2
    = requests w
        ++ match l with
           | [] => sendMessage chat empty_text no_options
           | _ :: _ => sendMessage chat list_header (with_keyboard (imap toggle_row l))
           end :: more
    /\ (length more <= 3)%nat
    /\ Forall (unformatted chat) more.
Proof.
  intros show. subst show. rewrite length_map. destruct l as [|it l].
  - cbn [length Nat.eqb]. rewrite world_bind_ret.
    destruct (safeSendMessage_requests chat empty_text no_options w) as (more & H & Hn & Hf).
    exists more. split; [exact H|]. split; [lia|exact Hf].
  - cbn [length Nat.eqb]. unfold bind at 1, lift.
    rewrite keyboard_of_toggle_rows.
    set (kb := imap toggle_row (it :: l)). unfold try_catch, bind at 1.
    destruct (next_answer w) as [(e & t & Ht)|Hacc].
    + rewrite (sendMessage_rejected _ _ _ w e t Ht).
      unfold bind at 1, logger_error. rewrite world_bind_ret.
      match goal with |- context [safeSendMessage ?c ?m ?o ?x] =>
        destruct (safeSendMessage_requests c m o x) as (more & H & Hn & Hf) end.
      exists (sendMessage chat
                (js "Sorry, there was an error displaying your shopping list. Please try again.")
                no_options :: more).
      split; [|split; [cbn [length]; lia|constructor; [eexists; reflexivity|exact Hf]]].
      rewrite H. cbn [requests set_log accept set_transport set_requests].
      rewrite <- app_assoc. reflexivity.
    + rewrite (sendMessage_accepted _ _ _ w Hacc). exists [].
      split; [reflexivity|]. split; [cbn; lia|constructor].
Qed.

Lemma on_list_requests w l msg :
  stores w l ->
  exists more,
    requests (on_list msg w).2
    = requests w
        ++ match l with
           | [] => sendMessage (msg_chat msg) empty_text no_options
           | _ :: _ => sendMessage (msg_chat msg) list_header
                         (with_keyboard (imap toggle_row l))
           end :: more
    /\ (length more <= 3)%nat
    /\ Forall (unformatted (msg_chat msg)) more.
Proof.
  intros Hst. unfold on_list, bind at 1. rewrite (load_stores w l Hst).
  unfold bind at 1. rewrite get_items_list_value.
  apply (show_list_requests (msg_chat msg) l w).
Qed.

Lemma on_remove_world w l msg :
  stores w l ->
  (on_remove msg w).2
  = accept match l with
           | [] => sendMessage (msg_chat msg) empty_text no_options
           | _ :: _ => sendMessage (msg_chat msg) (js "Select an item to remove:")
                         (with_keyboard (imap remove_row l))
           end w.
Proof.
  intros Hst. unfold on_remove, bind at 1. rewrite (load_stores w l Hst).
  unfold bind at 1. rewrite get_items_list_value, length_map.
  destruct l as [|it l]; cbn [length Nat.eqb].
  - rewrite world_bind_ret. fold empty_text.
    unfold bot_sendMessage. now rewrite world_bind_ret, request_world.
  - unfold bind at 1, lift. rewrite keyboard_of_remove_rows.
    rewrite world_bind_ret. unfold bot_sendMessage.
    now rewrite world_bind_ret, request_world.
Qed.

End Rows.

(** X6.  The list command over a file that holds [l].  The first request
    is the menu: for an empty [l] the text "Your shopping list is empty."
    without menu, otherwise the header with one row per item, in the order
    of [l]; row [n] shows the check mark, the glyph of the category, the
    name and the quantity of item [n] and carries the token toggle_n.
    Every later request (at most three) is a plain text of apology.  The
    file and the conversation states are left as they were.
    (No category in [l] is a name inherited from Object.prototype, see
    [inherited_names].) *)
Theorem list_shows_every_item (w : World) (l : list Item) (msg : Message) :
  stores w l -> own_keys l = true ->
  let after := (on_list msg w).2 in
  let chat := msg_chat msg in
  (exists more,
     requests after
     = requests w
         ++ match l with
            | [] => sendMessage chat empty_text no_options
            | _ :: _ => sendMessage chat list_header (with_keyboard (imap toggle_row l))
            end :: more
     /\ (length more <= 3)%nat
     /\ Forall (unformatted chat) more)
  /\ length (imap toggle_row l) = length l
  /\ (forall n it, l !! n = Some it -> imap toggle_row l !! n = Some (toggle_row n it))
  /\ file after = file w /\ addItemStates after = addItemStates w.
Proof.
  intros Hst _ after chat. subst after chat. split; [|split; [|split; [|split]]].
  - now apply on_list_requests.
  - apply length_imap.
  - intros n it Hit. rewrite list_lookup_imap, Hit. reflexivity.
  - now apply (preserves_on_list file).
  - now apply (preserves_on_list addItemStates).
Qed.

Lemma list_shows_every_item_witness :
  file (on_list (say "/list") (stocked [apples; milk] [])).2
  = file (stocked [apples; milk] []).
Proof.
  exact (proj1 (proj2 (proj2 (proj2
           (list_shows_every_item (stocked [apples; milk] []) [apples; milk] (say "/list")
              stores_stocked_pair eq_refl))))).
Defined.

(** X7.  A list file that is missing or is not JSON is shown as an empty
    list: the list command and the remove command both log the failure
    of the load and answer "Your shopping list is empty."; neither
    touches the file. *)
Theorem unreadable_list_is_shown_empty (w : World) (msg : Message) :
  unreadable w ->
  let chat := msg_chat msg in
  (exists line lines more,
     startsWith line (js "Error loading shopping list: ") = true
     /\ log (on_list msg w).2 = log w ++ line :: lines
     /\ requests (on_list msg w).2
        = requests w ++ sendMessage chat empty_text no_options :: more
     /\ Forall (unformatted chat) more)
  /\ (exists line,
        startsWith line (js "Error loading shopping list: ") = true
        /\ log (on_remove msg w).2 = log w ++ [line]
        /\ requests (on_remove msg w).2
           = requests w ++ [sendMessage chat empty_text no_options])
  /\ file (on_list msg w).2 = file w /\ file (on_remove msg w).2 = file w.
Proof.
  intros Hun chat. subst chat.
  destruct (load_unreadable w Hun) as (line & Hload & Hline).
  split; [|split; [|split]].
  - exists line.
    set (w1 := set_log (log w ++ [line]) w).
    assert (Hrun : (on_list msg w).2
                   = (safeSendMessage (msg_chat msg) empty_text no_options w1).2).
    { unfold on_list, bind at 1. rewrite Hload.
      unfold bind at 1. rewrite get_items_list_value. cbn [map length Nat.eqb].
      now rewrite world_bind_ret. }
    rewrite Hrun.
    destruct (safeSendMessage_requests (msg_chat msg) empty_text no_options w1)
      as (more & H & Hn & Hf).
    destruct (safeSendMessage_log (msg_chat msg) empty_text no_options w1) as [lines Hlog].
    exists lines, more. split; [exact Hline|]. split; [|split; [exact H|exact Hf]].
    rewrite Hlog. subst w1. cbn [log set_log]. now rewrite <- app_assoc.
  - exists line.
    assert (Hrun : (on_remove msg w).2
                   = accept (sendMessage (msg_chat msg) empty_text no_options)
                       (set_log (log w ++ [line]) w)).
    { unfold on_remove, bind at 1. rewrite Hload.
      unfold bind at 1. rewrite get_items_list_value. cbn [map length Nat.eqb].
      rewrite world_bind_ret. fold empty_text.
      unfold bot_sendMessage. now rewrite world_bind_ret, request_world. }
    rewrite Hrun. split; [exact Hline|]. split; reflexivity.
  - now apply (preserves_on_list file).
  - now apply (preserves_on_remove file).
Qed.

Lemma unreadable_list_is_shown_empty_witness :
  file (on_list (say "/list") lost).2 = file lost.
Proof.
  exact (proj1 (proj2 (proj2
           (unreadable_list_is_shown_empty lost (say "/list") (or_introl eq_refl))))).
Defined.

(** X8.  The remove command over a file that holds [l] makes one request:
    "Your shopping list is empty." for an empty [l], otherwise the prompt
    with one row per item, in the order of [l]; row [n] shows the glyph,
    the name and the quantity of item [n] and carries the token remove_n.
    The file, the conversation states and the log are left as they were.
    (No category in [l] is a name inherited from Object.prototype, see
    [inherited_names].) *)
Theorem remove_menu_rows (w : World) (l : list Item) (msg : Message) :
  stores w l -> own_keys l = true ->
  let after := (on_remove msg w).2 in
  let chat := msg_chat msg in
  requests after
  = requests w
      ++ [match l with
          | [] => sendMessage chat empty_text no_options
          | _ :: _ => sendMessage chat (js "Select an item to remove:")
                        (with_keyboard (imap remove_row l))
          end]
  /\ length (imap remove_row l) = length l
  /\ (forall n it, l !! n = Some it -> imap remove_row l !! n = Some (remove_row n it))
  /\ file after = file w /\ addItemStates after = addItemStates w /\ log after = log w.
Proof.
  intros Hst _ after chat. subst after chat.
  rewrite (on_remove_world w l msg Hst).
  split; [reflexivity|]. split; [apply length_imap|].
  split; [|repeat split].
  intros n it Hit. rewrite list_lookup_imap, Hit. reflexivity.
Qed.

Lemma remove_menu_rows_witness :
  file (on_remove (say "/remove") (stocked [apples; milk] [])).2
  = file (stocked [apples; milk] []).
Proof.
  exact (proj1 (proj2 (proj2 (proj2
           (remove_menu_rows (stocked [apples; milk] []) [apples; milk] (say "/remove")
              stores_stocked_pair eq_refl))))).
Defined.

(** ** From a menu to the action of its buttons *)

Section Presses.

Lemma stores_after_list w l msg :
  stores w l -> stores (on_list msg w).2 l.
Proof. apply stores_same_file. now apply (preserves_on_list file). Qed.

Lemma stores_after_remove_menu w l msg :
  stores w l -> stores (on_remove msg w).2 l.
Proof. apply stores_same_file. now apply (preserves_on_remove file). Qed.

Lemma toggle_token n :
  startsWith (js "toggle_" ++ nat_to_string n) (js "toggle_") = true
  /\ parseInt (replace (js "toggle_" ++ nat_to_string n) (js "toggle_") [])
     = Int (Z.of_nat n).
Proof. apply token_index. Qed.

Lemma remove_token n :
  startsWith (js "remove_" ++ nat_to_string n) (js "remove_") = true
  /\ parseInt (replace (js "remove_" ++ nat_to_string n) (js "remove_") [])
     = Int (Z.of_nat n).
Proof. apply token_index. Qed.

(** A press of the button [toggle_n] while the file holds [l] *)
Lemma press_toggle w l q n it :
  stores w l -> writable w = true ->
  data q = js "toggle_" ++ nat_to_string n -> l !! n = Some it ->
  let w' := (on_item_action q w).2 in
  file w' = JSON.stringify (list_value (alter toggle n l))
  /\ writable w' = true /\ addItemStates w' = addItemStates w.
Proof.
  intros Hst Hw Hdata Hit. cbv zeta.
  destruct (toggle_token n) as [Hpre Hidx]. rewrite <- Hdata in Hpre, Hidx.
  rewrite (on_item_action_toggle q Hpre).
  destruct (toggle_action_in_range w l q (Z.of_nat n) it Hst Hw Hidx ltac:(lia))
    as (r & w' & Hrun & Hfile & Hw' & Hs); [now rewrite Nat2Z.id|].
  rewrite Hrun. cbn [snd]. rewrite Nat2Z.id in Hfile. auto.
Qed.

(** A press of the button [remove_n] while the file holds [l] *)
Lemma press_remove w l q n it :
  stores w l -> writable w = true ->
  data q = js "remove_" ++ nat_to_string n -> l !! n = Some it ->
  let w' := (on_item_action q w).2 in
  file w' = JSON.stringify (list_value (delete n l))
  /\ writable w' = true /\ addItemStates w' = addItemStates w
  /\ exists more,
       requests w'
       = requests w ++ sendMessage (query_chat q) (removed_text it) no_options :: more.
Proof.
  intros Hst Hw Hdata Hit. cbv zeta.
  destruct (remove_token n) as [Hpre Hidx]. rewrite <- Hdata in Hpre, Hidx.
  rewrite (on_item_action_remove q Hpre).
  destruct (remove_action_in_range w l q (Z.of_nat n) it Hst Hw Hidx ltac:(lia))
    as (r & w' & Hrun & Hfile & Hw' & Hs & Hreq); [now rewrite Nat2Z.id|].
  rewrite Hrun. cbn [snd]. rewrite Nat2Z.id in Hfile. auto.
Qed.

Lemma toggle_action_out_of_range w l q i :
  stores w l ->
  parseInt (replace (data q) (js "toggle_") []) = Int i ->
  (i < 0 \/ Z.of_nat (length l) <= i)%Z ->
  (toggle_action q w).2 = accept (answerCallbackQuery (query_id q) stale_alert) w.
Proof.
  intros Hst Hidx Hi.
  unfold toggle_action, bind at 1. rewrite (load_stores w l Hst), Hidx.
  destruct (num_lt (Int i) (Int 0)) eqn:Hneg.
  - unfold bot_answerCallbackQuery. apply request_world.
  - apply Z.ltb_ge in Hneg. unfold bind at 1.
    rewrite get_items_list_value, (beyond_length i l) by lia.
    unfold bot_answerCallbackQuery. apply request_world.
Qed.

End Presses.

(** X9.  From the list menu to the toggle: when the list command has
    shown the menu of [l], a press of the button in row [n], which shows
    item [n], leaves the file holding [l] with the flag of item [n]
    negated and everything else as it was.
    (No category in [l] is a name inherited from Object.prototype, see
    [inherited_names].) *)
Theorem list_row_toggles_its_item (w : World) (l : list Item) (msg : Message)
    (n : nat) (it : Item) (queryId : jsstring) (messageId : Z) :
  stores w l -> own_keys l = true -> writable w = true -> l !! n = Some it ->
  let shown := (on_list msg w).2 in
  exists b more,
    requests shown
    = requests w
        ++ sendMessage (msg_chat msg) list_header (with_keyboard (imap toggle_row l)) :: more
    /\ imap toggle_row l !! n = Some [b]
    /\ text b = item_line it
    /\ stores (on_item_action (press_button queryId (msg_chat msg) messageId b) shown).2
         (alter toggle n l).
Proof.
  intros Hst _ Hw Hit shown.
  exists {| text := item_line it; callback_data := js "toggle_" ++ nat_to_string n |}.
  assert (Hreq : exists more,
    requests shown
    = requests w
        ++ sendMessage (msg_chat msg) list_header (with_keyboard (imap toggle_row l)) :: more).
  { subst shown. destruct (on_list_requests w l msg Hst) as (more & H & _).
    exists more. rewrite H. destruct l; [discriminate|reflexivity]. }
  destruct Hreq as [more Hreq]. exists more.
  split; [exact Hreq|]. split; [rewrite list_lookup_imap, Hit; reflexivity|].
  split; [reflexivity|].
  apply stores_of_file.
  apply (press_toggle shown l _ n it); [now apply stores_after_list| |reflexivity|exact Hit].
  subst shown. rewrite <- Hw. now apply (preserves_on_list writable).
Qed.

Lemma list_row_toggles_its_item_witness :
  exists b more,
    requests (on_list (say "/list") (stocked [apples; milk] [])).2
    = requests (stocked [apples; milk] [])
        ++ sendMessage 42 list_header (with_keyboard (imap toggle_row [apples; milk])) :: more
    /\ imap toggle_row [apples; milk] !! 1%nat = Some [b]
    /\ text b = item_line milk
    /\ stores (on_item_action (press_button (js "q1") 42 7 b)
                 (on_list (say "/list") (stocked [apples; milk] [])).2).2
         [apples; toggle milk].
Proof.
  exact (list_row_toggles_its_item (stocked [apples; milk] []) [apples; milk] (say "/list")
           1 milk (js "q1") 7 stores_stocked_pair eq_refl eq_refl eq_refl).
Defined.

(** X10.  From the removal menu to the removal: when the remove command
    has shown the menu of [l], a press of the button in row [n], which
    shows item [n], leaves the file holding [l] without item [n], and the
    request after the menu is the confirmation that names item [n].
    (No category in [l] is a name inherited from Object.prototype, see
    [inherited_names].) *)
Theorem removal_row_removes_its_item (w : World) (l : list Item) (msg : Message)
    (n : nat) (it : Item) (queryId : jsstring) (messageId : Z) :
  stores w l -> own_keys l = true -> writable w = true -> l !! n = Some it ->
  let shown := (on_remove msg w).2 in
  exists b,
    imap remove_row l !! n = Some [b]
    /\ text b = remove_line it
    /\ let pressed :=
         (on_item_action (press_button queryId (msg_chat msg) messageId b) shown).2 in
       stores pressed (delete n l)
       /\ exists more,
            requests pressed
            = requests w
                ++ sendMessage (msg_chat msg) (js "Select an item to remove:")
                     (with_keyboard (imap remove_row l))
                :: sendMessage (msg_chat msg) (removed_text it) no_options :: more.
Proof.
  intros Hst _ Hw Hit shown.
  exists {| text := remove_line it; callback_data := js "remove_" ++ nat_to_string n |}.
  split; [rewrite list_lookup_imap, Hit; reflexivity|]. split; [reflexivity|].
  cbv zeta.
  assert (Hw' : writable shown = true)
    by (subst shown; rewrite <- Hw; now apply (preserves_on_remove writable)).
  destruct (press_remove shown l
              (press_button queryId (msg_chat msg) messageId
                 {| text := remove_line it;
                    callback_data := js "remove_" ++ nat_to_string n |})
              n it (stores_after_remove_menu w l msg Hst) Hw' eq_refl Hit)
    as (Hfile & _ & _ & more & Hreq).
  split; [apply stores_of_file; exact Hfile|].
  exists more. rewrite Hreq. cbn [press_button query_chat].
  subst shown. rewrite (on_remove_world w l msg Hst), requests_accept, <- app_assoc.
  destruct l; [discriminate|reflexivity].
Qed.

Lemma removal_row_removes_its_item_witness :
  exists b,
    imap remove_row [apples; milk] !! 0%nat = Some [b]
    /\ text b = remove_line apples
    /\ let pressed :=
         (on_item_action (press_button (js "q1") 42 7 b)
            (on_remove (say "/remove") (stocked [apples; milk] [])).2).2 in
       stores pressed [milk]
       /\ exists more,
            requests pressed
            = requests (stocked [apples; milk] [])
                ++ sendMessage 42 (js "Select an item to remove:")
                     (with_keyboard (imap remove_row [apples; milk]))
                :: sendMessage 42 (removed_text apples) no_options :: more.
Proof.
  exact (removal_row_removes_its_item (stocked [apples; milk] []) [apples; milk]
           (say "/remove") 0 apples (js "q1") 7 stores_stocked_pair eq_refl eq_refl
           eq_refl).
Defined.

(** X11.  A removal button is good for more than one press: pressed again
    after it removed item [n], the button remove_n removes the item that
    followed, which has moved to position [n], and confirms with the name
    of that item.  Two presses leave the list two items shorter.
    (The category is no name inherited from Object.prototype, see
    [inherited_names].) *)
Theorem stale_remove_button_removes_neighbour (w : World) (l : list Item)
    (query : CallbackQuery) (n : nat) (it next : Item) :
  stores w l -> writable w = true ->
  data query = js "remove_" ++ nat_to_string n ->
  l !! n = Some it -> l !! S n = Some next -> own_key (category next) = true ->
  let once := (on_item_action query w).2 in
  let twice := (on_item_action query once).2 in
  stores once (delete n l)
  /\ stores twice (delete n (delete n l))
  /\ (length (delete n (delete n l)) + 2 = length l)%nat
  /\ exists more,
       requests twice
       = requests once
           ++ sendMessage (query_chat query) (removed_text next) no_options :: more.
Proof.
  intros Hst Hw Hdata Hit Hnext _ once twice.
  destruct (press_remove w l query n it Hst Hw Hdata Hit) as (Hfile & Hw1 & _ & _).
  fold once in Hfile, Hw1.
  assert (Hst1 : stores once (delete n l)) by (apply stores_of_file; exact Hfile).
  assert (Hnext' : delete n l !! n = Some next)
    by (rewrite list_lookup_delete_ge by lia; exact Hnext).
  destruct (press_remove once (delete n l) query n next Hst1 Hw1 Hdata Hnext')
    as (Hfile2 & _ & _ & Hreq).
  fold twice in Hfile2, Hreq.
  split; [exact Hst1|]. split; [apply stores_of_file; exact Hfile2|].
  split; [|exact Hreq].
  apply lookup_lt_Some in Hnext. apply lookup_lt_Some in Hnext' as Hlt.
  rewrite !length_delete by (try rewrite length_delete; eauto using lookup_lt_is_Some_2).
  rewrite length_delete in Hlt by eauto using lookup_lt_is_Some_2. lia.
Qed.

Lemma stale_remove_button_removes_neighbour_witness :
  stores (on_item_action (press "remove_0")
            (on_item_action (press "remove_0") (stocked [apples; milk] [])).2).2 [].
Proof.
  exact (proj1 (proj2
           (stale_remove_button_removes_neighbour (stocked [apples; milk] [])
              [apples; milk] (press "remove_0") 0 apples milk
              stores_stocked_pair eq_refl eq_refl eq_refl eq_refl eq_refl))).
Defined.

(** X12.  A toggle button whose index reads as an integer outside
    [0, length l): the only change to the world is the request of the
    alert "This item no longer exists in the list"; the file still holds
    [l]. *)
Theorem toggle_out_of_range (w : World) (l : list Item) (query : CallbackQuery) (i : Z) :
  stores w l ->
  startsWith (data query) (js "toggle_") = true ->
  parseInt (replace (data query) (js "toggle_") []) = Int i ->
  (i < 0 \/ Z.of_nat (length l) <= i)%Z ->
  let after := (on_item_action query w).2 in
  after = accept (answerCallbackQuery (query_id query) stale_alert) w
  /\ stores after l
  /\ requests after = requests w ++ [answerCallbackQuery (query_id query) stale_alert].
Proof.
  intros Hst Hpre Hidx Hi after. subst after.
  rewrite (on_item_action_toggle query Hpre),
    (toggle_action_out_of_range w l query i Hst Hidx Hi).
  split; [reflexivity|]. split; [|reflexivity].
  now apply (stores_same_file w).
Qed.

Lemma toggle_out_of_range_witness :
  stores (on_item_action (press "toggle_5") (stocked [apples; milk] [])).2 [apples; milk].
Proof.
  exact (proj1 (proj2
           (toggle_out_of_range (stocked [apples; milk] []) [apples; milk]
              (press "toggle_5") 5 stores_stocked_pair eq_refl eq_refl
              ltac:(right; cbn; lia)))).
Defined.

(** X13.  Once the list file is missing or is not JSON, every button of
    an old menu, remove_n or toggle_n, is answered with the alert "This
    item no longer exists in the list"; the load failure is logged and
    the file is not written. *)
Theorem buttons_are_stale_on_unreadable_file (w : World) (query : CallbackQuery) (n : nat) :
  unreadable w ->
  data query = js "remove_" ++ nat_to_string n
  \/ data query = js "toggle_" ++ nat_to_string n ->
  exists line,
    startsWith line (js "Error loading shopping list: ") = true
    /\ (on_item_action query w).2
       = accept (answerCallbackQuery (query_id query) stale_alert)
           (set_log (log w ++ [line]) w).
Proof.
  intros Hun Hdata. destruct (load_unreadable w Hun) as (line & Hload & Hline).
  exists line. split; [exact Hline|].
  destruct Hdata as [Hdata|Hdata].
  - destruct (remove_token n) as [Hpre Hidx]. rewrite <- Hdata in Hpre, Hidx.
    rewrite (on_item_action_remove query Hpre).
    unfold remove_action, bind at 1. rewrite Hload, Hidx.
    rewrite not_negative by lia. unfold bind at 1.
    rewrite get_items_list_value. cbn [map].
    replace (num_ge (Int (Z.of_nat n)) (array_length [])) with true
      by (symmetry; apply Z.leb_le; cbn; lia).
    unfold bot_answerCallbackQuery. apply request_world.
  - destruct (toggle_token n) as [Hpre Hidx]. rewrite <- Hdata in Hpre, Hidx.
    rewrite (on_item_action_toggle query Hpre).
    unfold toggle_action, bind at 1. rewrite Hload, Hidx.
    rewrite not_negative by lia. unfold bind at 1.
    rewrite get_items_list_value. cbn [map].
    replace (num_ge (Int (Z.of_nat n)) (array_length [])) with true
      by (symmetry; apply Z.leb_le; cbn; lia).
    unfold bot_answerCallbackQuery. apply request_world.
Qed.

Lemma buttons_are_stale_on_unreadable_file_witness :
  exists line,
    startsWith line (js "Error loading shopping list: ") = true
    /\ (on_item_action (press "toggle_0") garbled).2
       = accept (answerCallbackQuery (js "q1") stale_alert)
           (set_log (log garbled ++ [line]) garbled).
Proof.
  exact (buttons_are_stale_on_unreadable_file garbled (press "toggle_0") 0
           (or_intror (ex_intro _ (js "{oops") (conj eq_refl eq_refl)))
           (or_intror eq_refl)).
Defined.

(** X14.  A toggle of item [n], with the Telegram API accepting the
    requests: the handler returns, the file holds the list with the flag
    of item [n] negated, and two requests are made.  The first edits the
    pressed message into the check-off header with the menu of the list
    as saved, whose row [n] shows the item with its new mark; the second
    answers the press with the name of the item and "checked" or
    "unchecked" according to the new flag.
    (No category in [l] is a name inherited from Object.prototype, see
    [inherited_names].) *)
Theorem toggle_refreshes_menu (w : World) (l : list Item) (query : CallbackQuery)
    (n : nat) (it : Item) :
  stores w l -> own_keys l = true -> writable w = true -> delivers w ->
  data query = js "toggle_" ++ nat_to_string n -> l !! n = Some it ->
  let now := alter toggle n l in
  exists w',
    on_item_action query w = (Return tt, w')
    /\ stores w' now
    /\ requests w'
       = requests w
           ++ [ editMessageText checkoff_header (query_chat query) (query_message_id query)
                  (imap toggle_row now) (js "Markdown");
                answerCallbackQuery (query_id query)
                  {| answer_text := Some (toggled_text (toggle it)); show_alert := false |} ]
    /\ imap toggle_row now !! n = Some (toggle_row n (toggle it)).
Proof.
  intros Hst _ Hw Hd Hdata Hit now. subst now.
  destruct (toggle_token n) as [Hpre Hidx]. rewrite <- Hdata in Hpre, Hidx.
  rewrite (on_item_action_toggle query Hpre).
  assert (Hlt : (Z.of_nat n < Z.of_nat (length l))%Z) by (apply lookup_lt_Some in Hit; lia).
  assert (Hit' : l !! Z.to_nat (Z.of_nat n) = Some it) by now rewrite Nat2Z.id.
  unfold toggle_action, bind.
  rewrite (load_stores w l Hst), Hidx, (not_negative _ (Nat2Z.is_nonneg n)), get_items_list_value,
    (below_length _ l Hlt).
  unfold lift at 1. rewrite (toggle_checked_item (Z.of_nat n) l it ltac:(lia) Hit').
  rewrite (save_items w _ Hw). unfold lift at 1.
  rewrite Nat2Z.id, keyboard_of_toggle_rows.
  assert (Hnew : alter toggle n l !! Z.to_nat (Z.of_nat n) = Some (toggle it))
    by (rewrite Nat2Z.id, list_lookup_alter_eq, Hit; reflexivity).
  rewrite (array_get_item (Z.of_nat n) _ _ ltac:(lia) Hnew).
  unfold lift. rewrite get_prop_name, get_prop_checked. cbn [to_string to_boolean].
  fold checkoff_header.
  unfold bot_editMessageText, bot_answerCallbackQuery.
  set (w1 := set_file _ w).
  assert (Hd1 : delivers w1) by exact Hd.
  rewrite (request_accept _ w1 Hd1).
  rewrite (request_accept _ _ (delivers_accept _ w1 Hd1)).
  eexists. split; [reflexivity|]. split; [apply stores_of_file; reflexivity|].
  split.
  - cbn [requests accept set_requests set_transport]. subst w1. cbn [requests set_file].
    rewrite <- app_assoc. reflexivity.
  - rewrite list_lookup_imap, list_lookup_alter_eq, Hit. reflexivity.
Qed.

Lemma toggle_refreshes_menu_witness :
  exists w',
    on_item_action (press "toggle_1") (stocked [apples; milk] []) = (Return tt, w')
    /\ stores w' [apples; toggle milk].
Proof.
  destruct (toggle_refreshes_menu (stocked [apples; milk] []) [apples; milk]
              (press "toggle_1") 1 milk stores_stocked_pair eq_refl eq_refl
              (List.Forall_nil _) eq_refl eq_refl) as (w' & Hrun & Hst & _).
  exists w'. split; [exact Hrun|exact Hst].
Defined.

(** ** The dialogue, step by step *)

Section Steps.

Lemma category_token c :
  startsWith (js "category_" ++ c) (js "category_") = true
  /\ replace (js "category_" ++ c) (js "category_") [] = c
  /\ startsWith (js "category_" ++ c) (js "remove_") = false
  /\ startsWith (js "category_" ++ c) (js "toggle_") = false.
Proof.
  split; [apply startsWith_app|]. split; [apply replace_prefix|]. split; reflexivity.
Qed.

Lemma on_category_states q c w :
  data q = js "category_" ++ c ->
  let w' := (on_category q w).2 in
  addItemStates w' = <[query_chat q := chosen c]> (addItemStates w)
  /\ file w' = file w /\ writable w' = writable w /\ log w' = log w
  /\ exists more,
       requests w'
       = requests w ++ sendMessage (query_chat q) (js "Enter the item name:") no_options
                    :: more.
Proof.
  intros Hdata. cbv zeta. destruct (category_token c) as (Hpre & Hrep & _).
  unfold on_category. rewrite Hdata, Hpre, Hrep.
  unfold bind, addItemStates_set, bot_sendMessage, bot_answerCallbackQuery, bind, request, ret.
  cbn [transport set_addItemStates set_transport set_requests requests].
  destruct (transport w) as [|[e|] [|[e'|] t]];
    cbn [snd tail transport set_addItemStates set_transport set_requests requests
         addItemStates file writable log];
    repeat split; rewrite <- ?app_assoc; eexists; reflexivity.
Qed.

Lemma on_category_run q c w :
  delivers w -> data q = js "category_" ++ c ->
  on_category q w
  = (Return tt,
     accept (answerCallbackQuery (query_id q) no_answer)
       (accept (sendMessage (query_chat q) (js "Enter the item name:") no_options)
          (set_addItemStates (<[query_chat q := chosen c]> (addItemStates w)) w))).
Proof.
  intros Hd Hdata. destruct (category_token c) as (Hpre & Hrep & _).
  unfold on_category. rewrite Hdata, Hpre, Hrep.
  unfold bind, addItemStates_set, bot_sendMessage, bot_answerCallbackQuery, bind.
  set (w1 := set_addItemStates _ w).
  assert (Hd1 : delivers w1) by exact Hd.
  rewrite (request_accept _ w1 Hd1). unfold ret.
  now rewrite (request_accept _ _ (delivers_accept _ w1 Hd1)).
Qed.

Lemma on_message_name_run w msg st :
  delivers w ->
  addItemStates w !! msg_chat msg = Some st ->
  state st = awaiting_name -> truthy (st_category st) = true ->
  is_command_text (msg_text msg) = false ->
  on_message msg w
  = (Return tt,
     accept (sendMessage (msg_chat msg) (js "Enter the quantity:") no_options)
       (set_addItemStates
          (<[msg_chat msg := {| state := awaiting_quantity; st_category := st_category st;
                                st_name := msg_text msg |}]> (addItemStates w)) w)).
Proof.
  intros Hd Hst Hph Hcat Htext.
  unfold on_message, bind, addItemStates_get. rewrite Hst, Htext, Hph, Hcat.
  unfold addItemStates_set, bot_sendMessage, bind.
  set (w1 := set_addItemStates _ w).
  assert (Hd1 : delivers w1) by exact Hd.
  now rewrite (request_accept _ w1 Hd1).
Qed.

(** The quantity step up to the confirmation: what is loaded, saved and
    sent.  The entry of the chat is deleted only if the confirmation is
    accepted. *)
Lemma on_message_quantity_world w msg st list w0 items :
  addItemStates w !! msg_chat msg = Some st ->
  state st = awaiting_quantity ->
  is_command_text (msg_text msg) = false ->
  loadShoppingList w = (Return list, w0) ->
  get_items list w0 = (Return items, w0) ->
  let item := VObj [ (js "name", of_option (st_name st));
                     (js "quantity", of_option (msg_text msg));
                     (js "category", of_option (st_category st));
                     (js "checked", VBool false) ] in
  let text := glyph_checked ++ js " Added to your list:" ++ nl
                ++ glyph_of (template (st_category st)) ++ js " "
                ++ template (st_name st) ++ js " (" ++ template (msg_text msg) ++ js ")" in
  let saved := (saveShoppingList (VArr (items ++ [item])) w0).2 in
  let sent := accept (sendMessage (msg_chat msg) text no_options) saved in
  on_message msg w
  = match transport w0 with
    | Some e :: _ => (Throw (RequestError e), sent)
    | _ => (Return tt, set_addItemStates (delete (msg_chat msg) (addItemStates sent)) sent)
    end.
Proof.
  intros Hst Hph Htext Hload Hitems. cbv zeta.
  unfold on_message, bind at 1, addItemStates_get. rewrite Hst, Htext, Hph.
  unfold bind at 1. rewrite Hload.
  unfold bind at 1. rewrite Hitems.
  unfold bind at 1.
  match goal with |- context [saveShoppingList ?v w0] =>
    assert (Hsave : exists w1, saveShoppingList v w0 = (Return tt, w1)
                               /\ transport w1 = transport w0)
  end.
  { unfold saveShoppingList, try_catch, fs_writeFile, logger_error.
    destruct (JSON.stringify _); [destruct (writable w0)|]; eexists; split; reflexivity. }
  destruct Hsave as (w1 & -> & Ht). cbn [snd]. rewrite <- Ht.
  unfold bind, bot_sendMessage, bind, request, accept, addItemStates_delete, ret.
  destruct (transport w1) as [|[e|] t]; reflexivity.
Qed.

Lemma item_value_of_state it :
  checked it = false ->
  VObj [ (js "name", of_option (Some (name it)));
         (js "quantity", of_option (Some (quantity it)));
         (js "category", of_option (Some (category it)));
         (js "checked", VBool false) ] = item_value it.
Proof. intros H. unfold item_value. now rewrite H. Qed.

(** The quantity step over a file that holds [l] *)
Lemma on_message_quantity_stored w msg l it :
  stores w l ->
  addItemStates w !! msg_chat msg = Some (named (category it) (Some (name it))) ->
  msg_text msg = Some (quantity it) -> checked it = false ->
  is_command_text (msg_text msg) = false ->
  let saved := (saveShoppingList (VArr (map item_value (l ++ [it]))) w).2 in
  let sent := accept (sendMessage (msg_chat msg) (added_text it) no_options) saved in
  on_message msg w
  = match transport w with
    | Some e :: _ => (Throw (RequestError e), sent)
    | _ => (Return tt, set_addItemStates (delete (msg_chat msg) (addItemStates sent)) sent)
    end.
Proof.
  intros Hl Hst Hq Hch Htext. cbv zeta.
  rewrite (on_message_quantity_world w msg _ _ w _ Hst eq_refl Htext (load_stores w l Hl)
             (get_items_list_value l w)).
  rewrite Hq. cbn [named st_name st_category template].
  rewrite (item_value_of_state it Hch). fold (added_text it).
  change [item_value it] with (map item_value [it]). rewrite <- map_app. reflexivity.
Qed.

Lemma is_command_text_free t : free_text t -> is_command_text (Some t) = false.
Proof. now intros [H _]. Qed.

Lemma processUpdate_free_text chat t w :
  free_text t ->
  processUpdate (message {| msg_chat := chat; msg_text := Some t |}) w
  = run_handler (on_message {| msg_chat := chat; msg_text := Some t |}) w.
Proof. intros [_ H]. unfold processUpdate. now rewrite run_commands_none. Qed.

Lemma processUpdate_category q c w :
  data q = js "category_" ++ c ->
  processUpdate (callback_query q) w = run_handler (on_category q) w.
Proof.
  intros Hdata. destruct (category_token c) as (_ & _ & Hr & Ht).
  unfold processUpdate, on_item_action. rewrite Hdata, Hr, Ht. unfold run_handler at 1.
  reflexivity.
Qed.

(** The whole dialogue, from the press of a category button *)
Lemma add_item_run w l chat queryId messageId it :
  stores w l -> writable w = true -> delivers w ->
  category it <> [] -> checked it = false ->
  free_text (name it) -> free_text (quantity it) ->
  let after := run (add_item chat queryId messageId it) w in
  file after = JSON.stringify (list_value (l ++ [it]))
  /\ writable after = true /\ delivers after
  /\ addItemStates after = delete chat (addItemStates w)
  /\ unhandled after = unhandled w /\ log after = log w
  /\ requests after
     = requests w
         ++ [ sendMessage chat (js "Enter the item name:") no_options;
              answerCallbackQuery queryId no_answer;
              sendMessage chat (js "Enter the quantity:") no_options;
              sendMessage chat (added_text it) no_options ].
Proof.
  intros Hl Hw Hd Hcat Hch Hname Hqty. cbv zeta.
  unfold run, add_item. cbn [fold_left].
  set (q := {| query_id := queryId; query_chat := chat; query_message_id := messageId;
               data := js "category_" ++ category it |}).
  set (w1 := accept (answerCallbackQuery queryId no_answer)
               (accept (sendMessage chat (js "Enter the item name:") no_options)
                  (set_addItemStates (<[chat := chosen (category it)]> (addItemStates w)) w))).
  assert (H1 : processUpdate (callback_query q) w = w1).
  { rewrite (processUpdate_category q (category it) w eq_refl). unfold run_handler.
    now rewrite (on_category_run q (category it) w Hd eq_refl). }
  rewrite H1. clear H1.
  assert (Hd1 : delivers w1) by (subst w1; do 2 apply delivers_accept; exact Hd).
  set (st2 := named (category it) (Some (name it))).
  set (w2 := accept (sendMessage chat (js "Enter the quantity:") no_options)
               (set_addItemStates (<[chat := st2]> (addItemStates w1)) w1)).
  assert (H2 : processUpdate (message {| msg_chat := chat; msg_text := Some (name it) |}) w1
               = w2).
  { rewrite (processUpdate_free_text chat (name it) w1 Hname). unfold run_handler.
    rewrite (on_message_name_run w1 _ (chosen (category it)) Hd1);
      [reflexivity|apply lookup_insert_eq|reflexivity
      |cbn [chosen st_category truthy]; destruct (category it); [congruence|reflexivity]
      |apply (is_command_text_free _ Hname)]. }
  rewrite H2. clear H2.
  assert (Hd2 : delivers w2) by (subst w2; apply delivers_accept; exact Hd1).
  assert (Hl2 : stores w2 l) by (apply (stores_same_file w); [reflexivity|exact Hl]).
  assert (Hw2 : writable w2 = true) by exact Hw.
  rewrite (processUpdate_free_text chat (quantity it) w2 Hqty).
  unfold run_handler.
  rewrite (on_message_quantity_stored w2 _ l it Hl2);
    [|apply lookup_insert_eq|reflexivity|exact Hch|apply (is_command_text_free _ Hqty)].
  rewrite (save_items w2 _ Hw2). cbn [snd msg_chat].
  assert (Hacc : head (transport w2) = None \/ head (transport w2) = Some None).
  { unfold delivers in Hd2. destruct (transport w2) as [|a t]; [now left|right].
    apply Forall_cons in Hd2 as [-> _]. reflexivity. }
  set (w3 := set_addItemStates _ _).
  assert (H3 : match transport w2 with
               | Some e :: _ =>
                   (Throw (RequestError e),
                    accept (sendMessage chat (added_text it) no_options)
                      (set_file (JSON.stringify (list_value (l ++ [it]))) w2))
               | _ => (Return tt, w3)
               end = (Return tt, w3)).
  { destruct (transport w2) as [|[e|] t]; try reflexivity.
    cbn [head] in Hacc. destruct Hacc; discriminate. }
  rewrite H3. clear H3.
  split; [reflexivity|]. split; [exact Hw|].
  split; [eapply delivers_tail; [exact Hd2|reflexivity]|].
  split; [|split; [reflexivity|split; [reflexivity|]]].
  - subst w3 w2 w1.
    cbn [addItemStates set_addItemStates accept set_transport set_requests set_file].
    rewrite insert_insert_eq. apply delete_insert_eq.
  - subst w3 w2 w1.
    cbn [requests set_addItemStates accept set_transport set_requests set_file].
    rewrite <- !app_assoc. reflexivity.
Qed.

End Steps.

(** X15.  A press of a button whose token is category_c sets the entry of
    the chat to awaiting_name with category [c], whatever the entry was
    and whatever [c] is (it is not looked up among the categories), and
    whether or not the prompt is then accepted.  The first request is the
    prompt "Enter the item name:"; the file and the log are left as they
    were. *)
Theorem category_press_sets_state (w : World) (query : CallbackQuery) (c : jsstring) :
  data query = js "category_" ++ c ->
  let after := processUpdate (callback_query query) w in
  addItemStates after = <[query_chat query := chosen c]> (addItemStates w)
  /\ file after = file w /\ log after = log w
  /\ exists more,
       requests after
       = requests w
           ++ sendMessage (query_chat query) (js "Enter the item name:") no_options :: more.
Proof.
  intros Hdata after. subst after.
  rewrite (processUpdate_category query c w Hdata).
  destruct (on_category_states query c w Hdata) as (Hs & Hf & _ & Hl & Hr).
  unfold run_handler. destruct (on_category query w) as [[[]|e] w']; cbn [snd] in *; auto.
Qed.

Lemma category_press_sets_state_witness :
  addItemStates (processUpdate (callback_query (press "category_gadgets")) waiting)
  = <[42%Z := chosen (js "gadgets")]> (addItemStates waiting).
Proof.
  exact (proj1 (category_press_sets_state waiting (press "category_gadgets") (js "gadgets")
                  eq_refl)).
Defined.

(** X16.  The add-item dialogue for any item.  From any state of the chat,
    the press of the button of a non-empty category, a name and a
    quantity (two texts that do not begin with "/" and contain no
    command) leave the file holding the sequence with the new unchecked
    item at its end, and the chat without an entry.  No handler throws,
    and the requests are the two prompts, the answer to the press and
    the confirmation that shows the item.
    (The category is no name inherited from Object.prototype, see
    [inherited_names].) *)
Theorem add_item_appends (w : World) (l : list Item) (chat : Z) (queryId : jsstring)
    (messageId : Z) (it : Item) :
  stores w l -> writable w = true -> delivers w ->
  category it <> [] -> own_key (category it) = true -> checked it = false ->
  free_text (name it) -> free_text (quantity it) ->
  let after := run (add_item chat queryId messageId it) w in
  stores after (l ++ [it])
  /\ addItemStates after !! chat = None
  /\ unhandled after = unhandled w
  /\ requests after
     = requests w
         ++ [ sendMessage chat (js "Enter the item name:") no_options;
              answerCallbackQuery queryId no_answer;
              sendMessage chat (js "Enter the quantity:") no_options;
              sendMessage chat (added_text it) no_options ].
Proof.
  intros Hl Hw Hd Hcat _ Hch Hname Hqty after. subst after.
  destruct (add_item_run w l chat queryId messageId it Hl Hw Hd Hcat Hch Hname Hqty)
    as (Hf & _ & _ & Hs & Hu & _ & Hr).
  split; [apply stores_of_file; exact Hf|]. split; [|split; assumption].
  rewrite Hs. apply lookup_delete_eq.
Qed.

Lemma add_item_appends_witness :
  stores (run (add_item 42 (js "q1") 7 apples) waiting) [milk; apples].
Proof.
  exact (proj1 (add_item_appends waiting [milk] 42 (js "q1") 7 apples
                  stores_stocked_milk eq_refl (List.Forall_nil _)
                  ltac:(discriminate) eq_refl eq_refl (conj eq_refl eq_refl)
                  (conj eq_refl eq_refl))).
Defined.

(** X17.  Two dialogues one after the other, in the same chat or in two
    chats: the file holds the earlier items followed by the first new
    item and then the second. *)
Theorem two_adds_keep_order (w : World) (l : list Item) (chat chat' : Z)
    (queryId queryId' : jsstring) (messageId messageId' : Z) (x y : Item) :
  stores w l -> writable w = true -> delivers w ->
  category x <> [] -> checked x = false -> free_text (name x) -> free_text (quantity x) ->
  category y <> [] -> checked y = false -> free_text (name y) -> free_text (quantity y) ->
  stores (run (add_item chat queryId messageId x ++ add_item chat' queryId' messageId' y) w)
    (l ++ [x; y]).
Proof.
  intros Hl Hw Hd Hcx Hkx Hnx Hqx Hcy Hky Hny Hqy.
  unfold run. rewrite fold_left_app.
  destruct (add_item_run w l chat queryId messageId x Hl Hw Hd Hcx Hkx Hnx Hqx)
    as (Hf & Hw1 & Hd1 & _).
  fold (run (add_item chat queryId messageId x) w).
  set (w1 := run (add_item chat queryId messageId x) w) in *.
  assert (Hl1 : stores w1 (l ++ [x])) by (apply stores_of_file; exact Hf).
  destruct (add_item_run w1 (l ++ [x]) chat' queryId' messageId' y Hl1 Hw1 Hd1 Hcy Hky Hny Hqy)
    as (Hf2 & _).
  apply stores_of_file. unfold run in Hf2. rewrite Hf2, <- app_assoc. reflexivity.
Qed.

Lemma two_adds_keep_order_witness :
  stores (run (add_item 42 (js "q1") 7 apples
                 ++ add_item 43 (js "q2") 8
                      {| name := js "Rice"; quantity := js "1 kg";
                         category := js "healthy_carbs"; checked := false |})
            (stocked [milk] []))
    ([milk] ++ [apples; {| name := js "Rice"; quantity := js "1 kg";
                           category := js "healthy_carbs"; checked := false |}]).
Proof.
  exact (two_adds_keep_order (stocked [milk] []) [milk] 42 43 (js "q1") (js "q2") 7 8
           apples
           {| name := js "Rice"; quantity := js "1 kg"; category := js "healthy_carbs";
              checked := false |}
           stores_stocked_milk eq_refl (List.Forall_nil _)
           ltac:(discriminate) eq_refl (conj eq_refl eq_refl) (conj eq_refl eq_refl)
           ltac:(discriminate) eq_refl (conj eq_refl eq_refl) (conj eq_refl eq_refl)).
Defined.

(** X18.  The quantity step when the confirmation is rejected: the item
    has been saved, but the handler throws before it deletes the entry of
    the chat, so that the chat is still asked for a quantity and the next
    text adds the item once more.
    (The category is no name inherited from Object.prototype, see
    [inherited_names].) *)
Theorem rejected_confirmation_keeps_dialogue (w : World) (l : list Item) (msg : Message)
    (it : Item) (e : request_error) (rest : list (option request_error)) :
  stores w l -> writable w = true ->
  addItemStates w !! msg_chat msg = Some (named (category it) (Some (name it))) ->
  msg_text msg = Some (quantity it) -> checked it = false ->
  own_key (category it) = true ->
  is_command_text (msg_text msg) = false ->
  transport w = Some e :: rest ->
  exists w',
    on_message msg w = (Throw (RequestError e), w')
    /\ stores w' (l ++ [it])
    /\ addItemStates w' = addItemStates w
    /\ requests w' = requests w ++ [sendMessage (msg_chat msg) (added_text it) no_options].
Proof.
  intros Hl Hw Hst Hq Hch _ Htext Ht.
  rewrite (on_message_quantity_stored w msg l it Hl Hst Hq Hch Htext), Ht.
  rewrite (save_items w _ Hw). cbn [snd].
  eexists. split; [reflexivity|]. split; [apply stores_of_file; reflexivity|].
  split; reflexivity.
Qed.

Lemma rejected_confirmation_keeps_dialogue_witness :
  exists w',
    on_message (say "6") (set_transport [Some flood_rejection] waiting)
    = (Throw (RequestError flood_rejection), w')
    /\ stores w' ([milk] ++ [apples])
    /\ addItemStates w' = addItemStates waiting.
Proof.
  destruct (rejected_confirmation_keeps_dialogue
              (set_transport [Some flood_rejection] waiting) [milk] (say "6") apples
              flood_rejection [] stores_stocked_milk eq_refl eq_refl eq_refl eq_refl
              eq_refl eq_refl eq_refl) as (w' & H1 & H2 & H3 & _).
  exists w'. repeat split; assumption.
Defined.

(** X19.  The quantity step on a disk that cannot be written: the file is
    left as it was, the failure is logged, and yet the user is told that
    the item was added and the dialogue ends.
    (The category is no name inherited from Object.prototype, see
    [inherited_names].) *)
Theorem add_on_unwritable_disk (w : World) (l : list Item) (msg : Message) (it : Item) :
  stores w l -> writable w = false -> delivers w ->
  addItemStates w !! msg_chat msg = Some (named (category it) (Some (name it))) ->
  msg_text msg = Some (quantity it) -> checked it = false ->
  own_key (category it) = true ->
  is_command_text (msg_text msg) = false ->
  exists w',
    on_message msg w = (Return tt, w')
    /\ file w' = file w
    /\ log w' = log w ++ [js "Error saving shopping list: EACCES: permission denied"]
    /\ requests w' = requests w ++ [sendMessage (msg_chat msg) (added_text it) no_options]
    /\ addItemStates w' = delete (msg_chat msg) (addItemStates w).
Proof.
  intros Hl Hw Hd Hst Hq Hch _ Htext.
  rewrite (on_message_quantity_stored w msg l it Hl Hst Hq Hch Htext).
  rewrite (save_read_only w _ Hw). cbn [snd].
  unfold delivers in Hd.
  destruct (transport w) as [|[e|] t];
    [|apply Forall_cons in Hd as [Hd _]; discriminate|];
    eexists; (split; [reflexivity|]); repeat split.
Qed.

Lemma add_on_unwritable_disk_witness :
  exists w',
    on_message (say "6") (read_only waiting) = (Return tt, w')
    /\ file w' = file waiting
    /\ requests w' = requests waiting ++ [sendMessage 42 (added_text apples) no_options].
Proof.
  destruct (add_on_unwritable_disk (read_only waiting) [milk] (say "6") apples
              stores_stocked_milk eq_refl (List.Forall_nil _) eq_refl eq_refl eq_refl
              eq_refl eq_refl) as (w' & H1 & H2 & _ & H3 & _).
  exists w'. repeat split; assumption.
Defined.

(** X20.  The quantity step over a list file that is missing or is not
    JSON: the load failure is logged and the file is written anew; it
    then holds the new item alone.
    (The category is no name inherited from Object.prototype, see
    [inherited_names].) *)
Theorem add_over_unreadable_file (w : World) (msg : Message) (it : Item) :
  unreadable w -> writable w = true ->
  addItemStates w !! msg_chat msg = Some (named (category it) (Some (name it))) ->
  msg_text msg = Some (quantity it) -> checked it = false ->
  own_key (category it) = true ->
  is_command_text (msg_text msg) = false ->
  let after := (on_message msg w).2 in
  stores after [it]
  /\ (exists line,
        startsWith line (js "Error loading shopping list: ") = true
        /\ log after = log w ++ [line])
  /\ requests after = requests w ++ [sendMessage (msg_chat msg) (added_text it) no_options].
Proof.
  intros Hun Hw Hst Hq Hch _ Htext after. subst after.
  destruct (load_unreadable w Hun) as (line & Hload & Hline).
  rewrite (on_message_quantity_world w msg _ _ _ _ Hst eq_refl Htext Hload
             (get_items_list_value [] _)).
  rewrite Hq. cbn [named st_name st_category template map app].
  rewrite (item_value_of_state it Hch). fold (added_text it).
  change [item_value it] with (map item_value [it]).
  rewrite (save_items _ [it]) by exact Hw. cbn [snd].
  cbn [transport set_log].
  destruct (transport w) as [|[e|] t]; cbn [snd];
    (split; [apply stores_of_file; reflexivity|]);
    (split; [exists line; split; [exact Hline|reflexivity]|reflexivity]).
Qed.

Lemma add_over_unreadable_file_witness :
  stores (on_message (say "6") (set_file (Some (js "{oops")) waiting)).2 [apples].
Proof.
  exact (proj1 (add_over_unreadable_file (set_file (Some (js "{oops")) waiting) (say "6")
                  apples (or_intror (ex_intro _ (js "{oops") (conj eq_refl eq_refl)))
                  eq_refl eq_refl eq_refl eq_refl eq_refl eq_refl)).
Defined.

(** ** A message without text *)

Section Nameless.

Lemma stringify_nameless l q c :
  JSON.stringify
    (VObj [(js "items",
            VArr (map item_value l
                    ++ [VObj [ (js "name", VUndefined); (js "quantity", VStr q);
                               (js "category", VStr c); (js "checked", VBool false) ]]))])
  = JSON.stringify (nameless_list l q c).
Proof.
  unfold JSON.stringify, nameless_list.
  cbn [stringify_value member_texts]. rewrite !map_app. reflexivity.
Qed.

Lemma plain_nameless_list l q c : plain (nameless_list l q c) = true.
Proof.
  unfold nameless_list. cbn [plain forallb snd map fst].
  replace (own_order [js "items"]) with true by reflexivity.
  rewrite !andb_true_r, forallb_app. apply andb_true_iff. split; [|reflexivity].
  pose proof (plain_list_value l) as H. unfold list_value in H.
  cbn [plain forallb snd map fst] in H.
  apply andb_true_iff in H as [H _]. apply andb_true_iff in H as [H _]. exact H.
Qed.

Lemma nameless_list_not_items l q c l' : list_value l' <> nameless_list l q c.
Proof.
  unfold list_value, nameless_list. intros [= H].
  change (map item_value l') with (item_value <$> l') in H.
  apply fmap_app_inv in H as (l1 & l2 & _ & H & _).
  destruct l2 as [|x [|y l2]]; try discriminate.
Qed.

Lemma save_nameless w l q c :
  writable w = true ->
  saveShoppingList
    (VArr (map item_value l
             ++ [VObj [ (js "name", VUndefined); (js "quantity", VStr q);
                        (js "category", VStr c); (js "checked", VBool false) ]])) w
  = (Return tt, set_file (JSON.stringify (nameless_list l q c)) w).
Proof.
  intros Hw. unfold saveShoppingList, try_catch. rewrite stringify_nameless.
  assert (H : exists txt, JSON.stringify (nameless_list l q c) = Some txt)
    by (eexists; reflexivity).
  destruct H as [txt ->]. unfold fs_writeFile. rewrite Hw. reflexivity.
Qed.

Lemma parse_nameless w l q c :
  file w = JSON.stringify (nameless_list l q c) ->
  exists data, file w = Some data /\ JSON.parse data = Some (nameless_list l q c).
Proof.
  intros Hf.
  assert (H : exists txt, JSON.stringify (nameless_list l q c) = Some txt)
    by (eexists; reflexivity).
  destruct H as [txt Htxt]. exists txt. split; [congruence|].
  apply parse_stringify; [apply plain_nameless_list|exact Htxt].
Qed.

Lemma processUpdate_textless chat w :
  processUpdate (message (textless chat)) w = run_handler (on_message (textless chat)) w.
Proof. reflexivity. Qed.

End Nameless.

(** X21.  A message without text (a photo, say) is taken as the name.
    After the category is chosen, such a message moves the chat on to the
    quantity; the quantity text then saves an object with no name at all,
    since [JSON.stringify] leaves out a property that is undefined.  The
    file is JSON afterwards, but it holds no sequence of items any more;
    the confirmation shows "undefined" as the name.
    (The category is no name inherited from Object.prototype, see
    [inherited_names].) *)
Theorem textless_message_is_taken_as_name (w : World) (l : list Item) (chat : Z)
    (c q : jsstring) :
  stores w l -> writable w = true -> delivers w ->
  addItemStates w !! chat = Some (chosen c) -> c <> [] -> own_key c = true ->
  free_text q ->
  let after :=
    run [ message (textless chat);
          message {| msg_chat := chat; msg_text := Some q |} ] w in
  (exists data, file after = Some data /\ JSON.parse data = Some (nameless_list l q c))
  /\ (forall l', ~ stores after l')
  /\ requests after
     = requests w
         ++ [ sendMessage chat (js "Enter the quantity:") no_options;
              sendMessage chat
                (glyph_checked ++ js " Added to your list:" ++ nl
                   ++ glyph_of c ++ js " undefined (" ++ q ++ js ")") no_options ]
  /\ addItemStates after !! chat = None.
Proof.
  intros Hl Hw Hd Hst Hc _ Hq after. subst after. unfold run. cbn [fold_left].
  set (w1 := accept (sendMessage chat (js "Enter the quantity:") no_options)
               (set_addItemStates (<[chat := named c None]> (addItemStates w)) w)).
  assert (H1 : processUpdate (message (textless chat)) w = w1).
  { rewrite processUpdate_textless. unfold run_handler.
    rewrite (on_message_name_run w (textless chat) (chosen c) Hd Hst eq_refl);
      [reflexivity| |reflexivity].
    cbn [chosen st_category truthy]. destruct c; [congruence|reflexivity]. }
  rewrite H1. clear H1.
  assert (Hd1 : delivers w1) by (subst w1; apply delivers_accept; exact Hd).
  assert (Hl1 : stores w1 l) by (apply (stores_same_file w); [reflexivity|exact Hl]).
  assert (Hw1 : writable w1 = true) by exact Hw.
  rewrite (processUpdate_free_text chat q w1 Hq). unfold run_handler.
  rewrite (on_message_quantity_world w1 {| msg_chat := chat; msg_text := Some q |}
             (named c None) _ w1 _
             (lookup_insert_eq _ _ _) eq_refl (is_command_text_free q Hq)
             (load_stores w1 l Hl1) (get_items_list_value l w1)).
  cbn [named st_name st_category template of_option msg_text msg_chat].
  rewrite (save_nameless w1 l q c Hw1). cbn [snd].
  assert (Hacc : head (transport w1) = None \/ head (transport w1) = Some None).
  { unfold delivers in Hd1. destruct (transport w1) as [|a t]; [now left|right].
    apply Forall_cons in Hd1 as [-> _]. reflexivity. }
  destruct (transport w1) as [|[e|] t] eqn:Htr;
    [|cbn [head] in Hacc; destruct Hacc; discriminate|].
  all: match goal with |- context [set_addItemStates ?m ?x] =>
         set (w3 := set_addItemStates m x) end.
  all: assert (Hfile : file w3 = JSON.stringify (nameless_list l q c)) by reflexivity.
  all: (split; [apply parse_nameless; exact Hfile|]); (split; [|split]).
  all: try (intros l' (data & Hdata & Hparse);
            destruct (parse_nameless w3 l q c Hfile) as (data' & Hdata' & Hparse');
            rewrite Hdata in Hdata'; apply (inj Some) in Hdata'; subst data';
            rewrite Hparse in Hparse'; apply (inj Some) in Hparse';
            exact (nameless_list_not_items l q c l' Hparse')).
  all: try (subst w3 w1;
            cbn [requests set_addItemStates accept set_transport set_requests set_file];
            rewrite <- !app_assoc; reflexivity).
  all: subst w3; cbn [addItemStates set_addItemStates]; apply lookup_delete_eq.
Qed.

Lemma textless_message_is_taken_as_name_witness :
  exists data,
    file (run [ message (textless 42); message (say "6") ] picked) = Some data
    /\ JSON.parse data = Some (nameless_list [milk] (js "6") (js "fruits")).
Proof.
  exact (proj1 (textless_message_is_taken_as_name picked [milk] 42 (js "fruits") (js "6")
                  stores_stocked_milk eq_refl (List.Forall_nil _) eq_refl
                  ltac:(discriminate) eq_refl (conj eq_refl eq_refl))).
Defined.

(** ** A list file of another shape *)

Section Misshapen.

Lemma get_items_lacks v w :
  lacks_items v = true -> exists m, get_items v w = (Throw (TypeError m), w).
Proof.
  unfold lacks_items, get_items. destruct v as [| | | | | |props]; intros H;
    try (eexists; reflexivity).
  destruct (obj_get (js "items") props); try discriminate; eexists; reflexivity.
Qed.

Lemma load_misshapen w :
  misshapen w -> exists v, loadShoppingList w = (Return v, w) /\ lacks_items v = true.
Proof.
  intros (data & v & Hfile & Hparse & Hv). exists v. split; [|exact Hv].
  unfold loadShoppingList, try_catch, bind, fs_readFile, JSON_parse.
  rewrite Hfile, Hparse. reflexivity.
Qed.

End Misshapen.

(** X22.  [loadShoppingList] returns whatever [JSON.parse] yields.  When
    the file is JSON of a value without [items] (null, a number, an
    array, an object without the key), the load logs nothing, and the
    list command, the remove command, a press of a remove_n or toggle_n
    button and the quantity step all throw a TypeError on
    [shoppingList.items.length] or [.push], with the world unchanged:
    nothing is sent to the user. *)
Theorem misshapen_file_breaks_handlers (w : World) (msg : Message) (query : CallbackQuery)
    (n : nat) :
  misshapen w ->
  data query = js "remove_" ++ nat_to_string n
  \/ data query = js "toggle_" ++ nat_to_string n ->
  (exists m, on_list msg w = (Throw (TypeError m), w))
  /\ (exists m, on_remove msg w = (Throw (TypeError m), w))
  /\ (exists m, on_item_action query w = (Throw (TypeError m), w))
  /\ (forall st,
        addItemStates w !! msg_chat msg = Some st -> state st = awaiting_quantity ->
        is_command_text (msg_text msg) = false ->
        exists m, on_message msg w = (Throw (TypeError m), w)).
Proof.
  intros Hw Hdata. destruct (load_misshapen w Hw) as (v & Hload & Hv).
  destruct (get_items_lacks v w Hv) as (m & Hitems).
  split; [|split; [|split]].
  - exists m. unfold on_list, bind. now rewrite Hload, Hitems.
  - exists m. unfold on_remove, bind. now rewrite Hload, Hitems.
  - exists m. destruct Hdata as [Hdata|Hdata].
    + destruct (remove_token n) as [Hpre Hidx]. rewrite <- Hdata in Hpre, Hidx.
      rewrite (on_item_action_remove query Hpre).
      unfold remove_action, bind. rewrite Hload, Hidx, not_negative by lia.
      now rewrite Hitems.
    + destruct (toggle_token n) as [Hpre Hidx]. rewrite <- Hdata in Hpre, Hidx.
      rewrite (on_item_action_toggle query Hpre).
      unfold toggle_action, bind. rewrite Hload, Hidx, not_negative by lia.
      now rewrite Hitems.
  - intros st Hst Hph Htext. exists m.
    unfold on_message, bind, addItemStates_get. rewrite Hst, Htext, Hph.
    now rewrite Hload, Hitems.
Qed.

Lemma misshapen_file_breaks_handlers_witness :
  exists m,
    on_list (say "/list") (set_file (Some (js "null")) (stocked [] []))
    = (Throw (TypeError m), set_file (Some (js "null")) (stocked [] [])).
Proof.
  exact (proj1 (misshapen_file_breaks_handlers
                  (set_file (Some (js "null")) (stocked [] [])) (say "/list")
                  (press "remove_0") 0
                  (ex_intro _ (js "null") (ex_intro _ VNull (conj eq_refl (conj eq_refl eq_refl))))
                  (or_introl eq_refl))).
Defined.

(** ** The state of another chat *)

Section OtherChat.

Variable chat : Z.

Lemma state_of_set c st :
  c <> chat -> preserves (state_of chat) (addItemStates_set c st).
Proof. intros Hc w. unfold state_of. cbn. now apply lookup_insert_ne. Qed.

Lemma state_of_delete c :
  c <> chat -> preserves (state_of chat) (addItemStates_delete c).
Proof. intros Hc w. unfold state_of. cbn. now apply lookup_delete_ne. Qed.

Lemma state_of_requests r w : state_of chat (set_requests r w) = state_of chat w.
Proof. reflexivity. Qed.
Lemma state_of_transport t w : state_of chat (set_transport t w) = state_of chat w.
Proof. reflexivity. Qed.
Lemma state_of_log l w : state_of chat (set_log l w) = state_of chat w.
Proof. reflexivity. Qed.

Lemma state_of_write data : preserves (state_of chat) (fs_writeFile data).
Proof. intros w. unfold fs_writeFile. destruct (writable w); reflexivity. Qed.

Lemma state_of_save items : preserves (state_of chat) (saveShoppingList items).
Proof.
  intros w. unfold saveShoppingList, try_catch, fs_writeFile, logger_error.
  destruct (JSON.stringify _); [destruct (writable w)|]; reflexivity.
Qed.

Lemma state_of_send c text options : preserves (state_of chat) (bot_sendMessage c text options).
Proof.
  apply preserves_bot_sendMessage; intros; reflexivity.
Qed.

Lemma state_of_load : preserves (state_of chat) loadShoppingList.
Proof.
  apply preserves_loadShoppingList; intros; reflexivity.
Qed.

Local Hint Resolve state_of_requests state_of_transport state_of_log
  state_of_write state_of_save state_of_send state_of_load state_of_set state_of_delete
  : frame.

Lemma state_of_on_message msg : msg_chat msg <> chat -> preserves (state_of chat) (on_message msg).
Proof. intros Hc. unfold on_message. frame. Qed.

Lemma state_of_on_add msg : msg_chat msg <> chat -> preserves (state_of chat) (on_add msg).
Proof. intros Hc. unfold on_add. frame. Qed.

Lemma state_of_on_clear msg : preserves (state_of chat) (on_clear msg).
Proof. unfold on_clear. frame. Qed.

Lemma state_of_on_category q : query_chat q <> chat -> preserves (state_of chat) (on_category q).
Proof. intros Hc. unfold on_category, bot_answerCallbackQuery. frame. Qed.

Lemma state_of_on_item_action q : preserves (state_of chat) (on_item_action q).
Proof.
  unfold on_item_action, remove_action, toggle_action, bot_answerCallbackQuery,
    bot_editMessageText.
  frame.
Qed.

End OtherChat.

(** ** The dispatch of an update *)

Section Dispatch.

Lemma state_of_unhandled chat u w : state_of chat (set_unhandled u w) = state_of chat w.
Proof. reflexivity. Qed.

Lemma state_of_commands chat msg w :
  msg_chat msg <> chat -> state_of chat (run_commands msg w) = state_of chat w.
Proof.
  intros Hc. destruct (msg_text msg) as [text|] eqn:Htext;
    [|unfold run_commands; now rewrite Htext].
  rewrite (run_commands_unfold msg text w Htext).
  repeat (rewrite try_command_preserves;
          [|apply state_of_unhandled
           |first [apply state_of_on_add; exact Hc|apply state_of_on_clear
                  |first [apply preserves_on_start|apply preserves_on_help
                         |apply preserves_on_categories|apply preserves_on_list
                         |apply preserves_on_remove]; reflexivity]]).
  reflexivity.
Qed.

(** No handler changes whether the disk can be written. *)
Lemma writable_on_add msg : preserves writable (on_add msg).
Proof.
  unfold on_add. pose proof (preserves_bot_sendMessage writable). frame.
  intros w. reflexivity.
Qed.

Lemma on_clear_writes msg w :
  writable w = true -> file (on_clear msg w).2 = JSON.stringify (list_value []).
Proof.
  intros Hw. unfold on_clear, bind at 1.
  change (VArr []) with (VArr (map item_value [])). rewrite (save_items w [] Hw).
  rewrite world_bind_ret. unfold bot_sendMessage. now rewrite world_bind_ret, request_world.
Qed.

Lemma file_run_handler h w : file (run_handler h w) = file (h w).2.
Proof. unfold run_handler. destruct (h w) as [[[]|e] w']; reflexivity. Qed.

End Dispatch.

(** X23.  An update changes the conversation state of its own chat only:
    for every update and every other chat, the entry of that chat is
    after the update what it was before. *)
Theorem other_chats_keep_their_state (u : update) (w : World) (chat : Z) :
  chat <> chat_of u ->
  addItemStates (processUpdate u w) !! chat = addItemStates w !! chat.
Proof.
  intros Hc. change (state_of chat (processUpdate u w) = state_of chat w).
  destruct u as [msg|query]; cbn [chat_of processUpdate] in *.
  - rewrite state_of_commands by congruence.
    apply (preserves_run_handler (state_of chat)); [apply state_of_unhandled|].
    apply state_of_on_message. congruence.
  - rewrite (preserves_run_handler (state_of chat));
      [|apply state_of_unhandled|apply state_of_on_item_action].
    apply (preserves_run_handler (state_of chat)); [apply state_of_unhandled|].
    apply state_of_on_category. congruence.
Qed.

Lemma other_chats_keep_their_state_witness :
  addItemStates (processUpdate (message {| msg_chat := 7; msg_text := Some (js "/add 6") |})
                   waiting) !! 42%Z
  = addItemStates waiting !! 42%Z.
Proof.
  exact (other_chats_keep_their_state
           (message {| msg_chat := 7; msg_text := Some (js "/add 6") |}) waiting 42
           ltac:(discriminate)).
Defined.

(** X24.  The command expressions are not anchored: a text that contains
    /clear anywhere, sent by a chat that is in no dialogue, empties the
    list (on a disk that can be written), whatever else the text says. *)
Theorem clear_anywhere_in_text (w : World) (msg : Message) (text : jsstring) :
  msg_text msg = Some text -> includes text (js "/clear") = true ->
  addItemStates w !! msg_chat msg = None -> writable w = true ->
  stores (processUpdate (message msg) w) [].
Proof.
  intros Htext Hinc Hst Hw. unfold processUpdate, run_handler at 1.
  rewrite (on_message_no_state w msg Hst).
  rewrite (run_commands_unfold msg text w Htext).
  match goal with |- context [try_command msg text (js "/clear") on_clear ?x] =>
    set (beforeClear := x) end.
  assert (Hw0 : writable beforeClear = true).
  { subst beforeClear.
    repeat (rewrite try_command_preserves;
            [|reflexivity
             |first [apply writable_on_add
                    |first [apply preserves_on_start|apply preserves_on_help
                           |apply preserves_on_categories|apply preserves_on_list
                           |apply preserves_on_remove]; reflexivity]]).
    exact Hw. }
  apply stores_of_file. unfold try_command. rewrite Hinc, file_run_handler.
  now apply on_clear_writes.
Qed.

Lemma clear_anywhere_in_text_witness :
  stores (processUpdate (message (say "do not /clear the list")) (stocked [milk] [])) [].
Proof.
  exact (clear_anywhere_in_text (stocked [milk] []) (say "do not /clear the list")
           (js "do not /clear the list") eq_refl eq_refl eq_refl eq_refl).
Defined.

(** X25.  The menu of the add command has one row for each category, in
    the order of [categories]; the row shows the glyph and the key and
    carries the token category_key.  The glyph shown is the one that
    [categories] gives back for the key, and a press of the button sets
    the chat to await a name with that key as its category, a category
    under which the next text is taken as the name. *)
Theorem add_menu_offers_every_category (w : World) (msg : Message) (n : nat)
    (cat emoji : jsstring) :
  categories !! n = Some (cat, emoji) ->
  let chat := msg_chat msg in
  requests (on_add msg w).2
  = requests w
      ++ [sendMessage chat (js "Select a category for the new item:")
            (with_keyboard (map category_row categories))]
  /\ map category_row categories !! n = Some (category_row (cat, emoji))
  /\ glyph_of cat = emoji
  /\ forall b queryId messageId w',
       category_row (cat, emoji) = [b] ->
       addItemStates
         (processUpdate (callback_query (press_button queryId chat messageId b)) w') !! chat
       = Some (chosen cat)
       /\ truthy (st_category (chosen cat)) = true.
Proof.
  intros Hn chat. subst chat. split; [|split; [|split]].
  - unfold on_add, bind at 1, addItemStates_set.
    rewrite world_bind_ret. unfold bot_sendMessage.
    rewrite world_bind_ret, request_world. reflexivity.
  - change (map category_row categories) with (category_row <$> categories).
    now rewrite list_lookup_fmap, Hn.
  - unfold categories in Hn.
    repeat (destruct n as [|n]; [injection Hn as <- <-; reflexivity|]).
    discriminate.
  - intros b queryId messageId w' [= <-].
    set (q := press_button _ _ _ _).
    assert (Hdata : data q = js "category_" ++ cat) by reflexivity.
    rewrite (processUpdate_category q cat w' Hdata).
    destruct (on_category_states q cat w' Hdata) as (Hs & _).
    split.
    + unfold run_handler. destruct (on_category q w') as [[[]|e] w'']; cbn [snd] in Hs;
        cbn [addItemStates set_unhandled]; rewrite Hs; apply lookup_insert_eq.
    + unfold categories in Hn.
      repeat (destruct n as [|n]; [injection Hn as <- <-; reflexivity|]).
      discriminate.
Qed.

Lemma add_menu_offers_every_category_witness :
  glyph_of (js "fruits") = [0xD83C; 0xDF4E].
Proof.
  exact (proj1 (proj2 (proj2
           (add_menu_offers_every_category (stocked [] []) (say "/add") 5
              (js "fruits") [0xD83C; 0xDF4E] eq_refl)))).
Defined.

(** ** A command on its own *)

Section Bare.

Lemma bare_command n pattern handler chat w :
  commands !! n = Some (pattern, handler) ->
  let msg := {| msg_chat := chat; msg_text := Some pattern |} in
  processUpdate (message msg) w = run_handler (handler msg) w.
Proof.
  intros Hn msg. subst msg. unfold commands in Hn.
  repeat (destruct n as [|n];
          [injection Hn as <- <-; unfold processUpdate;
           unfold run_handler at 1; rewrite on_message_command by reflexivity;
           reflexivity|]).
  discriminate.
Qed.

End Bare.

(** X26.  No command expression matches the text of another command: a
    message whose text is exactly one of the seven commands runs the
    handler of that command and nothing else, in every conversation
    state (the text begins with "/", so that it is no dialogue input). *)
Theorem bare_command_runs_one_handler (n : nat) (pattern : jsstring)
    (handler : Message -> M unit) (chat : Z) (w : World) :
  commands !! n = Some (pattern, handler) ->
  let msg := {| msg_chat := chat; msg_text := Some pattern |} in
  processUpdate (message msg) w = run_handler (handler msg) w
  /\ is_command_text (Some pattern) = true
  /\ forall m pattern' handler',
       commands !! m = Some (pattern', handler') -> m <> n ->
       includes pattern pattern' = false.
Proof.
  intros Hn msg. split; [exact (bare_command n pattern handler chat w Hn)|].
  unfold commands in *.
  repeat (destruct n as [|n];
          [injection Hn as <- <-; split; [reflexivity|];
           intros m p' h' Hm Hne;
           repeat (destruct m as [|m];
                   [first [congruence|injection Hm as <- <-; reflexivity]|]);
           discriminate|]).
  discriminate.
Qed.

Lemma bare_command_runs_one_handler_witness :
  processUpdate (message (say "/clear")) waiting = run_handler (on_clear (say "/clear")) waiting.
Proof.
  exact (proj1 (bare_command_runs_one_handler 6 (js "/clear") on_clear 42 waiting eq_refl)).
Defined.

(** X27.  Clear, then list: whatever the file held, after the clear
    command the list command answers "Your shopping list is empty.".  The
    two requests are the confirmation of the clear and that answer; no
    handler throws and no conversation state changes. *)
Theorem clear_then_list_shows_empty (w : World) (chat chat' : Z) :
  writable w = true -> delivers w ->
  let after :=
    run [ message {| msg_chat := chat; msg_text := Some (js "/clear") |};
          message {| msg_chat := chat'; msg_text := Some (js "/list") |} ] w in
  stores after []
  /\ requests after
     = requests w ++ [ sendMessage chat cleared_text no_options;
                       sendMessage chat' empty_text no_options ]
  /\ unhandled after = unhandled w
  /\ addItemStates after = addItemStates w.
Proof.
  intros Hw Hd after. subst after. unfold run. cbn [fold_left].
  rewrite (bare_command 6 (js "/clear") on_clear chat w eq_refl).
  set (w1 := accept (sendMessage chat cleared_text no_options)
               (set_file (JSON.stringify (list_value [])) w)).
  assert (H1 : run_handler (on_clear {| msg_chat := chat; msg_text := Some (js "/clear") |}) w
               = w1).
  { unfold run_handler, on_clear, bind at 1.
    change (VArr []) with (VArr (map item_value [])). rewrite (save_items w [] Hw).
    unfold bind, bot_sendMessage, bind.
    rewrite request_accept by exact Hd. reflexivity. }
  rewrite H1. clear H1.
  assert (Hd1 : delivers w1) by (apply delivers_accept; exact Hd).
  assert (Hl1 : stores w1 []) by (apply stores_of_file; reflexivity).
  rewrite (bare_command 3 (js "/list") on_list chat' w1 eq_refl).
  set (w2 := accept (sendMessage chat' empty_text no_options) w1).
  assert (H2 : run_handler (on_list {| msg_chat := chat'; msg_text := Some (js "/list") |}) w1
               = w2).
  { unfold run_handler, on_list, bind at 1. rewrite (load_stores w1 [] Hl1).
    unfold bind at 1. rewrite get_items_list_value. cbn [map length Nat.eqb].
    fold empty_text.
    unfold bind, safeSendMessage, try_catch, bind, bot_sendMessage, bind.
    rewrite request_accept by exact Hd1. reflexivity. }
  rewrite H2. clear H2.
  split; [apply (stores_same_file w1); [reflexivity|exact Hl1]|].
  split; [|split; reflexivity].
  subst w2 w1. cbn [requests accept set_transport set_requests set_file].
  rewrite <- app_assoc. reflexivity.
Qed.

Lemma clear_then_list_shows_empty_witness :
  stores (run [ message (say "/clear"); message (say "/list") ] (stocked [milk] [])) [].
Proof.
  exact (proj1 (clear_then_list_shows_empty (stocked [milk] []) 42 42 eq_refl
                  (List.Forall_nil _))).
Defined.

(** X28.  The help text and the text of the categories command name every
    category: for each entry of [categories] the help text contains the
    glyph followed by the key, and the categories text contains the glyph
    followed by the key between asterisks.  Both are sent first, as
    Markdown, by their commands, which leave the file and the
    conversation states as they were. *)
Theorem help_names_every_category (w : World) (msg : Message) (n : nat)
    (cat emoji : jsstring) :
  categories !! n = Some (cat, emoji) ->
  let chat := msg_chat msg in
  includes helpMessage (emoji ++ js " " ++ cat) = true
  /\ (exists text,
        includes text (emoji ++ js " *" ++ cat ++ js "*") = true
        /\ exists more,
             requests (on_categories msg w).2
             = requests w ++ sendMessage chat text markdown :: more)
  /\ (exists more,
        requests (on_help msg w).2
        = requests w ++ sendMessage chat helpMessage markdown :: more)
  /\ file (on_help msg w).2 = file w /\ file (on_categories msg w).2 = file w
  /\ addItemStates (on_help msg w).2 = addItemStates w
  /\ addItemStates (on_categories msg w).2 = addItemStates w.
Proof.
  intros Hn chat. subst chat.
  split; [|split; [|split; [|split; [|split; [|split]]]]].
  - unfold categories in Hn.
    repeat (destruct n as [|n]; [injection Hn as <- <-; vm_compute; reflexivity|]).
    discriminate.
  - eexists. split.
    2: { unfold on_categories. rewrite world_bind_ret.
         destruct (safeSendMessage_requests (msg_chat msg)
                     (js "*Available Categories:*" ++ nl ++ nl
                        ++ join nl (map (fun '(cat, emoji) => emoji ++ js " *" ++ cat ++ js "*")
                                      categories)) markdown w) as (more & H & _).
         exists more. exact H. }
    unfold categories in Hn.
    repeat (destruct n as [|n]; [injection Hn as <- <-; vm_compute; reflexivity|]).
    discriminate.
  - unfold on_help. rewrite world_bind_ret.
    destruct (safeSendMessage_requests (msg_chat msg) helpMessage markdown w)
      as (more & H & _).
    exists more. exact H.
  - now apply (preserves_on_help file).
  - now apply (preserves_on_categories file).
  - now apply (preserves_on_help addItemStates).
  - now apply (preserves_on_categories addItemStates).
Qed.

Lemma help_names_every_category_witness :
  includes helpMessage ([0xD83C; 0xDF4E] ++ js " " ++ js "fruits") = true.
Proof.
  exact (proj1 (help_names_every_category (stocked [] []) (say "/help") 5
                  (js "fruits") [0xD83C; 0xDF4E] eq_refl)).
Defined.

(** X29.  A removal or a toggle on a disk that cannot be written: the file
    is left as it was and the failure is logged, and yet the handler
    returns after reporting success.  The removal confirms with the name
    of the item; the toggle redraws the menu with the new mark on item
    [n] and answers "checked" or "unchecked", as if the change had been
    saved.
    (No category in [l] is a name inherited from Object.prototype, see
    [inherited_names].) *)
Theorem item_actions_on_unwritable_disk (w : World) (l : list Item)
    (query : CallbackQuery) (n : nat) (it : Item) :
  stores w l -> own_keys l = true -> writable w = false -> delivers w ->
  l !! n = Some it ->
  let chat := query_chat query in
  let failure := js "Error saving shopping list: EACCES: permission denied" in
  (data query = js "remove_" ++ nat_to_string n ->
   exists w',
     on_item_action query w = (Return tt, w')
     /\ file w' = file w /\ log w' = log w ++ [failure]
     /\ requests w'
        = requests w ++ [ sendMessage chat (removed_text it) no_options;
                          answerCallbackQuery (query_id query) no_answer ])
  /\ (data query = js "toggle_" ++ nat_to_string n ->
      exists w',
        on_item_action query w = (Return tt, w')
        /\ file w' = file w /\ log w' = log w ++ [failure]
        /\ requests w'
           = requests w
               ++ [ editMessageText checkoff_header chat (query_message_id query)
                      (imap toggle_row (alter toggle n l)) (js "Markdown");
                    answerCallbackQuery (query_id query)
                      {| answer_text := Some (toggled_text (toggle it));
                         show_alert := false |} ]).
Proof.
  intros Hst _ Hw Hd Hit chat failure. subst chat failure.
  assert (Hlt : (Z.of_nat n < Z.of_nat (length l))%Z) by (apply lookup_lt_Some in Hit; lia).
  assert (Hit' : l !! Z.to_nat (Z.of_nat n) = Some it) by now rewrite Nat2Z.id.
  set (w1 := set_log (log w ++ [js "Error saving shopping list: EACCES: permission denied"]) w).
  assert (Hd1 : delivers w1) by exact Hd.
  split; intros Hdata.
  - destruct (remove_token n) as [Hpre Hidx]. rewrite <- Hdata in Hpre, Hidx.
    rewrite (on_item_action_remove query Hpre).
    unfold remove_action, bind.
    rewrite (load_stores w l Hst), Hidx, (not_negative _ (Nat2Z.is_nonneg n)),
      get_items_list_value, (below_length _ l Hlt).
    rewrite splice1_in_range by (rewrite length_map; lia).
    rewrite (save_read_only w _ Hw), (array_get_item _ l it (Nat2Z.is_nonneg n) Hit').
    unfold lift. rewrite get_prop_category. cbn [category_glyph to_string obind].
    rewrite get_prop_name. cbn [to_string]. fold (removed_text it).
    unfold bot_sendMessage, bot_answerCallbackQuery, bind. fold w1.
    rewrite (request_accept _ w1 Hd1). unfold ret.
    rewrite (request_accept _ _ (delivers_accept _ w1 Hd1)).
    eexists. split; [reflexivity|]. split; [reflexivity|]. split; [reflexivity|].
    subst w1. cbn [requests accept set_requests set_transport set_log].
    now rewrite <- app_assoc.
  - destruct (toggle_token n) as [Hpre Hidx]. rewrite <- Hdata in Hpre, Hidx.
    rewrite (on_item_action_toggle query Hpre).
    unfold toggle_action, bind.
    rewrite (load_stores w l Hst), Hidx, (not_negative _ (Nat2Z.is_nonneg n)),
      get_items_list_value, (below_length _ l Hlt).
    unfold lift at 1.
    rewrite (toggle_checked_item (Z.of_nat n) l it (Nat2Z.is_nonneg n) Hit').
    rewrite (save_read_only w _ Hw). unfold lift at 1.
    rewrite Nat2Z.id, keyboard_of_toggle_rows.
    assert (Hnew : alter toggle n l !! Z.to_nat (Z.of_nat n) = Some (toggle it))
      by (rewrite Nat2Z.id, list_lookup_alter_eq, Hit; reflexivity).
    rewrite (array_get_item (Z.of_nat n) _ _ (Nat2Z.is_nonneg n) Hnew).
    unfold lift. rewrite get_prop_name, get_prop_checked. cbn [to_string to_boolean].
    fold checkoff_header.
    unfold bot_editMessageText, bot_answerCallbackQuery. fold w1.
    rewrite (request_accept _ w1 Hd1).
    rewrite (request_accept _ _ (delivers_accept _ w1 Hd1)).
    eexists. split; [reflexivity|]. split; [reflexivity|]. split; [reflexivity|].
    subst w1. cbn [requests accept set_requests set_transport set_log].
    now rewrite <- app_assoc.
Qed.

Lemma item_actions_on_unwritable_disk_witness :
  exists w',
    on_item_action (press "remove_1") (read_only (stocked [apples; milk] []))
    = (Return tt, w')
    /\ file w' = file (stocked [apples; milk] [])
    /\ requests w'
       = [ sendMessage 42 (removed_text milk) no_options;
           answerCallbackQuery (js "q1") no_answer ].
Proof.
  destruct (proj1 (item_actions_on_unwritable_disk (read_only (stocked [apples; milk] []))
                     [apples; milk] (press "remove_1") 1 milk
                     stores_stocked_pair eq_refl eq_refl (List.Forall_nil _) eq_refl)
              eq_refl) as (w' & H1 & H2 & _ & H3).
  exists w'. repeat split; assumption.
Defined.

(** ** The list file stays a list *)

Section Invariant.

Lemma sound_same w w' :
  file w' = file w -> writable w' = writable w -> addItemStates w' = addItemStates w ->
  sound w -> sound w'.
Proof.
  intros Hf Hw Hs (Hwr & (l & Hl) & Hst). split; [congruence|]. split.
  - exists l. now apply (stores_same_file w).
  - intros chat st. rewrite Hs. apply Hst.
Qed.

Lemma sound_file w w' l :
  file w' = JSON.stringify (list_value l) -> writable w' = writable w ->
  addItemStates w' = addItemStates w ->
  sound w -> sound w'.
Proof.
  intros Hf Hw Hs (Hwr & _ & Hst). split; [congruence|]. split.
  - exists l. now apply stores_of_file.
  - intros chat st. rewrite Hs. apply Hst.
Qed.

Lemma sound_unhandled u w : sound w -> sound (set_unhandled u w).
Proof. now apply sound_same. Qed.

Lemma sound_run_handler h w : sound (h w).2 -> sound (run_handler h w).
Proof.
  unfold run_handler. destruct (h w) as [[[]|e] w']; cbn [snd]; [auto|].
  apply sound_unhandled.
Qed.

Lemma well_stated_insert w w' chat st :
  addItemStates w' = <[chat := st]> (addItemStates w) ->
  (state st = awaiting_quantity -> is_Some (st_name st) /\ is_Some (st_category st)) ->
  well_stated w -> well_stated w'.
Proof.
  intros Hs Hnew Hst c st'. rewrite Hs.
  destruct (decide (c = chat)) as [->|Hne].
  - rewrite lookup_insert_eq. intros [= <-]. exact Hnew.
  - rewrite lookup_insert_ne by congruence. apply Hst.
Qed.

Lemma well_stated_delete w w' chat :
  addItemStates w' = delete chat (addItemStates w) -> well_stated w -> well_stated w'.
Proof.
  intros Hs Hst c st'. rewrite Hs. intros H. apply lookup_delete_Some in H as [_ H].
  exact (Hst c st' H).
Qed.

Lemma sound_on_message w msg t :
  msg_text msg = Some t -> sound w -> sound (on_message msg w).2.
Proof.
  intros Ht Hsound.
  destruct (addItemStates w !! msg_chat msg) as [st|] eqn:Hst;
    [|now rewrite (on_message_no_state w msg Hst)].
  destruct (is_command_text (msg_text msg)) eqn:Hcmd;
    [now rewrite (on_message_command w msg Hcmd)|].
  destruct Hsound as (Hw & (l & Hl) & Hstates).
  destruct (state st) eqn:Hph.
  - destruct (truthy (st_category st)) eqn:Hcat;
      [|rewrite (on_message_no_category w msg st Hst Hph Hcat);
        split; [exact Hw|split; [now exists l|exact Hstates]]].
    assert (Hrun : exists r w',
              on_message msg w = (r, w') /\ file w' = file w /\ writable w' = writable w
              /\ addItemStates w'
                 = <[msg_chat msg := {| state := awaiting_quantity;
                                        st_category := st_category st;
                                        st_name := msg_text msg |}]> (addItemStates w)).
    { unfold on_message, bind, addItemStates_get. rewrite Hst, Hcmd, Hph, Hcat.
      unfold addItemStates_set, bot_sendMessage, bind, request.
      cbn [transport set_addItemStates].
      destruct (transport w) as [|[e|] tr]; eexists _, _; repeat split. }
    destruct Hrun as (r & w' & -> & Hf & Hwr & Hs). cbn [snd].
    split; [congruence|]. split; [exists l; now apply (stores_same_file w)|].
    apply (well_stated_insert w w' _ _ Hs); [|exact Hstates].
    cbn [st_name st_category]. intros _. rewrite Ht. split; [eauto|].
    destruct (st_category st); [eauto|discriminate].
  - destruct (Hstates _ _ Hst Hph) as [[n Hn] [c Hc]].
    destruct st as [ph cat nm]. cbn [state st_name st_category] in *. subst ph cat nm.
    set (it := {| name := n; quantity := t; category := c; checked := false |}).
    rewrite (on_message_quantity_stored w msg l it Hl Hst Ht eq_refl Hcmd).
    rewrite (save_items w _ Hw). cbn [snd].
    destruct (transport w) as [|[e|] tr]; cbn [snd];
      (split; [exact Hw|]); (split; [exists (l ++ [it]); apply stores_of_file; reflexivity|]).
    1, 3: apply (well_stated_delete w _ (msg_chat msg)); [reflexivity|exact Hstates].
    intros chat st. apply Hstates.
Qed.

Lemma writable_on_clear msg : preserves writable (on_clear msg).
Proof.
  unfold on_clear, saveShoppingList. pose proof (preserves_bot_sendMessage writable).
  frame. intros w. unfold fs_writeFile. destruct (writable w) eqn:Hw; exact Hw.
Qed.

Lemma writable_commands msg w : writable (run_commands msg w) = writable w.
Proof.
  destruct (msg_text msg) as [text|] eqn:Htext;
    [|unfold run_commands; now rewrite Htext].
  rewrite (run_commands_unfold msg text w Htext).
  repeat (rewrite try_command_preserves;
          [|reflexivity
           |first [apply writable_on_add|apply writable_on_clear
                  |first [apply preserves_on_start|apply preserves_on_help
                         |apply preserves_on_categories|apply preserves_on_list
                         |apply preserves_on_remove]; reflexivity]]).
  reflexivity.
Qed.

Lemma sound_commands w msg : sound w -> sound (run_commands msg w).
Proof.
  intros (Hw & (l & Hl) & Hst).
  destruct (run_commands_frame msg w) as (Hf & Hs & _).
  split; [now rewrite writable_commands|]. split.
  - destruct Hf as [Hf|Hf]; [exists l; now apply (stores_same_file w)|].
    exists []. now apply stores_of_file.
  - destruct Hs as [Hs|Hs].
    + intros chat st. rewrite Hs. apply Hst.
    + apply (well_stated_insert w _ _ _ Hs); [discriminate|exact Hst].
Qed.

Lemma sound_on_category w q : sound w -> sound (on_category q w).2.
Proof.
  intros Hsound. unfold on_category. destruct (startsWith (data q) (js "category_")); [|exact Hsound].
  assert (Hrun : exists r w' c,
            (addItemStates_set (query_chat q)
               {| state := awaiting_name; st_category := Some c; st_name := None |} ;;
             bot_sendMessage (query_chat q) (js "Enter the item name:") no_options ;;
             bot_answerCallbackQuery (query_id q) no_answer) w = (r, w')
            /\ replace (data q) (js "category_") [] = c
            /\ file w' = file w /\ writable w' = writable w
            /\ addItemStates w' = <[query_chat q := chosen c]> (addItemStates w)).
  { unfold bind, addItemStates_set, bot_sendMessage, bot_answerCallbackQuery, bind, request, ret.
    cbn [transport set_addItemStates set_transport set_requests].
    destruct (transport w) as [|[e|] [|[e'|] tr]]; cbn [tail];
      eexists _, _, _; repeat split. }
  destruct Hrun as (r & w' & c & Hrun & Hc & Hf & Hw & Hs). subst c. rewrite Hrun. cbn [snd].
  destruct Hsound as (Hwr & (l & Hl) & Hst).
  split; [congruence|]. split; [exists l; now apply (stores_same_file w)|].
  apply (well_stated_insert w w' _ _ Hs); [discriminate|exact Hst].
Qed.

Lemma in_range_item (i : Z) (l : list Item) :
  (0 <= i)%Z -> (i < Z.of_nat (length l))%Z -> exists it, l !! Z.to_nat i = Some it.
Proof. intros H0 H1. apply lookup_lt_is_Some_2. lia. Qed.

Lemma sound_on_item_action w q : sound w -> sound (on_item_action q w).2.
Proof.
  intros Hsound. pose proof Hsound as (Hw & (l & Hl) & Hst).
  destruct (startsWith (data q) (js "remove_")) eqn:Hrem.
  - rewrite (on_item_action_remove q Hrem).
    destruct (parseInt (replace (data q) (js "remove_") [])) as [|i] eqn:Hidx.
    + rewrite (remove_action_nan w l q Hl Hw Hidx). cbn [snd].
      now apply (sound_file w _ (tail l)).
    + destruct (Z_lt_dec i 0) as [Hneg|Hpos];
        [|destruct (Z_le_dec (Z.of_nat (length l)) i) as [Hbig|Hin]].
      * destruct (remove_action_out_of_range w l q i Hl Hidx (or_introl Hneg)) as [r ->].
        now apply (sound_same w).
      * destruct (remove_action_out_of_range w l q i Hl Hidx (or_intror Hbig)) as [r ->].
        now apply (sound_same w).
      * destruct (in_range_item i l) as [it Hit]; [lia..|].
        destruct (remove_action_in_range w l q i it Hl Hw Hidx ltac:(lia) Hit)
          as (r & w' & -> & Hf & Hw' & Hs & _).
        cbn [snd]. apply (sound_file w w' _ Hf); [congruence|exact Hs|exact Hsound].
  - destruct (startsWith (data q) (js "toggle_")) eqn:Htog.
    + rewrite (on_item_action_toggle q Htog).
      destruct (parseInt (replace (data q) (js "toggle_") [])) as [|i] eqn:Hidx.
      * now rewrite (toggle_action_nan w l q Hl Hidx).
      * destruct (Z_lt_dec i 0) as [Hneg|Hpos];
          [|destruct (Z_le_dec (Z.of_nat (length l)) i) as [Hbig|Hin]].
        -- rewrite (toggle_action_out_of_range w l q i Hl Hidx (or_introl Hneg)).
           now apply (sound_same w).
        -- rewrite (toggle_action_out_of_range w l q i Hl Hidx (or_intror Hbig)).
           now apply (sound_same w).
        -- destruct (in_range_item i l) as [it Hit]; [lia..|].
           destruct (toggle_action_in_range w l q i it Hl Hw Hidx ltac:(lia) Hit)
             as (r & w' & -> & Hf & Hw' & Hs).
           cbn [snd]. apply (sound_file w w' _ Hf); [congruence|exact Hs|exact Hsound].
    + unfold on_item_action. rewrite Hrem, Htog. exact Hsound.
Qed.

Lemma sound_processUpdate u w : one_writer u -> sound w -> sound (processUpdate u w).
Proof.
  intros Hu Hsound. destruct u as [msg|q]; cbn [processUpdate].
  - destruct Hu as (t & Ht & _).
    apply sound_commands, sound_run_handler. now apply (sound_on_message w msg t).
  - apply sound_run_handler, sound_on_item_action, sound_run_handler.
    now apply sound_on_category.
Qed.

End Invariant.

(** X30.  An invariant of the dispatch.  From a world in which the disk can
    be written, the list file holds a sequence of items and every chat
    that is asked for a quantity has a name and a category, any run of
    updates leads to such a world again, whatever the Telegram API
    answers and whichever handlers throw; the updates are button presses
    with any token and messages with a text that is a command or contains
    none, so that one handler at most writes the file.  (A message
    without text is what breaks the invariant.) *)
Theorem the_list_file_stays_a_list (events : list update) (w : World) :
  Forall one_writer events -> sound w ->
  let after := run events w in
  (exists l, stores after l) /\ well_stated after /\ writable after = true.
Proof.
  intros Hev Hsound after. subst after.
  assert (H : sound (run events w)).
  { revert w Hsound. induction Hev as [|u events Hu _ IH]; intros w Hsound; [exact Hsound|].
    unfold run. cbn [fold_left]. apply IH. now apply sound_processUpdate. }
  destruct H as (Hw & Hl & Hst). auto.
Qed.

Lemma sound_stocked_milk : sound (stocked [milk] []).
Proof.
  split; [reflexivity|]. split; [exists [milk]; exact stores_stocked_milk|].
  intros chat st H. discriminate.
Qed.

Lemma one_writer_scenario :
  Forall one_writer
    (add_apples 42 (js "q1") 7
       ++ [callback_query (press "remove_9"); message (say "/clear")]).
Proof.
  repeat constructor;
    eexists; (split; [reflexivity|]); first [left; reflexivity|right; reflexivity].
Qed.

Lemma the_list_file_stays_a_list_witness :
  exists l,
    stores (run (add_apples 42 (js "q1") 7
                   ++ [callback_query (press "remove_9"); message (say "/clear")])
              (stocked [milk] [])) l.
Proof.
  exact (proj1 (the_list_file_stays_a_list _ (stocked [milk] []) one_writer_scenario
                  sound_stocked_milk)).
Defined.

(** ** A command text in the middle of the dialogue *)

Section Answers.

Variable l : list Item.










End Answers.

Section CommandText.





End CommandText.



